(** * LiquidityLink: risk assessment and rebalancing engine

    A shallow embedding of the domain logic of the repository:
    - [src/lib/utils.ts]        ([calculateImpermanentLoss]),
    - [src/lib/rebalancing.ts]  ([RebalancingEngine], [createCustomStrategy],
                                 [validateStrategy]),
    - the pool-level [RiskAssessmentEngine] (its [assessPool] and
      [assessPortfolio] over pools) and the [config] it reads,
    - the position-level [RiskAssessmentEngine] (its portfolio metrics).

    Numbers.  A TypeScript [number] is a binary64 float.  The decision logic
    is embedded over exact rationals ([Q]) where its inputs are finite
    numbers: [+ - * /] are exact, and a division whose divisor can be zero
    is written out with the value JavaScript gives it ([Infinity],
    [-Infinity] or [NaN], type [JS.number] below).  Signed zeros are not
    distinguished.  The numbers of a strategy come from form fields through
    [parseFloat], which can give [NaN]: strategy creation and validation
    are embedded over [JS.number].  [calculateImpermanentLoss] takes a
    square root and is embedded over the kernel's binary64 floats
    ([Binary64]), with its range proved from their specification.

    Objects and exceptions.  The protocol table is a plain object, so a
    lookup also finds what [Object.prototype] provides; reading a property
    of [undefined] throws, and a function that can throw returns an
    [option]. *)

From Stdlib Require Import ZArith QArith Qround Qpower Lia Lqa List String Ascii Bool.
From Stdlib Require Import DecimalString DecimalZ.
From Stdlib Require Floats.
From stdpp Require Import base strings gmap.
Import ListNotations.

Local Open Scope string_scope.
Local Open Scope Q_scope.

(* ------------------------------------------------------------------ *)
(** ** JavaScript numbers, [Math] and strings *)

Module JS.

(** [a < b] and [a > b] on finite numbers. *)
Definition ltb (a b : Q) : bool := negb (Qle_bool b a).
Definition gtb (a b : Q) : bool := ltb b a.

(** A falsy number: [if (x)] does not run for [0] (nor for [NaN], which a
    finite number is not). *)
Definition truthy (x : Q) : bool := negb (Qeq_bool x 0).

Definition Math_min (a b : Q) : Q := if Qle_bool a b then a else b.
Definition Math_max (a b : Q) : Q := if Qle_bool a b then b else a.
Definition Math_floor (x : Q) : Z := Qfloor x.
(** [Math.round] rounds half-way cases towards [+Infinity]. *)
Definition Math_round (x : Q) : Z := Qfloor (x + (1 # 2)).

(** A number that may have left the finite range. *)
Inductive number : Type :=
| Num (q : Q)
| Infinity
| NegInfinity
| NaN.

Definition add (x y : number) : number :=
  match x, y with
  | NaN, _ | _, NaN => NaN
  | Num a, Num b => Num (a + b)
  | Infinity, NegInfinity | NegInfinity, Infinity => NaN
  | Infinity, _ | _, Infinity => Infinity
  | NegInfinity, _ | _, NegInfinity => NegInfinity
  end.

Definition neg (x : number) : number :=
  match x with
  | Num a => Num (- a)
  | Infinity => NegInfinity
  | NegInfinity => Infinity
  | NaN => NaN
  end.

Definition sub (x y : number) : number := add x (neg y).

(** The sign of a number that is not [NaN]. *)
Definition sign (x : number) : comparison :=
  match x with
  | Num a => a ?= 0
  | Infinity => Gt
  | NegInfinity => Lt
  | NaN => Eq
  end.

Definition signed_infinity (s1 s2 : comparison) : number :=
  match s1, s2 with
  | Eq, _ | _, Eq => NaN
  | Gt, Gt | Lt, Lt => Infinity
  | _, _ => NegInfinity
  end.

Definition mul (x y : number) : number :=
  match x, y with
  | NaN, _ | _, NaN => NaN
  | Num a, Num b => Num (a * b)
  | _, _ => signed_infinity (sign x) (sign y)
  end.

Definition div (x y : number) : number :=
  match x, y with
  | NaN, _ | _, NaN => NaN
  | Num a, Num b =>
      if Qeq_bool b 0 then signed_infinity (a ?= 0) Gt else Num (a / b)
  | Num _, _ => Num 0
  | _, Num b => signed_infinity (sign x) (if Qeq_bool b 0 then Gt else b ?= 0)
  | _, _ => NaN
  end.

(** [x > y]; false as soon as one side is [NaN]. *)
Definition ngtb (x y : number) : bool :=
  match x, y with
  | NaN, _ | _, NaN => false
  | Num a, Num b => gtb a b
  | Infinity, Infinity => false
  | Infinity, _ => true
  | _, NegInfinity => negb (match x with NegInfinity => true | _ => false end)
  | _, _ => false
  end.

(** [x < y]; false as soon as one side is [NaN]. *)
Definition nltb (x y : number) : bool := ngtb y x.

(** Binary [Math.max] / [Math.min]: [NaN] is contagious. *)
Definition max2 (x y : number) : number :=
  match x, y with
  | NaN, _ | _, NaN => NaN
  | _, _ => if ngtb y x then y else x
  end.

Definition min2 (x y : number) : number :=
  match x, y with
  | NaN, _ | _, NaN => NaN
  | _, _ => if ngtb x y then y else x
  end.

(** [Math.max(...xs)]: [-Infinity] for no argument. *)
Definition Math_max_list (xs : list number) : number :=
  fold_left max2 xs NegInfinity.

(** [Math.round] on a possibly non-finite number. *)
Definition round (x : number) : number :=
  match x with
  | Num a => Num (inject_Z (Math_round a))
  | _ => x
  end.

(** [s.includes(sub)]. *)
Fixpoint includes (s sub : string) : bool :=
  String.prefix sub s
  || match s with
     | EmptyString => false
     | String _ s' => includes s' sub
     end.

(** [s.toLowerCase()] on the ASCII letters. *)
Definition lower_ascii (c : ascii) : ascii :=
  let n := nat_of_ascii c in
  if ((65 <=? n) && (n <=? 90))%nat then ascii_of_nat (n + 32) else c.

Fixpoint toLowerCase (s : string) : string :=
  match s with
  | EmptyString => EmptyString
  | String c s' => String (lower_ascii c) (toLowerCase s')
  end.

(** The decimal rendering of an integer-valued number, as a template
    literal inserts it (integers below 1e21 print without exponent). *)
Definition string_of_integer (z : Z) : string :=
  NilZero.string_of_int (Z.to_int z).

End JS.

(* ------------------------------------------------------------------ *)
(** ** [src/lib/types.ts] *)

(** [Date] values are milliseconds since the epoch. *)
Definition Date := Z.

Module LPPosition.
Record t : Type := mk {
  positionId : string;
  userId : string;
  protocol : string;
  poolAddress : string;
  token0 : string;
  token1 : string;
  amount0 : Q;
  amount1 : Q;
  depositTimestamp : Date;
  currentValue : Q;
  riskScore : Q;
}.
End LPPosition.

Module PoolData.
Record t : Type := mk {
  protocol : string;
  pair : string;
  apy : Q;
  tvl : Q;
  volume24h : Q;
  fees24h : Q;
  riskScore : Q;
}.
End PoolData.

(* ------------------------------------------------------------------ *)
(** ** [src/lib/rebalancing.ts] *)

(** The literal types ['low' | 'medium' | 'high'] (risk tolerance, urgency). *)
Inductive Level : Type := low | medium | high.

Inductive Action : Type := rebalance | exit | adjust | hold.

Definition Level_eqb (a b : Level) : bool :=
  match a, b with
  | low, low | medium, medium | high, high => true
  | _, _ => false
  end.

Definition Action_eqb (a b : Action) : bool :=
  match a, b with
  | rebalance, rebalance | exit, exit | adjust, adjust | hold, hold => true
  | _, _ => false
  end.

(** One record for the interface [RebalancingStrategy], over the numbers
    it is filled with.  The engine is run with strategies whose numbers are
    finite ([t], over [Q]).  [createCustomStrategy] and [validateStrategy]
    are handed the numbers of the settings form, which are [parseFloat] of
    a text field and can be [NaN]: there the record is over [JS.number]. *)
Module RebalancingStrategy.
Record record (number : Type) : Type := mk {
  id : string;
  name : string;
  description : string;
  targetAPY : number;
  maxImpermanentLoss : number;
  riskTolerance : Level;
  rebalanceThreshold : number;
  enabled : bool;
}.

Arguments mk {number} id name description targetAPY maxImpermanentLoss
  riskTolerance rebalanceThreshold enabled.
Arguments id {number} _.
Arguments name {number} _.
Arguments description {number} _.
Arguments targetAPY {number} _.
Arguments maxImpermanentLoss {number} _.
Arguments riskTolerance {number} _.
Arguments rebalanceThreshold {number} _.
Arguments enabled {number} _.

Definition t : Type := record Q.
End RebalancingStrategy.

(** The [reason] of a recommendation is one of five message templates; the
    number each template prints (with [toFixed(2)], or as it is) is kept as
    the constructor's argument. *)
Inductive Reason : Type :=
| ReasonExceedsMaximum (impermanentLoss : Q)
| ReasonBelowTarget (currentAPY : Q)
| ReasonRiskExceedsTolerance (riskScore : Q) (riskTolerance : Level)
| ReasonApproachingMaximum (impermanentLoss : Q)
| ReasonWithinParameters (currentAPY : Q).

Module RebalancingRecommendation.
Record t : Type := mk {
  positionId : string;
  action : Action;
  reason : Reason;
  urgency : Level;
  expectedGain : option Q;
  riskReduction : option Q;
  newPool : option PoolData.t;
  estimatedCost : option Q;
}.
End RebalancingRecommendation.

Module RebalancingAnalysis.
Record t : Type := mk {
  totalPositions : nat;
  positionsAtRisk : nat;
  underperformingPositions : nat;
  totalPotentialGain : Q;
  recommendations : list RebalancingRecommendation.t;
  lastAnalysis : Date;
}.
End RebalancingAnalysis.

Definition conservative : RebalancingStrategy.t :=
  RebalancingStrategy.mk "conservative" "Conservative Growth"
    "Focus on stable yields with minimal impermanent loss risk"
    5 2 low 10 false.

Definition balanced : RebalancingStrategy.t :=
  RebalancingStrategy.mk "balanced" "Balanced Optimization"
    "Balance between yield and risk for steady growth"
    8 5 medium 15 false.

Definition aggressive : RebalancingStrategy.t :=
  RebalancingStrategy.mk "aggressive" "Aggressive Yield"
    "Maximize yields with higher risk tolerance"
    15 10 high 20 false.

Definition DEFAULT_STRATEGIES : list RebalancingStrategy.t :=
  [conservative; balanced; aggressive].

Module RebalancingEngine.

Import RebalancingStrategy RebalancingRecommendation.

(** The engine object: its three private fields. *)
Record t : Type := mk {
  strategy : RebalancingStrategy.t;
  positions : list LPPosition.t;
  availablePools : list PoolData.t;
}.

Definition constructor (s : RebalancingStrategy.t) : t := mk s [] [].

Definition isRiskTooHigh (riskScore : Q) (tolerance : Level) : bool :=
  match tolerance with
  | low => JS.gtb riskScore 40
  | medium => JS.gtb riskScore 60
  | high => JS.gtb riskScore 80
  end.

Definition isRiskAcceptable (riskScore : Q) (tolerance : Level) : bool :=
  negb (isRiskTooHigh riskScore tolerance).

Definition estimateTransactionCost (position : LPPosition.t) : Q := 50.

(** [now] is the reading of [Date.now()]. *)
Definition estimateImpermanentLoss (now : Date) (position : LPPosition.t) : Q :=
  let daysSinceDeposit :=
    JS.Math_floor
      (inject_Z (now - LPPosition.depositTimestamp position)
       / (1000 * 60 * 60 * 24)) in
  JS.Math_min (inject_Z daysSinceDeposit * 0.1) 15.

Definition calculatePotentialGain
    (position : LPPosition.t) (currentPool newPool : PoolData.t) : Q :=
  let currentValue := LPPosition.currentValue position in
  let apyDifference := PoolData.apy newPool - PoolData.apy currentPool in
  (currentValue * apyDifference) / 100.

Definition sameTokens (position : LPPosition.t) (pool : PoolData.t) : bool :=
  (JS.includes (PoolData.pair pool) (LPPosition.token0 position)
   && JS.includes (PoolData.pair pool) (LPPosition.token1 position))
  || (JS.includes (PoolData.pair pool) (LPPosition.token1 position)
      && JS.includes (PoolData.pair pool) (LPPosition.token0 position)).

(** [candidatePools.reduce((best, current) => ..., null)] with the score
    each search prefers. *)
Definition pickBest (score : PoolData.t -> Q)
    (candidatePools : list PoolData.t) : option PoolData.t :=
  fold_left
    (fun best current =>
       match best with
       | None => Some current
       | Some b =>
           if JS.gtb (score current) (score b) then Some current else Some b
       end)
    candidatePools None.

Definition betterCandidate (self : t) (position : LPPosition.t)
    (currentPool pool : PoolData.t) : bool :=
  let betterAPY :=
    JS.gtb (PoolData.apy pool) (PoolData.apy currentPool * 1.1) in
  let acceptableRisk :=
    isRiskAcceptable (PoolData.riskScore pool) (riskTolerance (strategy self)) in
  sameTokens position pool && betterAPY && acceptableRisk.

Definition findBetterPool (self : t) (position : LPPosition.t)
    (currentPool : PoolData.t) : option PoolData.t :=
  let candidatePools :=
    List.filter (betterCandidate self position currentPool) (availablePools self) in
  pickBest
    (fun p => PoolData.apy p - PoolData.riskScore p * 0.1)
    candidatePools.

Definition saferCandidate (position : LPPosition.t)
    (currentPool pool : PoolData.t) : bool :=
  let lowerRisk :=
    JS.ltb (PoolData.riskScore pool) (PoolData.riskScore currentPool * 0.8) in
  let reasonableAPY :=
    JS.gtb (PoolData.apy pool) (PoolData.apy currentPool * 0.7) in
  sameTokens position pool && lowerRisk && reasonableAPY.

Definition findSaferPool (self : t) (position : LPPosition.t)
    (currentPool : PoolData.t) : option PoolData.t :=
  let candidatePools :=
    List.filter (saferCandidate position currentPool) (availablePools self) in
  pickBest (fun p => PoolData.apy p - PoolData.riskScore p) candidatePools.

(** "Position is performing well". *)
Definition holdRecommendation (position : LPPosition.t) (currentAPY : Q)
  : RebalancingRecommendation.t :=
  {| positionId := LPPosition.positionId position;
     action := hold;
     reason := ReasonWithinParameters currentAPY;
     urgency := low;
     expectedGain := None; riskReduction := None;
     newPool := None; estimatedCost := None |}.

(** [evaluatePosition] is a sequence of guarded [return]s; each guard is
    embedded as a partial recommendation ([None]: fall through to the next
    statement). *)

(** "Check for high-risk situations (immediate action needed)". *)
Definition checkHighRisk (self : t) (position : LPPosition.t)
    (impermanentLoss : Q) : option RebalancingRecommendation.t :=
  let maxImpermanentLoss := maxImpermanentLoss (strategy self) in
  if JS.gtb impermanentLoss (maxImpermanentLoss * 2) then
    Some {| positionId := LPPosition.positionId position;
            action := exit;
            reason := ReasonExceedsMaximum impermanentLoss;
            urgency := high;
            expectedGain := None;
            riskReduction := Some impermanentLoss;
            newPool := None;
            estimatedCost := Some (estimateTransactionCost position) |}
  else None.

(** "Check for underperformance". *)
Definition checkUnderperformance (self : t) (position : LPPosition.t)
    (currentPool : PoolData.t) (currentAPY : Q)
  : option RebalancingRecommendation.t :=
  let targetAPY := targetAPY (strategy self) in
  let rebalanceThreshold := rebalanceThreshold (strategy self) in
  if JS.ltb currentAPY (targetAPY * 0.7) then
    match findBetterPool self position currentPool with
    | Some betterPool =>
        let potentialGain :=
          calculatePotentialGain position currentPool betterPool in
        Some {| positionId := LPPosition.positionId position;
                action := rebalance;
                reason := ReasonBelowTarget currentAPY;
                urgency :=
                  if JS.gtb potentialGain rebalanceThreshold
                  then high else medium;
                expectedGain := Some potentialGain;
                riskReduction := None;
                newPool := Some betterPool;
                estimatedCost := Some (estimateTransactionCost position) |}
    | None => None
    end
  else None.

(** "Check risk tolerance". *)
Definition checkRiskTolerance (self : t) (position : LPPosition.t)
    (currentPool : PoolData.t) (riskScore : Q)
  : option RebalancingRecommendation.t :=
  let riskTolerance := riskTolerance (strategy self) in
  if isRiskTooHigh riskScore riskTolerance then
    match findSaferPool self position currentPool with
    | Some saferPool =>
        Some {| positionId := LPPosition.positionId position;
                action := adjust;
                reason := ReasonRiskExceedsTolerance riskScore riskTolerance;
                urgency := medium;
                expectedGain := None;
                riskReduction := Some (riskScore - PoolData.riskScore saferPool);
                newPool := Some saferPool;
                estimatedCost := Some (estimateTransactionCost position) |}
    | None => None
    end
  else None.

(** "Check for moderate impermanent loss". *)
Definition checkModerateLoss (self : t) (position : LPPosition.t)
    (impermanentLoss : Q) : option RebalancingRecommendation.t :=
  let maxImpermanentLoss := maxImpermanentLoss (strategy self) in
  if JS.gtb impermanentLoss maxImpermanentLoss then
    Some {| positionId := LPPosition.positionId position;
            action := adjust;
            reason := ReasonApproachingMaximum impermanentLoss;
            urgency := medium;
            expectedGain := None;
            riskReduction := Some (impermanentLoss - maxImpermanentLoss);
            newPool := None;
            estimatedCost := Some (estimateTransactionCost position) |}
  else None.

(** The first guard that fires returns. *)
Fixpoint firstReturn (checks : list (option RebalancingRecommendation.t))
    (otherwise : RebalancingRecommendation.t) : RebalancingRecommendation.t :=
  match checks with
  | [] => otherwise
  | Some r :: _ => r
  | None :: rest => firstReturn rest otherwise
  end.

Definition evaluatePosition (self : t) (position : LPPosition.t)
    (currentPool : PoolData.t) (currentAPY impermanentLoss riskScore : Q)
  : RebalancingRecommendation.t :=
  firstReturn
    [ checkHighRisk self position impermanentLoss;
      checkUnderperformance self position currentPool currentAPY;
      checkRiskTolerance self position currentPool riskScore;
      checkModerateLoss self position impermanentLoss ]
    (holdRecommendation position currentAPY).

(** The pool a position currently sits in: the first available pool whose
    pair is [`${token0}/${token1}`] or [`${token1}/${token0}`]. *)
Definition isCurrentPool (position : LPPosition.t) (pool : PoolData.t) : bool :=
  String.eqb (PoolData.pair pool)
    (LPPosition.token0 position +:+ "/" +:+ LPPosition.token1 position)
  || String.eqb (PoolData.pair pool)
       (LPPosition.token1 position +:+ "/" +:+ LPPosition.token0 position).

(** [null] is [None].  Nothing in the [try] block throws on numbers and
    strings, so its [catch] never runs. *)
Definition analyzePosition (self : t) (now : Date) (position : LPPosition.t)
  : option RebalancingRecommendation.t :=
  match find (isCurrentPool position) (availablePools self) with
  | None => None
  | Some currentPool =>
      let currentAPY := PoolData.apy currentPool in
      let estimatedIL := estimateImpermanentLoss now position in
      let riskScore := PoolData.riskScore currentPool in
      Some (evaluatePosition self position currentPool
              currentAPY estimatedIL riskScore)
  end.

(** The local variables of the loop of [analyzePositions]. *)
Record Totals : Type := mkTotals {
  recommendations : list RebalancingRecommendation.t;
  positionsAtRisk : nat;
  underperformingPositions : nat;
  totalPotentialGain : Q;
}.

Definition noTotals : Totals := mkTotals [] 0 0 0.

(** What one recommendation adds to the totals. *)
Definition record (acc : Totals) (analysis : RebalancingRecommendation.t)
  : Totals :=
  {| recommendations := recommendations acc ++ [analysis];
     positionsAtRisk :=
       if Level_eqb (urgency analysis) high
       then S (positionsAtRisk acc) else positionsAtRisk acc;
     underperformingPositions :=
       if Action_eqb (action analysis) rebalance
          || Action_eqb (action analysis) exit
       then S (underperformingPositions acc)
       else underperformingPositions acc;
     totalPotentialGain :=
       match expectedGain analysis with
       | Some g =>
           if JS.truthy g then totalPotentialGain acc + g
           else totalPotentialGain acc
       | None => totalPotentialGain acc
       end |}.

(** One iteration of [for (const position of this.positions)]. *)
Definition analyzeStep (self : t) (now : Date) (acc : Totals)
    (position : LPPosition.t) : Totals :=
  match analyzePosition self now position with
  | Some analysis => record acc analysis
  | None => acc
  end.

(** [analyzePositions]: [fetchedPositions] and [fetchedPools] are what the
    two awaited fetches returned (both return [[]] on failure rather than
    throw); the engine with its fields assigned is returned with the
    analysis.  The run reads the clock as [now]. *)
Definition analyzePositions (self : t) (now : Date)
    (fetchedPositions : list LPPosition.t) (fetchedPools : list PoolData.t)
  : t * RebalancingAnalysis.t :=
  let self' := mk (strategy self) fetchedPositions fetchedPools in
  let acc := fold_left (analyzeStep self' now) (positions self') noTotals in
  (self',
   {| RebalancingAnalysis.totalPositions := length (positions self');
      RebalancingAnalysis.positionsAtRisk := positionsAtRisk acc;
      RebalancingAnalysis.underperformingPositions := underperformingPositions acc;
      RebalancingAnalysis.totalPotentialGain := totalPotentialGain acc;
      RebalancingAnalysis.recommendations := recommendations acc;
      RebalancingAnalysis.lastAnalysis := now |}).

End RebalancingEngine.

(** [createCustomStrategy]; [now] is the reading of [Date.now()] and
    [numberToString] the rendering of a number inside a template literal.
    The two numbers are stored as they come, [NaN] included. *)
Definition createCustomStrategy (numberToString : JS.number -> string)
    (now : Date) (name : string) (targetAPY maxImpermanentLoss : JS.number)
    (riskTolerance : Level)
  : RebalancingStrategy.record JS.number :=
  {| RebalancingStrategy.id := "custom-" +:+ JS.string_of_integer now;
     RebalancingStrategy.name := name;
     RebalancingStrategy.description :=
       "Custom strategy targeting " +:+ numberToString targetAPY
       +:+ "% APY with " +:+ numberToString maxImpermanentLoss +:+ "% max IL";
     RebalancingStrategy.targetAPY := targetAPY;
     RebalancingStrategy.maxImpermanentLoss := maxImpermanentLoss;
     RebalancingStrategy.riskTolerance := riskTolerance;
     RebalancingStrategy.rebalanceThreshold :=
       JS.Num (match riskTolerance with low => 10 | medium => 15 | high => 20 end);
     RebalancingStrategy.enabled := false |}.

Definition targetAPY_message : string :=
  "Target APY must be between 0% and 100%".
Definition maxImpermanentLoss_message : string :=
  "Max impermanent loss must be between 0% and 50%".
Definition rebalanceThreshold_message : string :=
  "Rebalance threshold must be between 5% and 50%".

(** [errors.push(msg)] when [cond] holds. *)
Definition pushIf (cond : bool) (msg : string) (errors : list string)
  : list string :=
  if cond then errors ++ [msg] else errors.

(** Each rule is [x < lo || x > hi]; both comparisons are false for
    [NaN]. *)
Definition validateStrategy (strategy : RebalancingStrategy.record JS.number)
  : list string :=
  let errors := [] in
  let errors :=
    pushIf (JS.nltb (RebalancingStrategy.targetAPY strategy) (JS.Num 0)
            || JS.ngtb (RebalancingStrategy.targetAPY strategy) (JS.Num 100))
      targetAPY_message errors in
  let errors :=
    pushIf (JS.nltb (RebalancingStrategy.maxImpermanentLoss strategy) (JS.Num 0)
            || JS.ngtb (RebalancingStrategy.maxImpermanentLoss strategy) (JS.Num 50))
      maxImpermanentLoss_message errors in
  let errors :=
    pushIf (JS.nltb (RebalancingStrategy.rebalanceThreshold strategy) (JS.Num 5)
            || JS.ngtb (RebalancingStrategy.rebalanceThreshold strategy) (JS.Num 50))
      rebalanceThreshold_message errors in
  errors.

(* ------------------------------------------------------------------ *)
(** ** [src/lib/utils.ts] *)

(** [calculateImpermanentLoss] takes a square root, so it has no rational
    embedding.  It is embedded over binary64 floats, operation for
    operation as the program runs it ([Math.sqrt] and the four operations
    are correctly rounded).  The default value [1] of [initialRatio] is
    passed explicitly. *)

Module Binary64.
Import Floats.
Local Open Scope float_scope.

Definition calculateImpermanentLoss (priceRatio initialRatio : float) : float :=
  let ratio := priceRatio / initialRatio in
  let il := (2 * sqrt ratio) / (1 + ratio) - 1 in
  abs il * 100.

(** The arithmetic of [spread] in [FarcasterFrame.tsx], on the best and
    the worst rate, and of [calculateConcentrationRisk], on the largest
    position value and the total value. *)
Definition spread (bestRate worstRate : float) : float :=
  (bestRate - worstRate) / worstRate * 100.

Definition calculateConcentrationRisk (maxPosition totalValue : float) : float :=
  maxPosition / totalValue * 100.

(** A positive finite number. *)
Definition positive (x : float) : Prop :=
  (0 <? x) = true /\ (x <? infinity) = true.

(** A number that is not negative, [Infinity] included. *)
Definition nonnegative (x : float) : Prop :=
  is_nan x = false /\ (0 <=? x) = true.

(** A number from 0 to 100. *)
Definition percentage (x : float) : Prop :=
  (0 <=? x) = true /\ (x <=? 100) = true.

End Binary64.

(** The same formula on the specification of binary64 ([SpecFloat]), which
    the operations of the kernel's floats follow ([mul_spec], [div_spec],
    [sqrt_spec], ...), from the ratio on, with the vocabulary in which its
    range is stated: the value [m * 2^e] of a mantissa and an exponent, and
    three ranges of a specification float. *)
Module Binary64Spec.
Import Floats.
Local Open Scope Z_scope.

Definition pow2 (e : Z) : Q := (2 ^ e)%Q.
Definition val (m e : Z) : Q := (inject_Z m * pow2 e)%Q.

(** Whether shifting right has lost a bit. *)
Definition inexact (mrs : shr_record) : bool := shr_r mrs || shr_s mrs.

(** Non-negative and at most [b * 2^c]. *)
Definition at_most (b c : Z) (x : spec_float) : Prop :=
  match x with
  | S754_zero false => True
  | S754_finite false m e => (val (Z.pos m) e <= val b c)%Q
  | _ => False
  end.

(** Of either sign, with a magnitude of at most [b * 2^c]. *)
Definition magnitude_at_most (b c : Z) (x : spec_float) : Prop :=
  match x with
  | S754_zero _ => True
  | S754_finite _ m e => (val (Z.pos m) e <= val b c)%Q
  | _ => False
  end.

(** Positive and at least [2^j], possibly infinite. *)
Definition at_least (j : Z) (x : spec_float) : Prop :=
  match x with
  | S754_infinity false => True
  | S754_finite false m e => (pow2 j <= val (Z.pos m) e)%Q
  | _ => False
  end.

(** A sign bit that is clear, on a number or an infinity. *)
Definition not_negative (x : spec_float) : Prop :=
  match x with
  | S754_zero s | S754_infinity s | S754_finite s _ _ => s = false
  | S754_nan => False
  end.

(** The literals [1], [2] and [100]. *)
Definition one : spec_float := S754_finite false 4503599627370496 (-52).
Definition two : spec_float := S754_finite false 4503599627370496 (-51).
Definition hundred : spec_float := S754_finite false 7036874417766400 (-46).

Definition lossOfRatio (ratio : spec_float) : spec_float :=
  SFmul prec emax
    (SFabs
       (SFsub prec emax
          (SFdiv prec emax (SFmul prec emax two (SFsqrt prec emax ratio))
             (SFadd prec emax one ratio))
          one))
    hundred.

End Binary64Spec.

(* ------------------------------------------------------------------ *)
(** ** [config.risk] *)

Module config.

Definition liquidityThreshold : Q := 100000.

Module protocolRiskWeights.
Definition smartContract : Q := 0.3.
Definition liquidity : Q := 0.25.
Definition impermanentLoss : Q := 0.25.
Definition protocol : Q := 0.2.
End protocolRiskWeights.

End config.

(* ------------------------------------------------------------------ *)
(** ** The pool-level [RiskAssessmentEngine] (fixed protocol table)

    Its [PoolData] is the hook's: the record above with three optional
    address strings that the engine never reads.  Its arithmetic is carried
    out on [JS.number] because [pool.volume24h / pool.tvl] and the weights
    [pool.tvl / totalTvl] divide by input values.  An object literal used
    as a table is a finite map on the keys written in it. *)

Module ProtocolRiskData.
Record t : Type := mk {
  name : string;
  auditScore : Q;
  tvlHistory : list Q;
  exploitHistory : Q;
  timeInMarket : Q;
}.
End ProtocolRiskData.

Definition protocolRiskDatabase : gmap string ProtocolRiskData.t :=
  {[ "Uniswap V3" :=
       ProtocolRiskData.mk "Uniswap V3" 95 [1000000000; 1100000000; 1200000000] 0 1200;
     "Aerodrome" :=
       ProtocolRiskData.mk "Aerodrome" 85 [100000000; 150000000; 200000000] 0 365;
     "BaseSwap" :=
       ProtocolRiskData.mk "BaseSwap" 70 [50000000; 45000000; 40000000] 1 180;
     "SushiSwap" :=
       ProtocolRiskData.mk "SushiSwap" 80 [500000000; 480000000; 520000000] 2 1400 ]}.

(** [protocolRiskDatabase[protocol]].  The table is a plain object, so a
    name that is not one of its own keys is looked up in
    [Object.prototype], whose property names are listed below
    (ECMAScript, with Annex B).  What is found there is a built-in function
    ([Object.prototype] itself for [__proto__]): truthy, and without any of
    the fields of [ProtocolRiskData]. *)
Definition objectPrototypeKeys : list string :=
  [ "constructor"; "__defineGetter__"; "__defineSetter__"; "hasOwnProperty";
    "__lookupGetter__"; "__lookupSetter__"; "isPrototypeOf";
    "propertyIsEnumerable"; "toString"; "valueOf"; "__proto__";
    "toLocaleString" ].

Inductive Property (A : Type) : Type :=
| OwnProperty (value : A)
| InheritedProperty
| NoProperty.

Arguments OwnProperty {A} value.
Arguments InheritedProperty {A}.
Arguments NoProperty {A}.

Definition getProtocolData (protocol : string) : Property ProtocolRiskData.t :=
  match protocolRiskDatabase !! protocol with
  | Some protocolData => OwnProperty protocolData
  | None =>
      if existsb (String.eqb protocol) objectPrototypeKeys
      then InheritedProperty
      else NoProperty
  end.

(** [protocolData.field] as a number: [undefined], which arithmetic turns
    into [NaN], when [protocolData] is not an entry of the table. *)
Definition numberField (field : ProtocolRiskData.t -> Q)
    (protocolData : Property ProtocolRiskData.t) : JS.number :=
  match protocolData with
  | OwnProperty d => JS.Num (field d)
  | _ => JS.NaN
  end.

Module RiskFactors.
Record t : Type := mk {
  smartContract : JS.number;
  liquidity : JS.number;
  impermanentLoss : JS.number;
  protocol : JS.number;
}.
End RiskFactors.

Module RiskAssessment.
Record t : Type := mk {
  overall : JS.number;
  impermanentLoss : JS.number;
  smartContract : JS.number;
  liquidity : JS.number;
  protocol : JS.number;
  factors : RiskFactors.t;
  recommendations : list string;
}.
End RiskAssessment.

Module PoolRiskEngine.

Import JS.

(** [private weights = config.risk.protocolRiskWeights]. *)
Module weights.
Definition smartContract : Q := config.protocolRiskWeights.smartContract.
Definition liquidity : Q := config.protocolRiskWeights.liquidity.
Definition impermanentLoss : Q := config.protocolRiskWeights.impermanentLoss.
Definition protocol : Q := config.protocolRiskWeights.protocol.
End weights.

Definition calculateSmartContractRisk (protocol : string) : number :=
  match getProtocolData protocol with
  | NoProperty => Num 70
  | protocolData =>
      let risk := Num 0 in
      let auditRisk :=
        mul (max2 (Num 0)
               (sub (Num 100) (numberField ProtocolRiskData.auditScore protocolData)))
            (Num 0.4) in
      let risk := add risk auditRisk in
      let exploitRisk :=
        min2 (Num 30)
          (mul (numberField ProtocolRiskData.exploitHistory protocolData) (Num 15)) in
      let risk := add risk exploitRisk in
      let timeRisk :=
        max2 (Num 0)
          (sub (Num 30)
             (mul (div (numberField ProtocolRiskData.timeInMarket protocolData)
                       (Num 365))
                  (Num 10))) in
      let risk := add risk timeRisk in
      min2 (Num 100) risk
  end.

Definition calculateLiquidityRisk (pool : PoolData.t) : number :=
  let risk := Num 0 in
  let risk :=
    if ltb (PoolData.tvl pool) config.liquidityThreshold then
      let tvlRatio := PoolData.tvl pool / config.liquidityThreshold in
      add risk (Num ((1 - tvlRatio) * 50))
    else risk in
  let volumeToTvlRatio := div (Num (PoolData.volume24h pool)) (Num (PoolData.tvl pool)) in
  let risk :=
    if ngtb (Num 0.1) volumeToTvlRatio then
      add risk (mul (sub (Num 0.1) volumeToTvlRatio) (Num 300))
    else risk in
  let risk := add risk (Num 10) in
  min2 (Num 100) risk.

Definition calculateImpermanentLossRisk (pool : PoolData.t) : number :=
  let pair := toLowerCase (PoolData.pair pool) in
  let risk :=
    if includes pair "eth" && includes pair "usdc" then 35
    else if includes pair "usdc" && includes pair "usdt" then 5
    else if includes pair "btc" && includes pair "eth" then 60
    else 70 in
  let risk :=
    if gtb (PoolData.apy pool) 20 then risk + 15
    else if gtb (PoolData.apy pool) 10 then risk + 5
    else risk in
  Num (Math_min 100 risk).

(** [tvlHistory[tvlHistory.length - k]] for [k = 1, 2] when both exist. *)
Definition lastTwo (tvlHistory : list Q) : option (Q * Q) :=
  match rev tvlHistory with
  | last :: previous :: _ => Some (previous, last)
  | _ => None
  end.

(** [None] is the [TypeError] of [tvlHistory.length] when [tvlHistory] is
    [undefined]. *)
Definition calculateProtocolRisk (protocol : string) : option number :=
  match getProtocolData protocol with
  | NoProperty => Some (Num 60)
  | InheritedProperty => None
  | OwnProperty protocolData =>
      let risk := 0 in
      let risk :=
        match lastTwo (ProtocolRiskData.tvlHistory protocolData) with
        | Some (previous, last) =>
            let recentTrend := div (Num last) (Num previous) in
            if ngtb (Num 0.9) recentTrend then risk + 30
            else if ngtb (Num 0.95) recentTrend then risk + 15
            else risk
        | None => risk
        end in
      let risk := risk + 15 in
      let risk := risk + 10 in
      Some (Num (Math_min 100 risk))
  end.

Definition generateRecommendations (assessment : RiskAssessment.t)
    (pool : PoolData.t) : list string :=
  let recommendations := [] in
  let recommendations :=
    pushIf (ngtb (RiskAssessment.overall assessment) (Num 70))
      "⚠️ High risk position - consider reducing exposure" recommendations in
  let recommendations :=
    pushIf (ngtb (RiskAssessment.liquidity assessment) (Num 60))
      "💧 Low liquidity detected - monitor for slippage risks" recommendations in
  let recommendations :=
    pushIf (ngtb (RiskAssessment.impermanentLoss assessment) (Num 50))
      "📉 High impermanent loss risk - consider stable pairs" recommendations in
  let recommendations :=
    pushIf (ngtb (RiskAssessment.smartContract assessment) (Num 60))
      "🔒 Smart contract risks detected - verify protocol audits" recommendations in
  let recommendations :=
    pushIf (ngtb (RiskAssessment.protocol assessment) (Num 50))
      "🏛️ Protocol risks present - diversify across multiple protocols"
      recommendations in
  let recommendations :=
    pushIf (gtb (PoolData.apy pool) 15)
      "🎯 High APY may indicate elevated risks - proceed with caution"
      recommendations in
  pushIf (Nat.eqb (length recommendations) 0)
    "✅ Risk levels appear manageable for this position" recommendations.

(** The weighted sum both assessments compute from four factor scores. *)
Definition weightedOverall (smartContract liquidity impermanentLoss protocol : number)
  : number :=
  add (add (add (mul smartContract (Num weights.smartContract))
                (mul liquidity (Num weights.liquidity)))
           (mul impermanentLoss (Num weights.impermanentLoss)))
      (mul protocol (Num weights.protocol)).

(** The [factors] of [assessPool]: the four scores are computed in this
    order, and the last one can throw. *)
Definition poolFactors (pool : PoolData.t) : option RiskFactors.t :=
  let smartContract := calculateSmartContractRisk (PoolData.protocol pool) in
  let liquidity := calculateLiquidityRisk pool in
  let impermanentLoss := calculateImpermanentLossRisk pool in
  match calculateProtocolRisk (PoolData.protocol pool) with
  | Some protocol =>
      Some {| RiskFactors.smartContract := smartContract;
              RiskFactors.liquidity := liquidity;
              RiskFactors.impermanentLoss := impermanentLoss;
              RiskFactors.protocol := protocol |}
  | None => None
  end.

(** [assessPool] from the factors on. *)
Definition assessFactors (factors : RiskFactors.t) (pool : PoolData.t)
  : RiskAssessment.t :=
  let overall :=
    weightedOverall (RiskFactors.smartContract factors)
      (RiskFactors.liquidity factors)
      (RiskFactors.impermanentLoss factors)
      (RiskFactors.protocol factors) in
  let assessment :=
    {| RiskAssessment.overall := round overall;
       RiskAssessment.impermanentLoss := round (RiskFactors.impermanentLoss factors);
       RiskAssessment.smartContract := round (RiskFactors.smartContract factors);
       RiskAssessment.liquidity := round (RiskFactors.liquidity factors);
       RiskAssessment.protocol := round (RiskFactors.protocol factors);
       RiskAssessment.factors := factors;
       RiskAssessment.recommendations := [] |} in
  {| RiskAssessment.overall := RiskAssessment.overall assessment;
     RiskAssessment.impermanentLoss := RiskAssessment.impermanentLoss assessment;
     RiskAssessment.smartContract := RiskAssessment.smartContract assessment;
     RiskAssessment.liquidity := RiskAssessment.liquidity assessment;
     RiskAssessment.protocol := RiskAssessment.protocol assessment;
     RiskAssessment.factors := RiskAssessment.factors assessment;
     RiskAssessment.recommendations := generateRecommendations assessment pool |}.

(** [None] is a thrown [TypeError]. *)
Definition assessPool (pool : PoolData.t) : option RiskAssessment.t :=
  match poolFactors pool with
  | Some factors => Some (assessFactors factors pool)
  | None => None
  end.

Definition noPositions : RiskAssessment.t :=
  {| RiskAssessment.overall := Num 0;
     RiskAssessment.impermanentLoss := Num 0;
     RiskAssessment.smartContract := Num 0;
     RiskAssessment.liquidity := Num 0;
     RiskAssessment.protocol := Num 0;
     RiskAssessment.factors := RiskFactors.mk (Num 0) (Num 0) (Num 0) (Num 0);
     RiskAssessment.recommendations := ["No positions to assess"] |}.

(** [array.reduce(f, init)] and [array.filter(p)] with a callback that can
    throw: the first throw ends the loop. *)
Fixpoint reduceThrowing {A B : Type} (f : B -> A -> option B) (l : list A)
    (acc : B) : option B :=
  match l with
  | [] => Some acc
  | x :: rest =>
      match f acc x with
      | Some acc' => reduceThrowing f rest acc'
      | None => None
      end
  end.

Fixpoint filterThrowing {A : Type} (p : A -> option bool) (l : list A)
  : option (list A) :=
  match l with
  | [] => Some []
  | x :: rest =>
      match p x with
      | Some keep =>
          match filterThrowing p rest with
          | Some kept => Some (if keep then x :: kept else kept)
          | None => None
          end
      | None => None
      end
  end.

(** What one pool's assessment adds to the TVL-weighted factors. *)
Definition addWeighted (weight : number) (acc : RiskFactors.t)
    (poolAssessment : RiskAssessment.t) : RiskFactors.t :=
  {| RiskFactors.smartContract :=
       add (RiskFactors.smartContract acc)
           (mul (RiskAssessment.smartContract poolAssessment) weight);
     RiskFactors.liquidity :=
       add (RiskFactors.liquidity acc)
           (mul (RiskAssessment.liquidity poolAssessment) weight);
     RiskFactors.impermanentLoss :=
       add (RiskFactors.impermanentLoss acc)
           (mul (RiskAssessment.impermanentLoss poolAssessment) weight);
     RiskFactors.protocol :=
       add (RiskFactors.protocol acc)
           (mul (RiskAssessment.protocol poolAssessment) weight) |}.

(** One step of the [reduce] that accumulates the TVL-weighted factors. *)
Definition accumulate (totalTvl : number) (acc : RiskFactors.t)
    (pool : PoolData.t) : option RiskFactors.t :=
  let weight := div (Num (PoolData.tvl pool)) totalTvl in
  match assessPool pool with
  | Some poolAssessment => Some (addWeighted weight acc poolAssessment)
  | None => None
  end.

(** [this.assessPool(p).overall > 70]. *)
Definition isHighRisk (p : PoolData.t) : option bool :=
  match assessPool p with
  | Some poolAssessment => Some (ngtb (RiskAssessment.overall poolAssessment) (Num 70))
  | None => None
  end.

Definition assessPortfolio (pools : list PoolData.t) : option RiskAssessment.t :=
  if Nat.eqb (length pools) 0 then Some noPositions
  else
    let totalTvl :=
      fold_left (fun sum pool => add sum (Num (PoolData.tvl pool))) pools (Num 0) in
    match reduceThrowing (accumulate totalTvl) pools
            (RiskFactors.mk (Num 0) (Num 0) (Num 0) (Num 0)) with
    | None => None
    | Some weightedFactors =>
        let overall :=
          weightedOverall (RiskFactors.smartContract weightedFactors)
            (RiskFactors.liquidity weightedFactors)
            (RiskFactors.impermanentLoss weightedFactors)
            (RiskFactors.protocol weightedFactors) in
        let portfolioRecommendations := [] in
        let portfolioRecommendations :=
          pushIf (Nat.ltb (length pools) 3)
            "🔄 Consider diversifying across more protocols"
            portfolioRecommendations in
        let protocolCount :=
          size (list_to_set (map PoolData.protocol pools) : gset string) in
        let portfolioRecommendations :=
          pushIf (Nat.eqb protocolCount 1)
            "⚖️ All positions on single protocol - consider diversification"
            portfolioRecommendations in
        match filterThrowing isHighRisk pools with
        | None => None
        | Some highRiskPools =>
            let portfolioRecommendations :=
              pushIf (Nat.ltb 0 (length highRiskPools))
                ("⚠️ " +:+ string_of_integer (Z.of_nat (length highRiskPools))
                 +:+ " high-risk position(s) detected")
                portfolioRecommendations in
            Some
              {| RiskAssessment.overall := round overall;
                 RiskAssessment.impermanentLoss :=
                   round (RiskFactors.impermanentLoss weightedFactors);
                 RiskAssessment.smartContract :=
                   round (RiskFactors.smartContract weightedFactors);
                 RiskAssessment.liquidity :=
                   round (RiskFactors.liquidity weightedFactors);
                 RiskAssessment.protocol :=
                   round (RiskFactors.protocol weightedFactors);
                 RiskAssessment.factors := weightedFactors;
                 RiskAssessment.recommendations := portfolioRecommendations |}
        end
    end.

End PoolRiskEngine.

(* ------------------------------------------------------------------ *)
(** ** The position-level [RiskAssessmentEngine] (weighted factor list)

    Its portfolio metrics are embedded in full.  [assessPosition], whose
    factor scores take a square root and read the clock, is a parameter of
    the aggregation: the metrics read only the [overall] and [liquidity]
    fields of what it returns. *)

Module DetailedRiskAssessment.
Record t : Type := mk {
  overall : JS.number;
  impermanentLoss : JS.number;
  smartContract : JS.number;
  liquidity : JS.number;
  protocol : JS.number;
}.
End DetailedRiskAssessment.

Module PortfolioRiskMetrics.
Record t : Type := mk {
  totalRisk : JS.number;
  diversificationScore : JS.number;
  concentrationRisk : JS.number;
  liquidityRisk : JS.number;
  protocolRisk : JS.number;
  marketRisk : JS.number;
  riskAdjustedReturn : JS.number;
  sharpeRatio : JS.number;
  maxDrawdown : JS.number;
  valueAtRisk : JS.number;
}.
End PortfolioRiskMetrics.

Module PositionRiskEngine.

Import JS.

(** [positions.reduce((sum, p) => sum + p.currentValue, 0)]. *)
Definition totalValue (positions : list LPPosition.t) : Q :=
  fold_left (fun sum p => sum + LPPosition.currentValue p) positions 0.

Definition calculatePortfolioReturn
    (positions : list LPPosition.t) (poolsData : list PoolData.t) : Q := 12.

Definition calculatePortfolioVolatility
    (positions : list LPPosition.t) (poolsData : list PoolData.t) : Q := 25.

Definition calculateDiversificationBenefit (positions : list LPPosition.t) : Q :=
  if (length positions <=? 1)%nat then 0
  else Math_min 0.3 (inject_Z (Z.of_nat (length positions)) * 0.05).

(** [assessments.reduce((sum, assessment, index) => ...)] reads
    [positions[index]]; the assessments are a filtered image of the
    positions, so the index is always in range and the two lists are
    walked together. *)
Definition calculatePortfolioRisk
    (assessments : list DetailedRiskAssessment.t)
    (positions : list LPPosition.t) : number :=
  if Nat.eqb (length assessments) 0 then Num 0
  else
    let totalValue := totalValue positions in
    let weightedRisk :=
      fold_left
        (fun sum '(assessment, position) =>
           let weight :=
             div (Num (LPPosition.currentValue position)) (Num totalValue) in
           add sum (mul (DetailedRiskAssessment.overall assessment) weight))
        (combine assessments positions) (Num 0) in
    let diversificationBenefit := calculateDiversificationBenefit positions in
    max2 (Num 0) (mul weightedRisk (Num (1 - diversificationBenefit))).

Definition calculateSizeDiversity (positions : list LPPosition.t) : number :=
  let totalValue := totalValue positions in
  let weights :=
    map (fun p => div (Num (LPPosition.currentValue p)) (Num totalValue))
      positions in
  let hhi := fold_left (fun sum weight => add sum (mul weight weight)) weights (Num 0) in
  max2 (Num 0) (mul (sub (Num 1) hhi) (Num 100)).

(** [new Set(positions.map(p => p.protocol))]. *)
Definition protocolSet (positions : list LPPosition.t) : gset string :=
  list_to_set (map LPPosition.protocol positions).

(** [new Set(positions.flatMap(p => [p.token0, p.token1]))]. *)
Definition tokenSet (positions : list LPPosition.t) : gset string :=
  list_to_set
    (flat_map (fun p => [LPPosition.token0 p; LPPosition.token1 p]) positions).

Definition protocolDiversity (positions : list LPPosition.t) : Q :=
  Math_min 100 ((inject_Z (Z.of_nat (size (protocolSet positions))) / 5) * 100).

Definition tokenDiversity (positions : list LPPosition.t) : Q :=
  Math_min 100 ((inject_Z (Z.of_nat (size (tokenSet positions))) / 10) * 100).

Definition calculateDiversificationScore (positions : list LPPosition.t) : number :=
  if (length positions <=? 1)%nat then Num 0
  else
    let sizeDiversity := calculateSizeDiversity positions in
    add (Num (protocolDiversity positions * 0.4 + tokenDiversity positions * 0.4))
        (mul sizeDiversity (Num 0.2)).

Definition calculateConcentrationRisk (positions : list LPPosition.t) : number :=
  let totalValue := totalValue positions in
  let maxPosition :=
    Math_max_list (map (fun p => Num (LPPosition.currentValue p)) positions) in
  mul (div maxPosition (Num totalValue)) (Num 100).

(** [assessment.liquidity || 0]. *)
Definition orZero (x : number) : number :=
  match x with
  | NaN => Num 0
  | Num q => if truthy q then x else Num 0
  | _ => x
  end.

Definition calculatePortfolioLiquidityRisk
    (assessments : list DetailedRiskAssessment.t) : number :=
  if Nat.eqb (length assessments) 0 then Num 0
  else
    div (fold_left
           (fun sum assessment =>
              add sum (orZero (DetailedRiskAssessment.liquidity assessment)))
           assessments (Num 0))
        (Num (inject_Z (Z.of_nat (length assessments)))).

(** [counts[position.protocol] = (counts[position.protocol] || 0) + 1]. *)
Definition countProtocol (counts : gmap string Q) (position : LPPosition.t)
  : gmap string Q :=
  <[ LPPosition.protocol position :=
       (default 0 (counts !! LPPosition.protocol position)) + 1 ]> counts.

Definition calculatePortfolioProtocolRisk (positions : list LPPosition.t) : number :=
  let protocolCounts := fold_left countProtocol positions ∅ in
  let totalPositions := inject_Z (Z.of_nat (length positions)) in
  let maxProtocolConcentration :=
    Math_max_list (map (fun kv => Num (snd kv)) (map_to_list protocolCounts)) in
  mul (div maxProtocolConcentration (Num totalPositions)) (Num 100).

Definition calculateMarketRisk
    (positions : list LPPosition.t) (poolsData : list PoolData.t) : number :=
  Num 45.

Definition calculateRiskAdjustedReturn
    (positions : list LPPosition.t) (poolsData : list PoolData.t) : number :=
  let totalReturn := calculatePortfolioReturn positions poolsData in
  let totalRisk := calculatePortfolioVolatility positions poolsData in
  if gtb totalRisk 0 then div (Num totalReturn) (Num totalRisk) else Num 0.

Definition calculateSharpeRatio
    (positions : list LPPosition.t) (poolsData : list PoolData.t) : number :=
  let portfolioReturn := calculatePortfolioReturn positions poolsData in
  let riskFreeRate := 0.05 in
  let portfolioVolatility := calculatePortfolioVolatility positions poolsData in
  if gtb portfolioVolatility 0
  then div (Num (portfolioReturn - riskFreeRate)) (Num portfolioVolatility)
  else Num 0.

Definition calculateMaxDrawdown (positions : list LPPosition.t) : number := Num 15.

Definition calculateValueAtRisk
    (positions : list LPPosition.t) (poolsData : list PoolData.t) : number :=
  let portfolioValue := totalValue positions in
  let portfolioVolatility := calculatePortfolioVolatility positions poolsData in
  Num (portfolioValue * portfolioVolatility * 1.645 / 100).

(** [poolsData.find(p => p.pair.includes(token0) && p.pair.includes(token1))]. *)
Definition matchesPool (position : LPPosition.t) (p : PoolData.t) : bool :=
  includes (PoolData.pair p) (LPPosition.token0 position)
  && includes (PoolData.pair p) (LPPosition.token1 position).

Section Aggregation.

Variable assessPosition : LPPosition.t -> PoolData.t -> DetailedRiskAssessment.t.

(** [null] for a position without pool. *)
Definition positionAssessment (poolsData : list PoolData.t)
    (position : LPPosition.t) : option DetailedRiskAssessment.t :=
  match find (matchesPool position) poolsData with
  | Some poolData => Some (assessPosition position poolData)
  | None => None
  end.

(** [positionAssessments.filter(Boolean)]. *)
Definition validAssessments (positions : list LPPosition.t)
    (poolsData : list PoolData.t) : list DetailedRiskAssessment.t :=
  omap (positionAssessment poolsData) positions.

Definition assessPortfolio (positions : list LPPosition.t)
    (poolsData : list PoolData.t) : PortfolioRiskMetrics.t :=
  let validAssessments := validAssessments positions poolsData in
  {| PortfolioRiskMetrics.totalRisk :=
       calculatePortfolioRisk validAssessments positions;
     PortfolioRiskMetrics.diversificationScore :=
       calculateDiversificationScore positions;
     PortfolioRiskMetrics.concentrationRisk :=
       calculateConcentrationRisk positions;
     PortfolioRiskMetrics.liquidityRisk :=
       calculatePortfolioLiquidityRisk validAssessments;
     PortfolioRiskMetrics.protocolRisk :=
       calculatePortfolioProtocolRisk positions;
     PortfolioRiskMetrics.marketRisk := calculateMarketRisk positions poolsData;
     PortfolioRiskMetrics.riskAdjustedReturn :=
       calculateRiskAdjustedReturn positions poolsData;
     PortfolioRiskMetrics.sharpeRatio := calculateSharpeRatio positions poolsData;
     PortfolioRiskMetrics.maxDrawdown := calculateMaxDrawdown positions;
     PortfolioRiskMetrics.valueAtRisk := calculateValueAtRisk positions poolsData |}.

End Aggregation.

End PositionRiskEngine.

(* ------------------------------------------------------------------ *)
(** ** Vocabulary of the statements and example data *)

(** Recommendations counted by the analysis. *)
Definition isAtRisk (r : RebalancingRecommendation.t) : bool :=
  Level_eqb (RebalancingRecommendation.urgency r) high.

Definition isUnderperforming (r : RebalancingRecommendation.t) : bool :=
  Action_eqb (RebalancingRecommendation.action r) rebalance
  || Action_eqb (RebalancingRecommendation.action r) exit.

(** The gains of a list of recommendations, added up in list order. *)
Definition addGain (total : Q) (r : RebalancingRecommendation.t) : Q :=
  match RebalancingRecommendation.expectedGain r with
  | Some g => if JS.truthy g then total + g else total
  | None => total
  end.

Definition potentialGain (rs : list RebalancingRecommendation.t) : Q :=
  fold_left addGain rs 0.

(** A protocol name that [protocolRiskDatabase[protocol]] finds in
    [Object.prototype]. *)
Definition inheritedKey (protocol : string) : Prop :=
  getProtocolData protocol = InheritedProperty.

(** Four partial weighted sums, each finite, not negative and at most
    [B / T]. *)
Definition partialSums (T B : Q) (factors : RiskFactors.t) : Prop :=
  exists a b c d,
    factors = RiskFactors.mk (JS.Num a) (JS.Num b) (JS.Num c) (JS.Num d)
    /\ (0 <= a /\ a * T <= B) /\ (0 <= b /\ b * T <= B)
    /\ (0 <= c /\ c * T <= B) /\ (0 <= d /\ d * T <= B).

(** A number within a range: finite and between the bounds ([NaN] and the
    infinities are in no range). *)
Definition within (lo hi : Q) (x : JS.number) : Prop :=
  match x with
  | JS.Num q => lo <= q <= hi
  | _ => False
  end.

Definition isNaN (x : JS.number) : Prop := x = JS.NaN.

(** What a range rule of [validateStrategy] lets through. *)
Definition accepted (lo hi : Q) (x : JS.number) : Prop :=
  isNaN x \/ within lo hi x.

(** The three range rules of [validateStrategy]. *)
Definition targetAPY_ok (s : RebalancingStrategy.record JS.number) : Prop :=
  within 0 100 (RebalancingStrategy.targetAPY s).
Definition maxImpermanentLoss_ok (s : RebalancingStrategy.record JS.number)
  : Prop :=
  within 0 50 (RebalancingStrategy.maxImpermanentLoss s).
Definition rebalanceThreshold_ok (s : RebalancingStrategy.record JS.number)
  : Prop :=
  within 5 50 (RebalancingStrategy.rebalanceThreshold s).

(** Order on possibly non-finite numbers: both finite and ordered. *)
Definition finite_le (x y : JS.number) : Prop :=
  match x, y with
  | JS.Num a, JS.Num b => a <= b
  | _, _ => False
  end.

Definition finite_lt (x y : JS.number) : Prop :=
  match x, y with
  | JS.Num a, JS.Num b => a < b
  | _, _ => False
  end.

(** A finite number between two bounds. *)
Definition finite_between (lo hi : Q) (x : JS.number) : Prop :=
  exists q, x = JS.Num q /\ lo <= q <= hi.

(** A number that is finite and not negative, or [Infinity]. *)
Definition nonnegative (x : JS.number) : Prop :=
  match x with
  | JS.Num q => 0 <= q
  | JS.Infinity => True
  | _ => False
  end.

(** The position values of a portfolio, their sum and the sum of their
    squares (the numerator of the Herfindahl-Hirschman index). *)
Definition values (positions : list LPPosition.t) : list Q :=
  map LPPosition.currentValue positions.
Definition sumOfValues (vs : list Q) : Q := fold_right Qplus 0 vs.
Definition sumOfSquares (vs : list Q) : Q :=
  fold_right (fun v s => v * v + s) 0 vs.

(** A rendering of numbers that is the program's on integer values, which
    are the only ones the examples print. *)
Definition integerToString (x : Q) : string := JS.string_of_integer (Qfloor x).

(** A strategy of the engine as the settings page stores it. *)
Definition asStored (s : RebalancingStrategy.t)
  : RebalancingStrategy.record JS.number :=
  RebalancingStrategy.mk (RebalancingStrategy.id s) (RebalancingStrategy.name s)
    (RebalancingStrategy.description s)
    (JS.Num (RebalancingStrategy.targetAPY s))
    (JS.Num (RebalancingStrategy.maxImpermanentLoss s))
    (RebalancingStrategy.riskTolerance s)
    (JS.Num (RebalancingStrategy.rebalanceThreshold s))
    (RebalancingStrategy.enabled s).

Definition numberText (x : JS.number) : string :=
  match x with
  | JS.Num q => integerToString q
  | JS.Infinity => "Infinity"
  | JS.NegInfinity => "-Infinity"
  | JS.NaN => "NaN"
  end.

Definition oneDay : Z := 1000 * 60 * 60 * 24.

(** A WETH/USDC position worth $1000, deposited at time 0. *)
Definition wethUsdc : LPPosition.t :=
  LPPosition.mk "1" "0xabc" "Uniswap V3" "0xpool" "WETH" "USDC" 1 1000 0%Z 1000 30.

(** The same position with a deposit time one day ahead of time 0. *)
Definition depositedTomorrow : LPPosition.t :=
  LPPosition.mk "3" "0xabc" "Uniswap V3" "0xpool" "WETH" "USDC" 1 1000 oneDay 1000 30.

(** A position in a pair that no pool below trades. *)
Definition daiWbtc : LPPosition.t :=
  LPPosition.mk "2" "0xabc" "Aerodrome" "0xother" "DAI" "WBTC" 500 1 0%Z 1000 30.

(** The four liquidity sources of [generateMockData]. *)
Definition uniswapPool : PoolData.t :=
  PoolData.mk "Uniswap V3" "WETH/USDC" 6.60 51750000 1659130 8740 25.
Definition aerodromePool : PoolData.t :=
  PoolData.mk "Aerodrome" "WETH/USDC" 8.45 23400000 892000 4560 35.
Definition baseSwapPool : PoolData.t :=
  PoolData.mk "BaseSwap" "WETH/USDC" 12.3 8900000 445000 2890 55.
Definition sushiSwapPool : PoolData.t :=
  PoolData.mk "SushiSwap" "WETH/USDC" 5.2 15600000 678000 3240 30.

Definition mockPools : list PoolData.t :=
  [uniswapPool; aerodromePool; baseSwapPool; sushiSwapPool].

(** A pool yielding 4% and a second one on the same pair yielding exactly
    10% more (4.4%). *)
Definition lowYieldPool : PoolData.t :=
  PoolData.mk "Uniswap V3" "WETH/USDC" 4 51750000 1659130 8740 25.
Definition tenPercentBetterPool : PoolData.t :=
  PoolData.mk "Aerodrome" "WETH/USDC" 4.4 23400000 892000 4560 35.

Definition balancedEngine (pools : list PoolData.t) : RebalancingEngine.t :=
  RebalancingEngine.mk balanced [wethUsdc] pools.

(** Ten equal positions in one pool, and a newcomer a thousand times their
    size in a protocol and in tokens the ten do not touch. *)
Definition smallPosition : LPPosition.t :=
  LPPosition.mk "s" "0xabc" "Uniswap V3" "0xpool" "WETH" "USDC" 1 1 0%Z 1 30.
Definition tenSmallPositions : list LPPosition.t := repeat smallPosition 10.
Definition largeNewcomer : LPPosition.t :=
  LPPosition.mk "n" "0xabc" "Aerodrome" "0xother" "DAI" "WBTC" 1 1 0%Z 1000 30.

(** An assessment function for portfolios in which it is never called. *)
Definition noAssessment (position : LPPosition.t) (poolData : PoolData.t)
  : DetailedRiskAssessment.t :=
  DetailedRiskAssessment.mk (JS.Num 0) (JS.Num 0) (JS.Num 0) (JS.Num 0) (JS.Num 0).

(* ------------------------------------------------------------------ *)
(** * The rest of the cited files and their callers *)

(** ** More of [JS]: [>=], string slices *)

Module JSString.

(** [a >= b] on finite numbers. *)
Definition geb (a b : Q) : bool := Qle_bool b a.

(** An index argument of [slice] resolved against the length: negative
    indices count from the end, everything is clamped to [0 .. len]. *)
Definition resolveIndex (len : nat) (i : Z) : nat :=
  if (i <? 0)%Z then Z.to_nat (Z.max (Z.of_nat len + i) 0)
  else Nat.min (Z.to_nat i) len.

(** [s.slice(start, end)]. *)
Definition slice (s : string) (start stop : Z) : string :=
  let from := resolveIndex (String.length s) start in
  let to := resolveIndex (String.length s) stop in
  String.substring from (to - from) s.

(** [s.slice(start)]. *)
Definition sliceFrom (s : string) (start : Z) : string :=
  let from := resolveIndex (String.length s) start in
  String.substring from (String.length s - from) s.

(** The characters [[a-fA-F0-9]]. *)
Definition isHexDigit (c : ascii) : bool :=
  let n := nat_of_ascii c in
  ((48 <=? n) && (n <=? 57) || (65 <=? n) && (n <=? 70)
   || (97 <=? n) && (n <=? 102))%nat.

Fixpoint all (p : ascii -> bool) (s : string) : bool :=
  match s with
  | EmptyString => true
  | String c s' => p c && all p s'
  end.

End JSString.

(** ** [src/lib/utils.ts], continued *)

Module Utils.

Definition getRiskColor (score : Q) : string :=
  if JSString.geb score 80 then "text-error"
  else if JSString.geb score 60 then "text-warning"
  else if JSString.geb score 40 then "text-yellow-400"
  else "text-success".

Definition getRiskLabel (score : Q) : string :=
  if JSString.geb score 80 then "High Risk"
  else if JSString.geb score 60 then "Medium-High Risk"
  else if JSString.geb score 40 then "Medium Risk"
  else if JSString.geb score 20 then "Low-Medium Risk"
  else "Low Risk".

(** [truncateAddress(address, chars = 4)]; the default is passed
    explicitly. *)
Definition truncateAddress (address : string) (chars : Z) : string :=
  JSString.slice address 0 (chars + 2) +:+ "..."
  +:+ JSString.sliceFrom address (- chars).

End Utils.

(** ** The wallet helpers ([@/lib/auth], in [src/lib/rebalancing.ts]) *)

Module Auth.

Definition generateUserId (walletAddress : string) : string :=
  "user_" +:+ JSString.slice (JS.toLowerCase walletAddress) 2 10.

(** [/^0x[a-fA-F0-9]{40}$/.test(address)]. *)
Definition validateWalletAddress (address : string) : bool :=
  match address with
  | String "0" (String "x" digits) =>
      Nat.eqb (String.length digits) 40 && JSString.all JSString.isHexDigit digits
  | _ => false
  end.

Definition truncateAddress (address : string) (chars : Z) : string :=
  if Nat.eqb (String.length address) 0 then ""
  else JSString.slice address 0 (chars + 2) +:+ "..."
       +:+ JSString.sliceFrom address (- chars).

End Auth.

(** ** Executing a recommendation ([RebalancingEngine.executeRebalancing]) *)

Module Execution.

Import RebalancingRecommendation.

(** The three private steps log and return [true]; [None] is a thrown
    [TypeError].  [rebalancePosition] and [adjustPosition] log
    [newPool.protocol], and the caller passes [recommendation.newPool!],
    which is [undefined] for a recommendation without new pool. *)
Definition exitPosition (positionId : string) : option bool := Some true.

Definition rebalancePosition (positionId : string) (newPool : option PoolData.t)
  : option bool :=
  match newPool with
  | Some _ => Some true
  | None => None
  end.

Definition adjustPosition (positionId : string) (newPool : option PoolData.t)
  : option bool :=
  match newPool with
  | Some _ => Some true
  | None => None
  end.

(** [try { switch ... } catch { return false }]. *)
Definition executeRebalancing (recommendation : RebalancingRecommendation.t)
  : bool :=
  let attempt :=
    match action recommendation with
    | exit => exitPosition (positionId recommendation)
    | rebalance =>
        rebalancePosition (positionId recommendation) (newPool recommendation)
    | adjust =>
        adjustPosition (positionId recommendation) (newPool recommendation)
    | hold => Some true
    end in
  match attempt with
  | Some result => result
  | None => false
  end.

End Execution.

(** ** [src/lib/api.ts]: the subgraph adapters and the cache

    The subgraph sends numbers as strings; a raw record below holds the
    values [parseFloat] / [parseInt] give for them (finite numbers). *)

Module RawPool.
Record t : Type := mk {
  token0_symbol : string;
  token1_symbol : string;
  volumeUSD : Q;
  totalValueLockedUSD : Q;
  feesUSD : Q;
}.
End RawPool.

Module RawPosition.
Record t : Type := mk {
  id : string;
  pool_id : string;
  pool_token0_symbol : string;
  pool_token1_symbol : string;
  tickLower_tickIdx : Z;
  tickUpper_tickIdx : Z;
  depositedToken0 : Q;
  depositedToken1 : Q;
}.
End RawPosition.

(** What the awaited [fetch(...).json()] amounts to: a thrown error, a body
    with [errors], or a body with data. *)
Inductive Response (A : Type) : Type :=
| Thrown
| WithErrors
| WithData (items : list A).

Arguments Thrown {A}.
Arguments WithErrors {A}.
Arguments WithData {A} items.

Module ExchangeRate.
Record t : Type := mk {
  pair : string;
  exchange : string;
  rate : Q;
  timestamp : Date;
}.
End ExchangeRate.

Module Api.

Definition calculatePoolAPY (feesUSD tvlUSD : Q) : Q :=
  let fees := feesUSD in
  let tvl := tvlUSD in
  if Qeq_bool tvl 0 then 0
  else (fees * 365 / tvl) * 100.

Definition calculateRiskScore (pool : RawPool.t) : Q :=
  let riskScore := 50 in
  let tvl := RawPool.totalValueLockedUSD pool in
  let riskScore :=
    if JS.gtb tvl 10000000 then riskScore - 20
    else if JS.gtb tvl 1000000 then riskScore - 10
    else if JS.ltb tvl 100000 then riskScore + 20
    else riskScore in
  let volume := RawPool.volumeUSD pool in
  let riskScore :=
    if JS.gtb volume 1000000 then riskScore - 10
    else if JS.ltb volume 10000 then riskScore + 15
    else riskScore in
  JS.Math_max 0 (JS.Math_min 100 riskScore).

Definition calculatePositionValue (position : RawPosition.t) : Q :=
  RawPosition.depositedToken0 position + RawPosition.depositedToken1 position.

Definition calculatePositionRisk (position : RawPosition.t) : Q :=
  let tickRange :=
    Z.abs (RawPosition.tickUpper_tickIdx position
           - RawPosition.tickLower_tickIdx position) in
  let riskScore := 30 in
  let riskScore :=
    if (tickRange <? 1000)%Z then riskScore + 30
    else if (tickRange <? 5000)%Z then riskScore + 15
    else riskScore in
  JS.Math_max 0 (JS.Math_min 100 riskScore).

(** The arrow function mapped over [data.data.pools]. *)
Definition toPoolData (pool : RawPool.t) : PoolData.t :=
  {| PoolData.protocol := "Uniswap V3";
     PoolData.pair := RawPool.token0_symbol pool +:+ "/" +:+ RawPool.token1_symbol pool;
     PoolData.apy :=
       calculatePoolAPY (RawPool.feesUSD pool) (RawPool.totalValueLockedUSD pool);
     PoolData.tvl := RawPool.totalValueLockedUSD pool;
     PoolData.volume24h := RawPool.volumeUSD pool;
     PoolData.fees24h := RawPool.feesUSD pool;
     PoolData.riskScore := calculateRiskScore pool |}.

Definition fetchUniswapPools (response : Response RawPool.t) : list PoolData.t :=
  match response with
  | Thrown => []
  | WithErrors => []
  | WithData pools => map toPoolData pools
  end.

(** The arrow function mapped over [data.data.positions]; [now] is the
    [new Date()] it stamps the position with. *)
Definition toLPPosition (walletAddress : string) (now : Date)
    (position : RawPosition.t) : LPPosition.t :=
  {| LPPosition.positionId := RawPosition.id position;
     LPPosition.userId := walletAddress;
     LPPosition.protocol := "Uniswap V3";
     LPPosition.poolAddress := RawPosition.pool_id position;
     LPPosition.token0 := RawPosition.pool_token0_symbol position;
     LPPosition.token1 := RawPosition.pool_token1_symbol position;
     LPPosition.amount0 := RawPosition.depositedToken0 position;
     LPPosition.amount1 := RawPosition.depositedToken1 position;
     LPPosition.depositTimestamp := now;
     LPPosition.currentValue := calculatePositionValue position;
     LPPosition.riskScore := calculatePositionRisk position |}.

Definition fetchUserPositions (walletAddress : string) (now : Date)
    (response : Response RawPosition.t) : list LPPosition.t :=
  match response with
  | Thrown => []
  | WithErrors => []
  | WithData positions => map (toLPPosition walletAddress now) positions
  end.

(** The three rate helpers return fixed mock rates stamped with the time. *)
Definition fetchUniswapRate (tokenPair : string) (now : Date)
  : option ExchangeRate.t :=
  Some (ExchangeRate.mk tokenPair "Uniswap V3" 1772.65 now).

Definition fetchAerodromeRate (tokenPair : string) (now : Date)
  : option ExchangeRate.t :=
  Some (ExchangeRate.mk tokenPair "Aerodrome" 1771.89 now).

Definition fetchBaseSwapRate (tokenPair : string) (now : Date)
  : option ExchangeRate.t :=
  Some (ExchangeRate.mk tokenPair "BaseSwap" 1770.12 now).

(** [if (rate) rates.push(rate)]. *)
Definition pushRate (rate : option ExchangeRate.t) (rates : list ExchangeRate.t)
  : list ExchangeRate.t :=
  match rate with
  | Some r => (rates ++ [r])%list
  | None => rates
  end.

(** [t1], [t2], [t3] are the clock readings of the three helpers. *)
Definition fetchExchangeRates (tokenPair : string) (t1 t2 t3 : Date)
  : list ExchangeRate.t :=
  let rates := [] in
  let uniswapRate := fetchUniswapRate tokenPair t1 in
  let aerodromeRate := fetchAerodromeRate tokenPair t2 in
  let baseswapRate := fetchBaseSwapRate tokenPair t3 in
  let rates := pushRate uniswapRate rates in
  let rates := pushRate aerodromeRate rates in
  let rates := pushRate baseswapRate rates in
  rates.

(** The module-level [cache = new Map()]: what it holds per key. *)
Record CacheEntry (A : Type) : Type := mkEntry {
  data : A;
  timestamp : Date;
}.

Arguments mkEntry {A} data timestamp.
Arguments data {A} _.
Arguments timestamp {A} _.

Definition CACHE_DURATION : Z := 30000.

(** [null] is [None]; [now] is the reading of [Date.now()]. *)
Definition getCachedData {A : Type} (cache : gmap string (CacheEntry A))
    (now : Date) (key : string) : option A :=
  match cache !! key with
  | Some cached =>
      if (now - timestamp cached <? CACHE_DURATION)%Z
      then Some (data cached) else None
  | None => None
  end.

Definition setCachedData {A : Type} (cache : gmap string (CacheEntry A))
    (now : Date) (key : string) (value : A) : gmap string (CacheEntry A) :=
  <[ key := mkEntry value now ]> cache.

End Api.

(** ** [loadRates] and the rate summary of [FarcasterFrame] *)

Module FarcasterFrame.

(** [loadRates(force)]: the cache before, the clock when the cache is
    read ([now]), when the three rates are fetched ([t1], [t2], [t3]) and
    when they are stored ([later]); returns the cache after and the rates
    handed to [setRates]. *)
Definition loadRates (cache : gmap string (Api.CacheEntry (list ExchangeRate.t)))
    (now t1 t2 t3 later : Date) (tokenPair : string) (force : bool)
  : gmap string (Api.CacheEntry (list ExchangeRate.t)) * list ExchangeRate.t :=
  let cacheKey := "rates-" +:+ tokenPair in
  let rateData := if force then None else Api.getCachedData cache now cacheKey in
  match rateData with
  | Some rates => (cache, rates)
  | None =>
      let rateData := Api.fetchExchangeRates tokenPair t1 t2 t3 in
      (Api.setCachedData cache later cacheKey rateData, rateData)
  end.

(** [rates.reduce(pick)] without initial value, on a non-empty array. *)
Definition reduceRates (pick : ExchangeRate.t -> ExchangeRate.t -> ExchangeRate.t)
    (rates : list ExchangeRate.t) : option ExchangeRate.t :=
  match rates with
  | [] => None
  | first :: rest => Some (fold_left pick rest first)
  end.

Definition bestRate (rates : list ExchangeRate.t) : option ExchangeRate.t :=
  reduceRates
    (fun best current =>
       if JS.gtb (ExchangeRate.rate current) (ExchangeRate.rate best)
       then current else best)
    rates.

Definition worstRate (rates : list ExchangeRate.t) : option ExchangeRate.t :=
  reduceRates
    (fun worst current =>
       if JS.ltb (ExchangeRate.rate current) (ExchangeRate.rate worst)
       then current else worst)
    rates.

Definition spread (rates : list ExchangeRate.t) : JS.number :=
  match bestRate rates, worstRate rates with
  | Some best, Some worst =>
      JS.mul
        (JS.div (JS.Num (ExchangeRate.rate best - ExchangeRate.rate worst))
                (JS.Num (ExchangeRate.rate worst)))
        (JS.Num 100)
  | _, _ => JS.Num 0
  end.

End FarcasterFrame.

(** ** The strategy list of the settings page *)

Module SettingsPage.

(** The form behind "new strategy".  Its two numbers are set by
    [parseFloat(e.target.value)], which is [NaN] for an emptied field. *)
Record NewStrategy : Type := mkNewStrategy {
  name : string;
  targetAPY : JS.number;
  maxImpermanentLoss : JS.number;
  riskTolerance : Level;
}.

(** The part of the page state the strategy handlers touch. *)
Record State : Type := mkState {
  strategies : list (RebalancingStrategy.record JS.number);
  isCreatingStrategy : bool;
  newStrategy : NewStrategy;
}.

(** [{ ...s, enabled }]. *)
Definition withEnabled {number : Type} (s : RebalancingStrategy.record number)
    (enabled : bool) : RebalancingStrategy.record number :=
  {| RebalancingStrategy.id := RebalancingStrategy.id s;
     RebalancingStrategy.name := RebalancingStrategy.name s;
     RebalancingStrategy.description := RebalancingStrategy.description s;
     RebalancingStrategy.targetAPY := RebalancingStrategy.targetAPY s;
     RebalancingStrategy.maxImpermanentLoss := RebalancingStrategy.maxImpermanentLoss s;
     RebalancingStrategy.riskTolerance := RebalancingStrategy.riskTolerance s;
     RebalancingStrategy.rebalanceThreshold := RebalancingStrategy.rebalanceThreshold s;
     RebalancingStrategy.enabled := enabled |}.

Definition emptyForm : NewStrategy :=
  mkNewStrategy "" (JS.Num 8) (JS.Num 5) medium.

(** [createNewStrategy]: the strategy is built twice, once to validate and
    once to store, so the clock is read twice. *)
Definition createNewStrategy (numberToString : JS.number -> string)
    (now later : Date) (state : State) : State :=
  let form := newStrategy state in
  let errors :=
    validateStrategy
      (withEnabled
         (createCustomStrategy numberToString now (name form) (targetAPY form)
            (maxImpermanentLoss form) (riskTolerance form))
         false) in
  if Nat.ltb 0 (length errors) then state
  else
    let strategy :=
      createCustomStrategy numberToString later (name form) (targetAPY form)
        (maxImpermanentLoss form) (riskTolerance form) in
    {| strategies := (strategies state ++ [strategy])%list;
       isCreatingStrategy := false;
       newStrategy := emptyForm |}.

Definition toggleStrategy (strategyId : string) (state : State) : State :=
  {| strategies :=
       map (fun s =>
              if String.eqb (RebalancingStrategy.id s) strategyId
              then withEnabled s (negb (RebalancingStrategy.enabled s))
              else withEnabled s false)
         (strategies state);
     isCreatingStrategy := isCreatingStrategy state;
     newStrategy := newStrategy state |}.

(** [confirmed] is the answer to the [confirm(...)] dialog. *)
Definition deleteStrategy (confirmed : bool) (strategyId : string)
    (state : State) : State :=
  if confirmed then
    {| strategies :=
         List.filter
           (fun s => negb (String.eqb (RebalancingStrategy.id s) strategyId))
           (strategies state);
       isCreatingStrategy := isCreatingStrategy state;
       newStrategy := newStrategy state |}
  else state.

End SettingsPage.

(** ** [determineSeverity] of the position-level engine *)

Inductive Severity : Type :=
| severity_low | severity_medium | severity_high | severity_critical.

Definition determineSeverity (overallRisk : Q) : Severity :=
  if JSString.geb overallRisk 80 then severity_critical
  else if JSString.geb overallRisk 60 then severity_high
  else if JSString.geb overallRisk 40 then severity_medium
  else severity_low.

(** The characters [[0-9a-f]], in which user ids are written. *)
Definition isLowerHexDigit (c : ascii) : bool :=
  let n := nat_of_ascii c in
  ((48 <=? n) && (n <=? 57) || (97 <=? n) && (n <=? 102))%nat.

(* ------------------------------------------------------------------ *)
(** * Properties *)

(** ** Comparisons on finite numbers *)

Lemma ltb_true (a b : Q) : JS.ltb a b = true <-> a < b.
Proof.
  unfold JS.ltb. rewrite negb_true_iff, <- not_true_iff_false, Qle_bool_iff.
  split; [apply Qnot_le_lt | apply Qlt_not_le].
Qed.

Lemma ltb_false (a b : Q) : JS.ltb a b = false <-> b <= a.
Proof.
  unfold JS.ltb. rewrite negb_false_iff. apply Qle_bool_iff.
Qed.

Lemma gtb_true (a b : Q) : JS.gtb a b = true <-> b < a.
Proof. apply ltb_true. Qed.

Lemma gtb_false (a b : Q) : JS.gtb a b = false <-> a <= b.
Proof. apply ltb_false. Qed.

(** Case analysis on a comparison, leaving the order fact in the context. *)
Ltac compare_cases a b :=
  let H := fresh "Hcmp" in
  destruct (JS.ltb a b) eqn:H;
  [ apply ltb_true in H | apply ltb_false in H ].

Lemma Math_min_spec (a b : Q) :
  (a <= b /\ JS.Math_min a b = a) \/ (b < a /\ JS.Math_min a b = b).
Proof.
  unfold JS.Math_min. destruct (Qle_bool a b) eqn:H.
  - left. split; [now apply Qle_bool_iff | reflexivity].
  - right. split; [| reflexivity].
    apply Qnot_le_lt. intros Hle. apply Qle_bool_iff in Hle. congruence.
Qed.

(** ** The rebalancing policy *)

Section Policy.

Import RebalancingEngine.
Import RebalancingRecommendation.

Variable self : RebalancingEngine.t.
Variable position : LPPosition.t.

Lemma checkHighRisk_fires (impermanentLoss : Q) :
  RebalancingStrategy.maxImpermanentLoss (strategy self) * 2 < impermanentLoss ->
  exists r, checkHighRisk self position impermanentLoss = Some r
            /\ action r = exit /\ urgency r = high.
Proof using Type.
  intros H. unfold checkHighRisk.
  apply gtb_true in H. rewrite H. eexists. split; [reflexivity | split; reflexivity].
Qed.

Lemma checkHighRisk_silent (impermanentLoss : Q) :
  impermanentLoss <= RebalancingStrategy.maxImpermanentLoss (strategy self) * 2 ->
  checkHighRisk self position impermanentLoss = None.
Proof using Type.
  intros H. unfold checkHighRisk. apply gtb_false in H. now rewrite H.
Qed.

(** The reduction over a non-empty candidate list returns one of them. *)
Lemma pickBest_from (score : PoolData.t -> Q) (l : list PoolData.t)
    (start : PoolData.t) :
  exists b,
    fold_left
      (fun best current =>
         match best with
         | None => Some current
         | Some b0 =>
             if JS.gtb (score current) (score b0) then Some current else Some b0
         end) l (Some start) = Some b
    /\ (b = start \/ In b l).
Proof using Type.
  revert start. induction l as [| c l IH]; intros start; simpl.
  - exists start. auto.
  - destruct (JS.gtb (score c) (score start)).
    + destruct (IH c) as (b & Hb & [Heq | Hin]); exists b; auto.
    + destruct (IH start) as (b & Hb & [Heq | Hin]); exists b; auto.
Qed.

Lemma pickBest_Some (score : PoolData.t -> Q) (l : list PoolData.t) :
  l <> [] -> exists b, pickBest score l = Some b /\ In b l.
Proof using Type.
  destruct l as [| c l]; [congruence |]. intros _.
  unfold pickBest. simpl.
  destruct (pickBest_from score l c) as (b & Hb & [Heq | Hin]); exists b; auto.
Qed.

Lemma findBetterPool_Some (currentPool candidate : PoolData.t) :
  In candidate (availablePools self) ->
  betterCandidate self position currentPool candidate = true ->
  exists best,
    findBetterPool self position currentPool = Some best
    /\ In best (availablePools self)
    /\ betterCandidate self position currentPool best = true.
Proof using Type.
  intros Hin Hc. unfold findBetterPool.
  destruct (pickBest_Some
              (fun p => PoolData.apy p - PoolData.riskScore p * 0.1)
              (List.filter (betterCandidate self position currentPool)
                 (availablePools self)))
    as (b & Hb & Hbin).
  - intros Hnil.
    assert (In candidate
              (List.filter (betterCandidate self position currentPool)
                 (availablePools self))) as Hf
      by (apply filter_In; auto).
    rewrite Hnil in Hf. destruct Hf.
  - exists b. apply filter_In in Hbin. tauto.
Qed.

(** The underperformance rule as the program applies it: the candidate must
    pass the program's own filter, whose yield test is the strict
    [pool.apy > currentPool.apy * 1.1]. *)
Lemma evaluatePosition_rebalance_strict
    (currentPool candidate : PoolData.t) (currentAPY impermanentLoss riskScore : Q) :
  impermanentLoss <= RebalancingStrategy.maxImpermanentLoss (strategy self) * 2 ->
  currentAPY < RebalancingStrategy.targetAPY (strategy self) * 0.7 ->
  In candidate (availablePools self) ->
  sameTokens position candidate = true ->
  PoolData.apy currentPool * 1.1 < PoolData.apy candidate ->
  isRiskAcceptable (PoolData.riskScore candidate)
    (RebalancingStrategy.riskTolerance (strategy self)) = true ->
  let r := evaluatePosition self position currentPool
             currentAPY impermanentLoss riskScore in
  action r = rebalance
  /\ exists best,
       newPool r = Some best
       /\ expectedGain r = Some (calculatePotentialGain position currentPool best)
       /\ (calculatePotentialGain position currentPool best
             > RebalancingStrategy.rebalanceThreshold (strategy self)
           -> urgency r = high)
       /\ (~ calculatePotentialGain position currentPool best
               > RebalancingStrategy.rebalanceThreshold (strategy self)
           -> urgency r = medium).
Proof using Type.
  intros Hil Hapy Hin Hsame Hbetter Hrisk r. subst r.
  unfold evaluatePosition. rewrite (checkHighRisk_silent _ Hil). simpl.
  unfold checkUnderperformance.
  apply ltb_true in Hapy. rewrite Hapy.
  destruct (findBetterPool_Some currentPool candidate Hin) as (best & Hbest & _ & _).
  { unfold betterCandidate. rewrite Hsame, Hrisk.
    apply gtb_true in Hbetter. now rewrite Hbetter. }
  rewrite Hbest. simpl. split; [reflexivity |].
  exists best. repeat split.
  - intros Hgt. apply gtb_true in Hgt. now rewrite Hgt.
  - intros Hngt.
    destruct (JS.gtb _ _) eqn:E; [| reflexivity].
    apply gtb_true in E. contradiction.
Qed.

End Policy.

(** C1.  Whatever the current pool, its APY and its risk score, an
    impermanent loss above twice the strategy's [maxImpermanentLoss] makes
    [evaluatePosition] return action [exit] with urgency [high]; for a
    position with a matching pool, [analyzePosition] therefore recommends
    exactly that when the estimated loss is that large. *)
Theorem evaluatePosition_exit_priority
    (self : RebalancingEngine.t) (position : LPPosition.t)
    (currentPool : PoolData.t) (currentAPY impermanentLoss riskScore : Q) :
  RebalancingStrategy.maxImpermanentLoss (RebalancingEngine.strategy self) * 2
    < impermanentLoss ->
  RebalancingRecommendation.action
    (RebalancingEngine.evaluatePosition self position currentPool
       currentAPY impermanentLoss riskScore) = exit
  /\ RebalancingRecommendation.urgency
       (RebalancingEngine.evaluatePosition self position currentPool
          currentAPY impermanentLoss riskScore) = high
  /\ forall now matched,
       find (RebalancingEngine.isCurrentPool position)
         (RebalancingEngine.availablePools self) = Some matched ->
       RebalancingEngine.estimateImpermanentLoss now position = impermanentLoss ->
       exists r,
         RebalancingEngine.analyzePosition self now position = Some r
         /\ RebalancingRecommendation.action r = exit
         /\ RebalancingRecommendation.urgency r = high.
Proof.
  intros H.
  assert (forall pool apy risk,
             RebalancingRecommendation.action
               (RebalancingEngine.evaluatePosition self position pool apy
                  impermanentLoss risk) = exit
             /\ RebalancingRecommendation.urgency
                  (RebalancingEngine.evaluatePosition self position pool apy
                     impermanentLoss risk) = high) as Hexit.
  { intros pool apy risk. unfold RebalancingEngine.evaluatePosition.
    destruct (checkHighRisk_fires self position impermanentLoss H)
      as (r & -> & Ha & Hu).
    simpl. auto. }
  split; [apply Hexit | split; [apply Hexit |]].
  intros now matched Hfind Hest.
  unfold RebalancingEngine.analyzePosition. rewrite Hfind, Hest.
  eexists. split; [reflexivity |]. apply Hexit.
Qed.

(** The specification's test case: loss 11%, [maxImpermanentLoss] 5%. *)
Lemma evaluatePosition_exit_priority_witness :
  RebalancingRecommendation.action
    (RebalancingEngine.evaluatePosition (balancedEngine mockPools) wethUsdc
       baseSwapPool 12.3 11 55) = exit.
Proof.
  apply (evaluatePosition_exit_priority (balancedEngine mockPools) wethUsdc
           baseSwapPool 12.3 11 55).
  reflexivity.
Defined.

(** C2.  The program's yield test for a candidate is strict.  With the
    balanced strategy (target 8%), a current pool at 4% (below 0.7 x 8 =
    5.6) and a candidate on the same pair at 4.4%, which is 1.10 times the
    current yield, with acceptable risk 35, every premise of the rule holds
    and [evaluatePosition] still answers [hold]: the candidate list is
    empty because [4.4 > 4 * 1.1] is false. *)
Theorem evaluatePosition_ten_percent_better_not_rebalanced :
  let self := balancedEngine [lowYieldPool; tenPercentBetterPool] in
  let strategy := RebalancingEngine.strategy self in
  1 <= RebalancingStrategy.maxImpermanentLoss strategy * 2
  /\ PoolData.apy lowYieldPool < RebalancingStrategy.targetAPY strategy * 0.7
  /\ In tenPercentBetterPool (RebalancingEngine.availablePools self)
  /\ PoolData.pair tenPercentBetterPool = "WETH/USDC"
  /\ RebalancingEngine.sameTokens wethUsdc tenPercentBetterPool = true
  /\ PoolData.apy lowYieldPool * 1.1 <= PoolData.apy tenPercentBetterPool
  /\ RebalancingEngine.isRiskAcceptable (PoolData.riskScore tenPercentBetterPool)
       (RebalancingStrategy.riskTolerance strategy) = true
  /\ RebalancingEngine.findBetterPool self wethUsdc lowYieldPool = None
  /\ RebalancingRecommendation.action
       (RebalancingEngine.evaluatePosition self wethUsdc lowYieldPool 4 1 25)
     = hold.
Proof.
  cbv zeta. repeat split; try reflexivity; try discriminate.
  simpl. auto.
Qed.

Module Binary64Boundary.
Import Floats.
Local Open Scope float_scope.

(** The same boundary in binary64: [4 * 1.1] is exactly the double written
    [4.4], so the program's [pool.apy > currentPool.apy * 1.1] is false there
    as well.  (The doubles nearest to 4.4 and 1.1 are obtained as the
    correctly rounded quotients 44/10 and 11/10.) *)
Lemma ten_percent_better_binary64 :
  let apy_4_4 := 44 / 10 in
  let factor_1_1 := 11 / 10 in
  PrimFloat.ltb (4 * factor_1_1) apy_4_4 = false
  /\ PrimFloat.eqb (4 * factor_1_1) apy_4_4 = true.
Proof. split; reflexivity. Qed.

End Binary64Boundary.

(** ** Strategy validation and creation *)

Lemma out_of_range_false (lo hi x : Q) :
  JS.ltb x lo || JS.gtb x hi = false <-> lo <= x <= hi.
Proof.
  rewrite orb_false_iff, ltb_false, gtb_false. tauto.
Qed.

Lemma out_of_range_true (lo hi x : Q) :
  JS.ltb x lo || JS.gtb x hi = true <-> ~ (lo <= x <= hi).
Proof.
  rewrite <- out_of_range_false. destruct (JS.ltb x lo || JS.gtb x hi).
  - split; [discriminate | reflexivity].
  - split; [discriminate | intros H; now contradiction H].
Qed.

Lemma number_out_of_range (lo hi : Q) (x : JS.number) :
  JS.nltb x (JS.Num lo) || JS.ngtb x (JS.Num hi) = false <-> accepted lo hi x.
Proof.
  unfold accepted, isNaN. destruct x as [q | | |]; cbn [within].
  - change (JS.nltb (JS.Num q) (JS.Num lo)) with (JS.ltb q lo).
    change (JS.ngtb (JS.Num q) (JS.Num hi)) with (JS.gtb q hi).
    rewrite out_of_range_false. split; [now right | intros [H | H]; [discriminate H | exact H]].
  - split; [discriminate | intros [H | H]; [discriminate H | contradiction H]].
  - split; [discriminate | intros [H | H]; [discriminate H | contradiction H]].
  - split; [now left | reflexivity].
Qed.

Lemma within_not_NaN (lo hi : Q) : ~ within lo hi JS.NaN.
Proof. intros H. exact H. Qed.

(** What [validateStrategy] reports, for every strategy: each rule puts its
    own message in the list exactly when its number is below or above the
    range, whatever the other two do; a number that is [NaN] is neither.
    So for a strategy without [NaN] the list is empty exactly when the
    three ranges hold, and [createCustomStrategy('x', 150, 5, 'medium')] is
    reported with the target-APY message. *)
Lemma validateStrategy_messages (s : RebalancingStrategy.record JS.number) :
  (validateStrategy s = []
   <-> accepted 0 100 (RebalancingStrategy.targetAPY s)
       /\ accepted 0 50 (RebalancingStrategy.maxImpermanentLoss s)
       /\ accepted 5 50 (RebalancingStrategy.rebalanceThreshold s))
  /\ (In targetAPY_message (validateStrategy s)
      <-> ~ accepted 0 100 (RebalancingStrategy.targetAPY s))
  /\ (In maxImpermanentLoss_message (validateStrategy s)
      <-> ~ accepted 0 50 (RebalancingStrategy.maxImpermanentLoss s))
  /\ (In rebalanceThreshold_message (validateStrategy s)
      <-> ~ accepted 5 50 (RebalancingStrategy.rebalanceThreshold s))
  /\ (forall numberToString now,
         In targetAPY_message
           (validateStrategy
              (createCustomStrategy numberToString now "x" (JS.Num 150)
                 (JS.Num 5) medium))).
Proof.
  unfold validateStrategy, pushIf.
  pose proof (number_out_of_range 0 100 (RebalancingStrategy.targetAPY s)) as HT.
  pose proof (number_out_of_range 0 50 (RebalancingStrategy.maxImpermanentLoss s)) as HM.
  pose proof (number_out_of_range 5 50 (RebalancingStrategy.rebalanceThreshold s)) as HR.
  destruct (JS.nltb (RebalancingStrategy.targetAPY s) (JS.Num 0)
            || JS.ngtb (RebalancingStrategy.targetAPY s) (JS.Num 100));
  destruct (JS.nltb (RebalancingStrategy.maxImpermanentLoss s) (JS.Num 0)
            || JS.ngtb (RebalancingStrategy.maxImpermanentLoss s) (JS.Num 50));
  destruct (JS.nltb (RebalancingStrategy.rebalanceThreshold s) (JS.Num 5)
            || JS.ngtb (RebalancingStrategy.rebalanceThreshold s) (JS.Num 50));
  simpl;
  (split; [| split; [| split; [| split]]]);
  try (intros numberToString now; left; reflexivity);
  unfold targetAPY_message, maxImpermanentLoss_message,
    rebalanceThreshold_message;
  (split; intros H;
   [ try discriminate H;
     try (repeat (destruct H as [H | H]; try discriminate H); try contradiction H);
     try (intros H'; apply HT in H'; discriminate H');
     try (intros H'; apply HM in H'; discriminate H');
     try (intros H'; apply HR in H'; discriminate H');
     try (repeat split; first [apply HT | apply HM | apply HR]; reflexivity)
   | try (exfalso; apply H; first [apply HT | apply HM | apply HR]; reflexivity);
     try (destruct H as (H1 & H2 & H3);
          first [apply HT in H1; discriminate H1
                | apply HM in H2; discriminate H2
                | apply HR in H3; discriminate H3]);
     simpl; auto ]).
Qed.

(** C5 (code bug).  A strategy whose target APY and maximum impermanent
    loss are [NaN] (the settings form hands over [parseFloat] of an emptied
    field) passes [validateStrategy] with no message, although neither
    number lies in its range: [x < lo || x > hi] is false for [NaN]. *)
Theorem validateStrategy_accepts_NaN
    (numberToString : JS.number -> string) (now : Date) (name : string)
    (riskTolerance : Level) :
  let s := createCustomStrategy numberToString now name JS.NaN JS.NaN
             riskTolerance in
  validateStrategy s = []
  /\ ~ targetAPY_ok s
  /\ ~ maxImpermanentLoss_ok s
  /\ validateStrategy
       (createCustomStrategy numberToString now name JS.NaN (JS.Num 5)
          riskTolerance) = [].
Proof.
  cbv zeta. split; [| split; [| split]].
  - destruct riskTolerance; reflexivity.
  - apply within_not_NaN.
  - apply within_not_NaN.
  - destruct riskTolerance; reflexivity.
Qed.

(** The decimal rendering of integers is injective. *)
Lemma string_of_integer_inj (a b : Z) :
  JS.string_of_integer a = JS.string_of_integer b -> a = b.
Proof.
  unfold JS.string_of_integer. intros H.
  apply DecimalZ.to_int_inj.
  assert (forall z, NilZero.int_of_string (NilZero.string_of_int (Z.to_int z))
                    = Some (Z.to_int z)) as Hround.
  { intros z. apply NilZero.isi; destruct z; simpl; try discriminate;
      intros E; injection E as E;
      now apply DecimalPos.Unsigned.to_uint_nonnil in E. }
  pose proof (Hround a) as Ha. rewrite H, Hround in Ha. now injection Ha.
Qed.

Lemma append_inj_r (p s1 s2 : string) : p +:+ s1 = p +:+ s2 -> s1 = s2.
Proof.
  induction p as [| c p IH]; simpl; intros H; [exact H |].
  injection H as H. now apply IH.
Qed.

(** C6 (what fails).  The id is read off the clock: the same inputs at two
    different instants give two ids, and two different strategies made in
    the same millisecond share one. *)
Lemma createCustomStrategy_id_counterexample :
  RebalancingStrategy.id
    (createCustomStrategy numberText 1700000000000%Z "x" (JS.Num 8) (JS.Num 5) medium)
    <> RebalancingStrategy.id
         (createCustomStrategy numberText 1700000000001%Z "x" (JS.Num 8) (JS.Num 5) medium)
  /\ createCustomStrategy numberText 1700000000000%Z "a" (JS.Num 8) (JS.Num 5) low
       <> createCustomStrategy numberText 1700000000000%Z "b" (JS.Num 12) (JS.Num 7) high
  /\ RebalancingStrategy.id
       (createCustomStrategy numberText 1700000000000%Z "a" (JS.Num 8) (JS.Num 5) low)
       = RebalancingStrategy.id
           (createCustomStrategy numberText 1700000000000%Z "b" (JS.Num 12) (JS.Num 7) high).
Proof.
  split; [| split].
  - vm_compute. discriminate.
  - intros H. apply (f_equal RebalancingStrategy.name) in H. discriminate H.
  - reflexivity.
Qed.

(** C6 (amended).  [createCustomStrategy] derives [rebalanceThreshold] from
    the risk tolerance as low 10, medium 15, high 20; the id is ["custom-"]
    followed by the creation time in milliseconds, so two created
    strategies have the same id exactly when they were created at the same
    millisecond, whatever their other inputs. *)
Theorem createCustomStrategy_threshold_and_id
    (numberToString : JS.number -> string) (now : Date) (name : string)
    (targetAPY maxImpermanentLoss : JS.number) (riskTolerance : Level) :
  let s := createCustomStrategy numberToString now name targetAPY
             maxImpermanentLoss riskTolerance in
  RebalancingStrategy.rebalanceThreshold s
    = JS.Num (match riskTolerance with low => 10 | medium => 15 | high => 20 end)
  /\ RebalancingStrategy.id s = "custom-" +:+ JS.string_of_integer now
  /\ forall numberToString' now' name' targetAPY' maxImpermanentLoss' riskTolerance',
       RebalancingStrategy.id s
         = RebalancingStrategy.id
             (createCustomStrategy numberToString' now' name' targetAPY'
                maxImpermanentLoss' riskTolerance')
       <-> now = now'.
Proof.
  cbv zeta. split; [reflexivity | split; [reflexivity |]].
  intros numberToString' now' name' targetAPY' maxImpermanentLoss' riskTolerance'.
  unfold createCustomStrategy; cbn [RebalancingStrategy.id].
  split.
  - intros H. apply append_inj_r in H. now apply string_of_integer_inj.
  - intros ->. reflexivity.
Qed.

(** ** The analysis loop *)

Section Analysis.

Import RebalancingEngine.

Variable self : RebalancingEngine.t.
Variable now : Date.

Lemma analyzePosition_unmatched (position : LPPosition.t) :
  find (isCurrentPool position) (availablePools self) = None ->
  analyzePosition self now position = None.
Proof using Type.
  intros H. unfold analyzePosition. now rewrite H.
Qed.

(** The loop only ever sees the recommendations. *)
Lemma loop_records (ps : list LPPosition.t) (acc : Totals) :
  fold_left (analyzeStep self now) ps acc
  = fold_left record (omap (analyzePosition self now) ps) acc.
Proof using Type.
  revert acc. induction ps as [| p ps IH]; intros acc; [reflexivity |].
  simpl. unfold analyzeStep at 2.
  destruct (analyzePosition self now p); simpl; apply IH.
Qed.

Lemma records_totals (rs : list RebalancingRecommendation.t) (acc : Totals) :
  let t := fold_left record rs acc in
  recommendations t = (recommendations acc ++ rs)%list
  /\ positionsAtRisk t
     = (positionsAtRisk acc + length (List.filter isAtRisk rs))%nat
  /\ underperformingPositions t
     = (underperformingPositions acc + length (List.filter isUnderperforming rs))%nat
  /\ totalPotentialGain t = fold_left addGain rs (totalPotentialGain acc).
Proof using Type.
  revert acc. induction rs as [| r rs IH]; intros acc; simpl.
  - rewrite app_nil_r. repeat split; lia.
  - destruct (IH (record acc r)) as (H1 & H2 & H3 & H4).
    rewrite H1, H2, H3, H4. unfold record at 1 2 3 4. simpl.
    rewrite <- app_assoc. simpl.
    unfold isAtRisk, isUnderperforming, addGain.
    repeat split.
    + destruct (Level_eqb _ _); simpl; lia.
    + destruct (_ || _); simpl; lia.
Qed.

End Analysis.

(** [analyzePosition] reads the strategy and the pools of the engine, not
    its position list. *)
Lemma analyzePosition_positions_irrelevant
    (s : RebalancingStrategy.t) (ps1 ps2 : list LPPosition.t)
    (pools : list PoolData.t) (now : Date) (position : LPPosition.t) :
  RebalancingEngine.analyzePosition (RebalancingEngine.mk s ps1 pools) now position
  = RebalancingEngine.analyzePosition (RebalancingEngine.mk s ps2 pools) now position.
Proof. reflexivity. Qed.

(** C4.  A position without matching pool gets no recommendation ([null],
    no exception: the embedding is a total function).  The recommendation
    list is the list of recommendations of the positions that have one, in
    input order, and [positionsAtRisk], [underperformingPositions] and
    [totalPotentialGain] are functions of that list alone; dropping an
    unmatched position from the input changes none of them. *)
Theorem analyzePositions_counts_recommendations
    (self : RebalancingEngine.t) (now : Date)
    (positions : list LPPosition.t) (pools : list PoolData.t) :
  let self' := fst (RebalancingEngine.analyzePositions self now positions pools) in
  let analysis := snd (RebalancingEngine.analyzePositions self now positions pools) in
  (forall position,
      find (RebalancingEngine.isCurrentPool position) pools = None ->
      RebalancingEngine.analyzePosition self' now position = None)
  /\ RebalancingAnalysis.recommendations analysis
     = omap (RebalancingEngine.analyzePosition self' now) positions
  /\ RebalancingAnalysis.positionsAtRisk analysis
     = length (List.filter isAtRisk (RebalancingAnalysis.recommendations analysis))
  /\ RebalancingAnalysis.underperformingPositions analysis
     = length (List.filter isUnderperforming
                 (RebalancingAnalysis.recommendations analysis))
  /\ RebalancingAnalysis.totalPotentialGain analysis
     = potentialGain (RebalancingAnalysis.recommendations analysis)
  /\ (forall before unmatched after,
         positions = (before ++ unmatched :: after)%list ->
         find (RebalancingEngine.isCurrentPool unmatched) pools = None ->
         let analysis' :=
           snd (RebalancingEngine.analyzePositions self now (before ++ after)%list pools) in
         RebalancingAnalysis.recommendations analysis'
           = RebalancingAnalysis.recommendations analysis
         /\ RebalancingAnalysis.positionsAtRisk analysis'
            = RebalancingAnalysis.positionsAtRisk analysis
         /\ RebalancingAnalysis.underperformingPositions analysis'
            = RebalancingAnalysis.underperformingPositions analysis
         /\ RebalancingAnalysis.totalPotentialGain analysis'
            = RebalancingAnalysis.totalPotentialGain analysis).
Proof.
  cbv zeta.
  assert (forall ps,
             let self' := RebalancingEngine.mk (RebalancingEngine.strategy self) ps pools in
             let a := snd (RebalancingEngine.analyzePositions self now ps pools) in
             let rs := omap (RebalancingEngine.analyzePosition self' now) ps in
             RebalancingAnalysis.recommendations a = rs
             /\ RebalancingAnalysis.positionsAtRisk a = length (List.filter isAtRisk rs)
             /\ RebalancingAnalysis.underperformingPositions a
                = length (List.filter isUnderperforming rs)
             /\ RebalancingAnalysis.totalPotentialGain a = potentialGain rs) as Hrun.
  { intros ps. cbv zeta. unfold RebalancingEngine.analyzePositions. simpl.
    rewrite loop_records.
    destruct (records_totals
                (omap (RebalancingEngine.analyzePosition
                         (RebalancingEngine.mk (RebalancingEngine.strategy self) ps pools)
                         now) ps)
                RebalancingEngine.noTotals) as (H1 & H2 & H3 & H4).
    rewrite H1, H2, H3, H4. simpl. auto. }
  destruct (Hrun positions) as (H1 & H2 & H3 & H4).
  split; [| split; [| split; [| split; [| split]]]].
  - intros position Hnone. now apply analyzePosition_unmatched.
  - exact H1.
  - now rewrite H1.
  - now rewrite H1.
  - now rewrite H1.
  - intros before unmatched after -> Hnone. cbv zeta.
    destruct (Hrun (before ++ after)%list) as (G1 & G2 & G3 & G4).
    destruct (Hrun (before ++ unmatched :: after)%list) as (K1 & K2 & K3 & K4).
    assert (omap (RebalancingEngine.analyzePosition
                    (RebalancingEngine.mk (RebalancingEngine.strategy self)
                       (before ++ after)%list pools) now) (before ++ after)%list
            = omap (RebalancingEngine.analyzePosition
                      (RebalancingEngine.mk (RebalancingEngine.strategy self)
                         (before ++ unmatched :: after)%list pools) now)
                (before ++ unmatched :: after)%list) as Hsame.
    { rewrite !omap_app. simpl.
      rewrite (analyzePosition_unmatched
                 (RebalancingEngine.mk (RebalancingEngine.strategy self)
                    (before ++ unmatched :: after)%list pools) now unmatched Hnone).
      reflexivity. }
    rewrite G1, G2, G3, G4, K1, K2, K3, K4, Hsame. auto.
Qed.

(** Two fetched positions, of which only the first has a pool. *)
Lemma analyzePositions_counts_recommendations_witness :
  RebalancingEngine.analyzePosition
    (fst (RebalancingEngine.analyzePositions (balancedEngine [])
            (20 * oneDay)%Z [wethUsdc; daiWbtc] mockPools))
    (20 * oneDay)%Z daiWbtc = None
  /\ length (RebalancingAnalysis.recommendations
               (snd (RebalancingEngine.analyzePositions (balancedEngine [])
                       (20 * oneDay)%Z [wethUsdc; daiWbtc] mockPools))) = 1%nat.
Proof.
  pose proof (analyzePositions_counts_recommendations (balancedEngine [])
                (20 * oneDay)%Z [wethUsdc; daiWbtc] mockPools) as H.
  cbv zeta in H. destruct H as (Hnone & Hrecs & _).
  split.
  - apply Hnone. reflexivity.
  - rewrite Hrecs. reflexivity.
Defined.

(** ** Pool risk scores *)

Section PoolScores.

Import JS PoolRiskEngine.

(** Every entry of the protocol table. *)
Lemma protocolRiskDatabase_entries (protocol : string) (d : ProtocolRiskData.t) :
  protocolRiskDatabase !! protocol = Some d ->
  d = ProtocolRiskData.mk "Uniswap V3" 95 [1000000000; 1100000000; 1200000000] 0 1200
  \/ d = ProtocolRiskData.mk "Aerodrome" 85 [100000000; 150000000; 200000000] 0 365
  \/ d = ProtocolRiskData.mk "BaseSwap" 70 [50000000; 45000000; 40000000] 1 180
  \/ d = ProtocolRiskData.mk "SushiSwap" 80 [500000000; 480000000; 520000000] 2 1400.
Proof using Type.
  unfold protocolRiskDatabase. intros H.
  repeat (apply lookup_insert_Some in H; destruct H as [[_ <-] | [_ H]]; [tauto |]).
  apply lookup_singleton_Some in H. destruct H as [_ <-]. tauto.
Qed.

Ltac close_between :=
  eexists; split; [reflexivity |]; vm_compute; split; discriminate.

Lemma getProtocolData_own (protocol : string) (d : ProtocolRiskData.t) :
  getProtocolData protocol = OwnProperty d ->
  protocolRiskDatabase !! protocol = Some d.
Proof using Type.
  unfold getProtocolData.
  destruct (protocolRiskDatabase !! protocol) as [d' |].
  - intros H. injection H as ->. reflexivity.
  - destruct (existsb (String.eqb protocol) objectPrototypeKeys); discriminate.
Qed.

Lemma calculateSmartContractRisk_bounds (protocol : string) :
  ~ inheritedKey protocol ->
  finite_between 0 100 (calculateSmartContractRisk protocol).
Proof using Type.
  unfold inheritedKey, calculateSmartContractRisk. intros Hown.
  destruct (getProtocolData protocol) as [d | |] eqn:E;
    [| congruence | close_between].
  apply getProtocolData_own, protocolRiskDatabase_entries in E.
  destruct E as [-> | [-> | [-> | ->]]]; close_between.
Qed.

Lemma calculateSmartContractRisk_inherited (protocol : string) :
  inheritedKey protocol -> calculateSmartContractRisk protocol = NaN.
Proof using Type.
  unfold inheritedKey, calculateSmartContractRisk. intros ->. reflexivity.
Qed.

Lemma calculateProtocolRisk_bounds (protocol : string) :
  ~ inheritedKey protocol ->
  exists risk, calculateProtocolRisk protocol = Some risk
               /\ finite_between 0 100 risk.
Proof using Type.
  unfold inheritedKey, calculateProtocolRisk. intros Hown.
  destruct (getProtocolData protocol) as [d | |] eqn:E; [| congruence |].
  - apply getProtocolData_own, protocolRiskDatabase_entries in E.
    destruct E as [-> | [-> | [-> | ->]]];
      (eexists; split; [reflexivity | close_between]).
  - eexists; split; [reflexivity | close_between].
Qed.

Lemma calculateProtocolRisk_throws (protocol : string) :
  calculateProtocolRisk protocol = None <-> inheritedKey protocol.
Proof using Type.
  unfold inheritedKey, calculateProtocolRisk.
  destruct (getProtocolData protocol) as [d | |]; split;
    first [discriminate | reflexivity].
Qed.

Lemma assessPool_throws (pool : PoolData.t) :
  assessPool pool = None <-> inheritedKey (PoolData.protocol pool).
Proof using Type.
  rewrite <- calculateProtocolRisk_throws. unfold assessPool, poolFactors.
  destruct (calculateProtocolRisk (PoolData.protocol pool)); split;
    first [discriminate | reflexivity].
Qed.

Lemma calculateImpermanentLossRisk_bounds (pool : PoolData.t) :
  finite_between 0 100 (calculateImpermanentLossRisk pool).
Proof using Type.
  unfold calculateImpermanentLossRisk.
  destruct (includes (toLowerCase (PoolData.pair pool)) "eth"
            && includes (toLowerCase (PoolData.pair pool)) "usdc");
  [| destruct (includes (toLowerCase (PoolData.pair pool)) "usdc"
               && includes (toLowerCase (PoolData.pair pool)) "usdt");
     [| destruct (includes (toLowerCase (PoolData.pair pool)) "btc"
                  && includes (toLowerCase (PoolData.pair pool)) "eth") ] ];
  destruct (gtb (PoolData.apy pool) 20);
  try destruct (gtb (PoolData.apy pool) 10);
  close_between.
Qed.

Lemma nonnegative_add (x y : number) :
  nonnegative x -> nonnegative y -> nonnegative (add x y).
Proof using Type.
  destruct x, y; simpl; try tauto. intros. lra.
Qed.

(** The penalty [(bound - x) * 300] that is added when [x < bound]. *)
Lemma shortfall_nonnegative (bound : Q) (x : number) :
  ngtb (Num bound) x = true ->
  nonnegative (mul (sub (Num bound) x) (Num 300)).
Proof using Type.
  destruct x as [r | | |]; simpl; try discriminate; [| trivial].
  intros H. apply gtb_true in H. lra.
Qed.

(** [Math.min(100, x)]. *)
Lemma cap_at_100 (x : number) :
  nonnegative x -> finite_between 0 100 (min2 (Num 100) x).
Proof using Type.
  destruct x as [r | | |]; simpl; try tauto; intros H.
  - unfold gtb. compare_cases r 100; eexists; (split; [reflexivity | lra]).
  - exists 100. split; [reflexivity | lra].
Qed.

(** The liquidity score is finite whatever [volume24h / tvl] is: a quotient
    that is [NaN] or [Infinity] adds nothing, and [-Infinity] is capped. *)
Lemma calculateLiquidityRisk_bounds (pool : PoolData.t) :
  finite_between 0 100 (calculateLiquidityRisk pool).
Proof using Type.
  unfold calculateLiquidityRisk, config.liquidityThreshold.
  apply cap_at_100. apply nonnegative_add; [| cbn [nonnegative]; lra].
  assert (nonnegative
            (if ltb (PoolData.tvl pool) 100000
             then add (Num 0) (Num ((1 - PoolData.tvl pool / 100000) * 50))
             else Num 0)) as Htvl.
  { compare_cases (PoolData.tvl pool) 100000; cbn [add nonnegative];
      unfold Qdiv; change (/ 100000) with (1 # 100000); lra. }
  destruct (ngtb (Num 0.1)
              (div (Num (PoolData.volume24h pool)) (Num (PoolData.tvl pool))))
    eqn:Hratio; [| exact Htvl].
  apply nonnegative_add; [exact Htvl |]. now apply shortfall_nonnegative.
Qed.

Lemma weightedOverall_finite (a b c d : Q) :
  weightedOverall (Num a) (Num b) (Num c) (Num d)
  = Num (a * weights.smartContract + b * weights.liquidity
         + c * weights.impermanentLoss + d * weights.protocol).
Proof using Type. reflexivity. Qed.

Lemma Math_round_nearest (x : Q) :
  x - (1 # 2) < inject_Z (Math_round x) <= x + (1 # 2).
Proof using Type.
  unfold Math_round. pose proof (Qfloor_le (x + (1 # 2))) as Hle.
  pose proof (Qlt_floor (x + (1 # 2))) as Hlt.
  rewrite inject_Z_plus in Hlt. change (inject_Z 1) with 1 in Hlt. lra.
Qed.

Lemma Math_round_between (x : Q) :
  0 <= x <= 100 -> (0 <= Math_round x <= 100)%Z.
Proof using Type.
  intros [H0 H100]. unfold Math_round. split.
  - change 0%Z with (Qfloor (inject_Z 0)) at 1. apply Qfloor_resp_le.
    change (inject_Z 0) with 0. lra.
  - change 100%Z with (Qfloor (100 + (1 # 2))). apply Qfloor_resp_le. lra.
Qed.

End PoolScores.

(** For a pool whose protocol is a key of the risk table or no property
    name at all, the four factor scores of [assessPool] are finite,
    [overall] is their sum weighted by the configured weights and rounded
    to the nearest integer, the weights sum to 1, and [overall] lies
    between 0 and 100. *)
Lemma assessPool_overall (pool : PoolData.t) :
  ~ inheritedKey (PoolData.protocol pool) ->
  exists (assessment : RiskAssessment.t)
         (smartContract liquidity impermanentLoss protocol : Q),
    let weighted :=
      smartContract * PoolRiskEngine.weights.smartContract
      + liquidity * PoolRiskEngine.weights.liquidity
      + impermanentLoss * PoolRiskEngine.weights.impermanentLoss
      + protocol * PoolRiskEngine.weights.protocol in
    PoolRiskEngine.assessPool pool = Some assessment
    /\ RiskAssessment.factors assessment
       = RiskFactors.mk (JS.Num smartContract) (JS.Num liquidity)
           (JS.Num impermanentLoss) (JS.Num protocol)
    /\ (0 <= smartContract <= 100 /\ 0 <= liquidity <= 100
        /\ 0 <= impermanentLoss <= 100 /\ 0 <= protocol <= 100)
    /\ RiskAssessment.overall assessment
       = JS.Num (inject_Z (JS.Math_round weighted))
    /\ weighted - (1 # 2) < inject_Z (JS.Math_round weighted) <= weighted + (1 # 2)
    /\ PoolRiskEngine.weights.smartContract + PoolRiskEngine.weights.liquidity
       + PoolRiskEngine.weights.impermanentLoss + PoolRiskEngine.weights.protocol == 1
    /\ (0 <= JS.Math_round weighted <= 100)%Z.
Proof.
  intros Hown.
  destruct (calculateSmartContractRisk_bounds (PoolData.protocol pool) Hown)
    as (sc & Hsc & Hsc_b).
  destruct (calculateLiquidityRisk_bounds pool) as (li & Hli & Hli_b).
  destruct (calculateImpermanentLossRisk_bounds pool) as (il & Hil & Hil_b).
  destruct (calculateProtocolRisk_bounds (PoolData.protocol pool) Hown)
    as (risk & Hrisk & pr & -> & Hpr_b).
  eexists. exists sc, li, il, pr. cbv zeta.
  unfold PoolRiskEngine.assessPool, PoolRiskEngine.poolFactors.
  rewrite Hrisk, Hsc, Hli, Hil.
  split; [reflexivity |].
  unfold PoolRiskEngine.assessFactors.
  cbn [RiskAssessment.factors RiskAssessment.overall
    RiskFactors.smartContract RiskFactors.liquidity RiskFactors.impermanentLoss
    RiskFactors.protocol].
  rewrite weightedOverall_finite.
  split; [reflexivity |]. split; [tauto |].
  split; [reflexivity | split; [apply Math_round_nearest |]].
  split; [reflexivity |].
  apply Math_round_between.
  unfold PoolRiskEngine.weights.smartContract, PoolRiskEngine.weights.liquidity,
    PoolRiskEngine.weights.impermanentLoss, PoolRiskEngine.weights.protocol,
    config.protocolRiskWeights.smartContract, config.protocolRiskWeights.liquidity,
    config.protocolRiskWeights.impermanentLoss, config.protocolRiskWeights.protocol.
  lra.
Qed.

(** C3 (code bug).  A pool whose protocol is named like a property of
    [Object.prototype] ("constructor", say) is not treated as an unknown
    protocol: the table lookup finds the inherited value, the
    smart-contract score is [NaN] instead of the default 70, reading
    [tvlHistory.length] throws, and [assessPool] and [assessPortfolio]
    return no assessment, whatever the pool's metrics are. *)
Theorem assessPool_inherited_protocol_throws
    (pair : string) (apy tvl volume24h fees24h riskScore : Q) :
  let pool := PoolData.mk "constructor" pair apy tvl volume24h fees24h riskScore in
  inheritedKey "constructor"
  /\ PoolRiskEngine.calculateSmartContractRisk "constructor" = JS.NaN
  /\ PoolRiskEngine.calculateProtocolRisk "constructor" = None
  /\ PoolRiskEngine.assessPool pool = None
  /\ PoolRiskEngine.assessPortfolio [pool] = None
  /\ PoolRiskEngine.calculateSmartContractRisk "Constructor Finance" = JS.Num 70
  /\ PoolRiskEngine.calculateProtocolRisk "Constructor Finance" = Some (JS.Num 60).
Proof.
  cbv zeta. repeat split; reflexivity.
Qed.

(** ** Diversification of a portfolio *)

Section Diversification.
Import JS PositionRiskEngine.

Lemma totalValue_from (ps : list LPPosition.t) (a : Q) :
  fold_left (fun sum p => sum + LPPosition.currentValue p) ps a == a + sumOfValues (values ps).
Proof.
  revert a. induction ps as [| p ps IH]; intros a; simpl.
  - lra.
  - rewrite IH. lra.
Qed.

Lemma totalValue_sumOfValues (ps : list LPPosition.t) : totalValue ps == sumOfValues (values ps).
Proof. unfold totalValue. rewrite totalValue_from. lra. Qed.

Lemma totalValue_snoc (ps : list LPPosition.t) (p : LPPosition.t) :
  totalValue (ps ++ [p])%list = totalValue ps + LPPosition.currentValue p.
Proof. unfold totalValue. now rewrite fold_left_app. Qed.

Lemma sumOfValues_snoc (vs : list Q) (v : Q) : sumOfValues (vs ++ [v])%list == sumOfValues vs + v.
Proof. induction vs as [| x vs IH]; simpl; [lra | rewrite IH; lra]. Qed.

Lemma sumOfSquares_snoc (vs : list Q) (v : Q) :
  sumOfSquares (vs ++ [v])%list == sumOfSquares vs + v * v.
Proof. induction vs as [| x vs IH]; simpl; [lra | rewrite IH; lra]. Qed.

Lemma sumOfValues_positive (vs : list Q) :
  Forall (fun x => 0 < x) vs -> vs <> [] -> 0 < sumOfValues vs.
Proof.
  induction 1 as [| x vs Hx Hvs IH]; [congruence |]. intros _. simpl.
  destruct vs as [| y vs]; [simpl; lra |].
  assert (0 < sumOfValues (y :: vs)) by (apply IH; congruence). lra.
Qed.

Lemma sumOfSquares_nonnegative (vs : list Q) : 0 <= sumOfSquares vs.
Proof. induction vs as [| x vs IH]; simpl; [lra | nra]. Qed.

(** For a value below every element, [v * sum <= sum of squares]. *)
Lemma small_value_times_sum (v : Q) (vs : list Q) :
  0 < v -> Forall (fun x => v <= x) vs -> v * sumOfValues vs <= sumOfSquares vs.
Proof.
  intros Hv. induction 1 as [| x vs Hx Hvs IH]; simpl; [lra | nra].
Qed.

Lemma div_finite (a T : Q) :
  Qeq_bool T 0 = false -> div (Num a) (Num T) = Num (a / T).
Proof. intros H. cbn [div]. now rewrite H. Qed.

Lemma hhi_from (T : Q) (ps : list LPPosition.t) (acc : Q) :
  Qeq_bool T 0 = false ->
  fold_left (fun sum weight => add sum (mul weight weight))
    (map (fun p => div (Num (LPPosition.currentValue p)) (Num T)) ps) (Num acc)
  = Num (fold_left
           (fun sum p => sum + (LPPosition.currentValue p / T) * (LPPosition.currentValue p / T))
           ps acc).
Proof.
  intros HT. revert acc. induction ps as [| p ps IH]; intros acc; [reflexivity |].
  cbn [map fold_left]. rewrite (div_finite _ _ HT). cbn [mul add]. apply IH.
Qed.

Lemma hhi_value (T : Q) (ps : list LPPosition.t) (acc : Q) :
  ~ T == 0 ->
  fold_left
    (fun sum p => sum + (LPPosition.currentValue p / T) * (LPPosition.currentValue p / T))
    ps acc
  == acc + sumOfSquares (values ps) / (T * T).
Proof.
  intros HT. revert acc. induction ps as [| p ps IH]; intros acc; simpl.
  - field. exact HT.
  - rewrite IH. field. exact HT.
Qed.

(** The size diversity of a portfolio of positive total value. *)
Lemma calculateSizeDiversity_value (ps : list LPPosition.t) :
  0 < totalValue ps ->
  exists x,
    calculateSizeDiversity ps = Num x
    /\ 0 <= x
    /\ (1 - sumOfSquares (values ps) / (totalValue ps * totalValue ps)) * 100 <= x
    /\ (x == 0
        \/ x == (1 - sumOfSquares (values ps) / (totalValue ps * totalValue ps)) * 100).
Proof.
  intros HT. unfold calculateSizeDiversity.
  assert (~ totalValue ps == 0) as Hne by lra.
  assert (Qeq_bool (totalValue ps) 0 = false) as Hb.
  { destruct (Qeq_bool (totalValue ps) 0) eqn:E; [| reflexivity].
    apply Qeq_bool_iff in E. contradiction. }
  rewrite (hhi_from _ _ _ Hb).
  pose proof (hhi_value (totalValue ps) ps 0 Hne) as Hv.
  cbn [sub neg add mul max2 ngtb].
  set (h := fold_left _ ps 0) in *.
  set (c := sumOfSquares (values ps) / (totalValue ps * totalValue ps)) in *.
  unfold gtb. compare_cases 0 ((1 + - h) * 100); eexists; (split; [reflexivity |]).
  - split; [lra |]. split; [lra | right; lra].
  - split; [lra |]. split; [lra | left; lra].
Qed.

(** Adding a value [v] with [v * T <= S] does not raise the
    Herfindahl-Hirschman index [S / T^2]. *)
Lemma hhi_not_raised (S T v : Q) :
  0 < T -> 0 <= S -> 0 < v -> v * T <= S ->
  (S + v * v) / ((T + v) * (T + v)) <= S / (T * T).
Proof.
  intros HT HS Hv Hsmall.
  apply Qle_shift_div_r; [nra |].
  assert (S / (T * T) * ((T + v) * (T + v)) == S * ((T + v) * (T + v)) / (T * T)) as E
    by (field; lra).
  rewrite E. apply Qle_shift_div_l; [nra |].
  assert (0 <= v * T) as HvT by (apply Qlt_le_weak, Qmult_lt_0_compat; lra).
  assert (v * T * (v * T) <= S * (v * T))
    by (apply Qmult_le_compat_r; [lra | exact HvT]).
  assert (0 <= S * (v * T)) by (apply Qmult_le_0_compat; [lra | exact HvT]).
  assert (0 <= S * (v * v))
    by (apply Qmult_le_0_compat; [lra | apply Qlt_le_weak, Qmult_lt_0_compat; lra]).
  lra.
Qed.

Lemma size_monotone (n m : nat) (k : Q) :
  (n <= m)%nat -> 0 < k ->
  Math_min 100 (inject_Z (Z.of_nat n) / k * 100)
  <= Math_min 100 (inject_Z (Z.of_nat m) / k * 100).
Proof.
  intros Hnm Hk.
  assert (inject_Z (Z.of_nat n) / k * 100 <= inject_Z (Z.of_nat m) / k * 100) as Hle.
  { apply Qmult_le_compat_r; [| lra].
    unfold Qdiv. apply Qmult_le_compat_r.
    - rewrite <- Zle_Qle. lia.
    - apply Qlt_le_weak, Qinv_lt_0_compat, Hk. }
  destruct (Math_min_spec 100 (inject_Z (Z.of_nat n) / k * 100)) as [[? ->] | [? ->]];
  destruct (Math_min_spec 100 (inject_Z (Z.of_nat m) / k * 100)) as [[? ->] | [? ->]];
  lra.
Qed.

Lemma size_diversity_nonnegative (n : nat) (k : Q) :
  0 < k -> 0 <= Math_min 100 (inject_Z (Z.of_nat n) / k * 100).
Proof.
  intros Hk.
  assert (0 <= inject_Z (Z.of_nat n) / k * 100).
  { apply Qmult_le_0_compat; [| lra]. unfold Qdiv. apply Qmult_le_0_compat.
    - change 0 with (inject_Z 0). rewrite <- Zle_Qle. lia.
    - apply Qlt_le_weak, Qinv_lt_0_compat, Hk. }
  destruct (Math_min_spec 100 (inject_Z (Z.of_nat n) / k * 100)) as [[? ->] | [? ->]]; lra.
Qed.

Lemma protocolSet_snoc (ps : list LPPosition.t) (p : LPPosition.t) :
  (size (protocolSet ps) <= size (protocolSet (ps ++ [p])%list))%nat.
Proof.
  apply subseteq_size. unfold protocolSet. rewrite map_app, list_to_set_app_L.
  apply union_subseteq_l.
Qed.

Lemma tokenSet_snoc (ps : list LPPosition.t) (p : LPPosition.t) :
  (size (tokenSet ps) <= size (tokenSet (ps ++ [p])%list))%nat.
Proof.
  apply subseteq_size. unfold tokenSet. rewrite flat_map_app, list_to_set_app_L.
  apply union_subseteq_l.
Qed.


(** The score of a portfolio of at least two positions and positive value. *)
Lemma calculateDiversificationScore_value (ps : list LPPosition.t) :
  (2 <= length ps)%nat -> 0 < totalValue ps ->
  exists x,
    calculateDiversificationScore ps
    = Num (protocolDiversity ps * 0.4 + tokenDiversity ps * 0.4 + x * 0.2)
    /\ 0 <= x
    /\ (1 - sumOfSquares (values ps) / (totalValue ps * totalValue ps)) * 100 <= x
    /\ (x == 0
        \/ x == (1 - sumOfSquares (values ps) / (totalValue ps * totalValue ps)) * 100).
Proof.
  intros Hlen HT. unfold calculateDiversificationScore.
  destruct (length ps <=? 1)%nat eqn:E; [apply Nat.leb_le in E; lia |].
  destruct (calculateSizeDiversity_value ps HT) as (x & -> & Hx).
  exists x. split; [reflexivity | exact Hx].
Qed.

Lemma totalValue_positive (ps : list LPPosition.t) :
  Forall (fun p => 0 < LPPosition.currentValue p) ps -> ps <> [] ->
  0 < totalValue ps.
Proof.
  intros Hpos Hne. rewrite totalValue_sumOfValues. apply sumOfValues_positive.
  - unfold values. apply Forall_map. exact Hpos.
  - unfold values. destruct ps; [congruence | discriminate].
Qed.

(** C9 (amended).  In a portfolio of positions with positive values, adding
    one more position (in a new protocol and new tokens, or not) whose
    value is positive and does not exceed the value of any position already
    held never decreases [diversificationScore]. *)
Theorem diversificationScore_small_newcomer
    (positions : list LPPosition.t) (newcomer : LPPosition.t) :
  Forall (fun p => 0 < LPPosition.currentValue p) positions ->
  0 < LPPosition.currentValue newcomer ->
  Forall (fun p => LPPosition.currentValue newcomer <= LPPosition.currentValue p)
    positions ->
  finite_le (calculateDiversificationScore positions)
    (calculateDiversificationScore (positions ++ [newcomer])%list).
Proof.
  intros Hpos Hv Hsmall.
  assert (Forall (fun p => 0 < LPPosition.currentValue p) (positions ++ [newcomer])%list)
    as Hpos' by (apply Forall_app; split; [exact Hpos | repeat constructor; exact Hv]).
  destruct positions as [| a [| b rest]].
  - unfold calculateDiversificationScore. cbn [length app Nat.leb finite_le]. lra.
  - destruct (calculateDiversificationScore_value ([a] ++ [newcomer])%list)
      as (x' & -> & Hx0 & _).
    + simpl. lia.
    + apply totalValue_positive; [exact Hpos' | discriminate].
    + change (calculateDiversificationScore [a]) with (Num 0). cbn [finite_le].
      pose proof (size_diversity_nonnegative
                    (size (protocolSet ([a] ++ [newcomer])%list)) 5 ltac:(lra)).
      pose proof (size_diversity_nonnegative
                    (size (tokenSet ([a] ++ [newcomer])%list)) 10 ltac:(lra)).
      unfold protocolDiversity, tokenDiversity. lra.
  - set (ps := a :: b :: rest) in *.
    assert (0 < totalValue ps) as HT
      by (apply totalValue_positive; [exact Hpos | discriminate]).
    destruct (calculateDiversificationScore_value ps) as (x & -> & Hx0 & HxX & Hx);
      [simpl; lia | exact HT |].
    destruct (calculateDiversificationScore_value (ps ++ [newcomer])%list)
      as (x' & -> & Hx0' & HxX' & _);
      [rewrite length_app; simpl; lia
      | apply totalValue_positive; [exact Hpos' | destruct ps; discriminate] |].
    cbn [finite_le].
    pose proof (size_monotone _ _ 5 (protocolSet_snoc ps newcomer) ltac:(lra)) as Hp.
    pose proof (size_monotone _ _ 10 (tokenSet_snoc ps newcomer) ltac:(lra)) as Ht.
    fold (protocolDiversity ps) in Hp. fold (protocolDiversity (ps ++ [newcomer])%list) in Hp.
    fold (tokenDiversity ps) in Ht. fold (tokenDiversity (ps ++ [newcomer])%list) in Ht.
    assert (x <= x') as Hxx.
    { rewrite totalValue_snoc in HxX'.
      unfold values in HxX'. rewrite map_app in HxX'. fold (values ps) in HxX'.
      cbn [map] in HxX'.
      set (v := LPPosition.currentValue newcomer) in *.
      set (T := totalValue ps) in *.
      assert (sumOfSquares (values ps ++ [v])%list / ((T + v) * (T + v))
              <= sumOfSquares (values ps) / (T * T)) as Hhhi.
      { rewrite sumOfSquares_snoc. apply hhi_not_raised; try assumption.
        - apply sumOfSquares_nonnegative.
        - unfold T. rewrite totalValue_sumOfValues. apply small_value_times_sum; [exact Hv |].
          unfold values. apply Forall_map. exact Hsmall. }
      set (c' := sumOfSquares (values ps ++ [v])%list / ((T + v) * (T + v))) in *.
      set (c := sumOfSquares (values ps) / (T * T)) in *.
      destruct Hx as [Hx | Hx]; lra. }
    lra.
Qed.

End Diversification.

Ltac decide_not_in :=
  match goal with
  | |- ?x ∉ ?s => apply (bool_decide_eq_false_1 (x ∈ s)); vm_compute; reflexivity
  end.

(** C9 (what fails).  Ten equal positions in one pool score 34; a
    newcomer in a new protocol and two new tokens, a thousand times their
    size, brings the score down to about 32.4: the two count terms gain 16
    points, the size term loses 17.6. *)
Lemma diversificationScore_large_newcomer_counterexample :
  Forall (fun p => 0 < LPPosition.currentValue p)
    (tenSmallPositions ++ [largeNewcomer])%list
  /\ (LPPosition.protocol largeNewcomer
        ∉ PositionRiskEngine.protocolSet tenSmallPositions)
  /\ (LPPosition.token0 largeNewcomer ∉ PositionRiskEngine.tokenSet tenSmallPositions)
  /\ (LPPosition.token1 largeNewcomer ∉ PositionRiskEngine.tokenSet tenSmallPositions)
  /\ finite_between 34 34
       (PositionRiskEngine.calculateDiversificationScore tenSmallPositions)
  /\ finite_lt
       (PositionRiskEngine.calculateDiversificationScore
          (tenSmallPositions ++ [largeNewcomer])%list)
       (PositionRiskEngine.calculateDiversificationScore tenSmallPositions).
Proof.
  split; [repeat constructor |].
  split; [decide_not_in |].
  split; [decide_not_in |].
  split; [decide_not_in |].
  split; [| vm_compute; reflexivity].
  eexists. split; [reflexivity |]. vm_compute. split; discriminate.
Qed.

(** The newcomer may be as large as the positions held. *)
Lemma diversificationScore_small_newcomer_witness :
  finite_le
    (PositionRiskEngine.calculateDiversificationScore tenSmallPositions)
    (PositionRiskEngine.calculateDiversificationScore
       (tenSmallPositions ++ [smallPosition])%list).
Proof.
  apply (diversificationScore_small_newcomer tenSmallPositions smallPosition).
  - repeat constructor.
  - reflexivity.
  - repeat constructor; discriminate.
Defined.

(** ** Degenerate portfolios *)

Section Degenerate.

Import JS PositionRiskEngine.

Variable assessPosition : LPPosition.t -> PoolData.t -> DetailedRiskAssessment.t.

Lemma validAssessments_unmatched
    (positions : list LPPosition.t) (poolsData : list PoolData.t) :
  Forall (fun p => find (matchesPool p) poolsData = None) positions ->
  validAssessments assessPosition positions poolsData = [].
Proof using Type.
  unfold validAssessments. induction 1 as [| p ps Hp Hps IH]; [reflexivity |].
  simpl. unfold positionAssessment at 1. rewrite Hp. exact IH.
Qed.

End Degenerate.

(** C8 (what fails).  For no position at all the position-level
    [assessPortfolio] reports its constant market risk 45 and maximum
    drawdown 15, so the result is not all-zero; the record has no
    recommendation field. *)
Lemma assessPortfolio_no_positions_counterexample :
  PortfolioRiskMetrics.marketRisk
    (PositionRiskEngine.assessPortfolio noAssessment [] []) = JS.Num 45
  /\ PortfolioRiskMetrics.maxDrawdown
       (PositionRiskEngine.assessPortfolio noAssessment [] []) = JS.Num 15
  /\ JS.Num 45 <> JS.Num 0.
Proof. split; [reflexivity | split; [reflexivity | discriminate]]. Qed.

(** The two ratios that divide by the portfolio's total: for no position
    [Math.max()] of nothing is [-Infinity] and the total is 0, so both are
    [-Infinity].  The sibling metrics return 0 on an empty input before
    they divide. *)
Lemma concentration_and_protocol_risk_no_positions :
  PositionRiskEngine.calculateConcentrationRisk [] = JS.NegInfinity
  /\ PositionRiskEngine.calculatePortfolioProtocolRisk [] = JS.NegInfinity.
Proof. split; reflexivity. Qed.

(** C8 (amended).  The pool-level [assessPortfolio] applied to no pool
    returns the all-zero assessment whose only recommendation is "No
    positions to assess".  The position-level [assessPortfolio], applied to
    positions none of which matches a pool (in particular to no position),
    returns total risk 0 and liquidity risk 0 next to its constants: market
    risk 45, maximum drawdown 15, risk-adjusted return 12/25 and Sharpe
    ratio 11.95/25; for no position its diversification score and value at
    risk are 0 as well. *)
Theorem assessPortfolio_degenerate
    (assessPosition : LPPosition.t -> PoolData.t -> DetailedRiskAssessment.t)
    (positions : list LPPosition.t) (poolsData : list PoolData.t) :
  Forall (fun p => find (PositionRiskEngine.matchesPool p) poolsData = None)
    positions ->
  let zero := JS.Num 0 in
  PoolRiskEngine.assessPortfolio []
    = Some (RiskAssessment.mk zero zero zero zero zero
              (RiskFactors.mk zero zero zero zero) ["No positions to assess"])
  /\ let metrics :=
       PositionRiskEngine.assessPortfolio assessPosition positions poolsData in
     PortfolioRiskMetrics.totalRisk metrics = zero
     /\ PortfolioRiskMetrics.liquidityRisk metrics = zero
     /\ PortfolioRiskMetrics.marketRisk metrics = JS.Num 45
     /\ PortfolioRiskMetrics.maxDrawdown metrics = JS.Num 15
     /\ PortfolioRiskMetrics.riskAdjustedReturn metrics = JS.Num (12 / 25)
     /\ PortfolioRiskMetrics.sharpeRatio metrics = JS.Num ((12 - 0.05) / 25)
     /\ (positions = [] ->
         PortfolioRiskMetrics.diversificationScore metrics = zero
         /\ finite_between 0 0 (PortfolioRiskMetrics.valueAtRisk metrics)).
Proof.
  intros Hunmatched. cbv zeta. split; [reflexivity |].
  unfold PositionRiskEngine.assessPortfolio.
  cbn [PortfolioRiskMetrics.totalRisk PortfolioRiskMetrics.liquidityRisk
       PortfolioRiskMetrics.marketRisk PortfolioRiskMetrics.maxDrawdown
       PortfolioRiskMetrics.riskAdjustedReturn PortfolioRiskMetrics.sharpeRatio
       PortfolioRiskMetrics.diversificationScore PortfolioRiskMetrics.valueAtRisk].
  rewrite (validAssessments_unmatched assessPosition positions poolsData Hunmatched).
  do 6 (split; [reflexivity |]).
  intros ->. split; [reflexivity |].
  eexists. split; [reflexivity |]. split; discriminate.
Qed.

(** One position, in a pair that none of the mock pools trades. *)
Lemma assessPortfolio_degenerate_witness :
  PortfolioRiskMetrics.totalRisk
    (PositionRiskEngine.assessPortfolio noAssessment [daiWbtc] mockPools)
  = JS.Num 0.
Proof.
  assert (Forall
            (fun p => find (PositionRiskEngine.matchesPool p) mockPools = None)
            [daiWbtc]) as Hunmatched
    by (constructor; [reflexivity | constructor]).
  pose proof (assessPortfolio_degenerate noAssessment [daiWbtc] mockPools Hunmatched)
    as H.
  cbv zeta in H. destruct H as (_ & Htotal & _). exact Htotal.
Defined.

(** ** Impermanent loss estimates *)

Lemma estimateImpermanentLoss_bounds (now : Date) (position : LPPosition.t) :
  (LPPosition.depositTimestamp position <= now)%Z ->
  0 <= RebalancingEngine.estimateImpermanentLoss now position <= 15.
Proof.
  intros Hpast. unfold RebalancingEngine.estimateImpermanentLoss, JS.Math_floor.
  set (elapsed := inject_Z (now - LPPosition.depositTimestamp position)).
  assert (0 <= elapsed) as He.
  { unfold elapsed. change 0 with (inject_Z 0). rewrite <- Zle_Qle. lia. }
  assert (0 <= inject_Z (Qfloor (elapsed / (1000 * 60 * 60 * 24)))) as Hdays.
  { change 0 with (inject_Z 0). rewrite <- Zle_Qle.
    change 0%Z with (Qfloor (inject_Z 0)). apply Qfloor_resp_le.
    change (inject_Z 0) with 0. apply Qle_shift_div_l; [reflexivity | lra]. }
  destruct (Math_min_spec
              (inject_Z (Qfloor (elapsed / (1000 * 60 * 60 * 24))) * 0.1) 15)
    as [[? ->] | [? ->]]; lra.
Qed.

(** The cap alone needs no assumption on the clock. *)
Lemma estimateImpermanentLoss_cap (now : Date) (position : LPPosition.t) :
  RebalancingEngine.estimateImpermanentLoss now position <= 15.
Proof.
  unfold RebalancingEngine.estimateImpermanentLoss.
  match goal with
  | |- JS.Math_min ?a 15 <= 15 =>
      destruct (Math_min_spec a 15) as [[? ->] | [? ->]]; lra
  end.
Qed.

(** The range of [calculateImpermanentLoss] in binary64.  Rounding to
    nearest never crosses a number of the format, so bounds by such
    numbers pass through every operation: for a positive finite ratio
    [r] with [2^(k-1) <= r < 2^k], the square root is at most [2^c] with
    [c] the half of [k] rounded up, the numerator at most [2^(c+1)], the
    denominator at least [2^j] with [c <= j], the quotient at most 2, its
    distance from 1 at most 1 and the result at most 100.  The other
    ratios are decided by evaluation. *)
Module Binary64Loss.

Import Floats.
Import Binary64Spec.
Local Open Scope Z_scope.

(** *** Values of mantissa-exponent pairs *)

Lemma pow2_pos (e : Z) : (0 < pow2 e)%Q.
Proof. apply Qpower_0_lt. reflexivity. Qed.

Lemma pow2_add (a b : Z) : (pow2 (a + b) == pow2 a * pow2 b)%Q.
Proof. apply Qpower_plus. discriminate. Qed.

Lemma pow2_le (a b : Z) : a <= b -> (pow2 a <= pow2 b)%Q.
Proof. intros H. apply Qpower_le_compat_l; [exact H | discriminate]. Qed.

Lemma pow2_lt (a b : Z) : a < b -> (pow2 a < pow2 b)%Q.
Proof. intros H. apply Qpower_lt_compat_l; [exact H | reflexivity]. Qed.

Lemma pow2_le_inv (a b : Z) : (pow2 a <= pow2 b)%Q -> a <= b.
Proof. intros H. apply (Qpower_le_compat_l_inv 2); [exact H | reflexivity]. Qed.

Lemma pow2_lt_inv (a b : Z) : (pow2 a < pow2 b)%Q -> a < b.
Proof. intros H. apply (Qpower_lt_compat_l_inv 2); [exact H | reflexivity]. Qed.

Lemma pow2_Z (n : Z) : 0 <= n -> (pow2 n == inject_Z (2 ^ n))%Q.
Proof. intros H. unfold pow2. now rewrite Zpower_Qpower. Qed.

Lemma pow2_0 : (pow2 0 == 1)%Q.
Proof. reflexivity. Qed.

Lemma pow2_succ (a : Z) : (pow2 (a + 1) == 2 * pow2 a)%Q.
Proof. rewrite pow2_add. change (pow2 1) with 2%Q. ring. Qed.

Lemma val_shift (m e n : Z) : 0 <= n -> (val (m * 2 ^ n) e == val m (e + n))%Q.
Proof.
  intros H. unfold val. rewrite inject_Z_mult, <- pow2_Z, pow2_add by exact H.
  ring.
Qed.

Lemma val_le (m1 m2 e : Z) : m1 <= m2 -> (val m1 e <= val m2 e)%Q.
Proof.
  intros H. unfold val. apply Qmult_le_compat_r.
  - now rewrite <- Zle_Qle.
  - apply Qlt_le_weak, pow2_pos.
Qed.

Lemma val_lt (m1 m2 e : Z) : m1 < m2 -> (val m1 e < val m2 e)%Q.
Proof.
  intros H. unfold val. apply Qmult_lt_compat_r.
  - apply pow2_pos.
  - now rewrite <- Zlt_Qlt.
Qed.

Lemma val_le_inv (m1 m2 e : Z) : (val m1 e <= val m2 e)%Q -> m1 <= m2.
Proof.
  intros H. destruct (Z_le_gt_dec m1 m2) as [Hle | Hgt]; [exact Hle |].
  apply Z.gt_lt, (val_lt _ _ e) in Hgt. lra.
Qed.

Lemma val_lt_inv (m1 m2 e : Z) : (val m1 e < val m2 e)%Q -> m1 < m2.
Proof.
  intros H. destruct (Z_lt_ge_dec m1 m2) as [Hlt | Hge]; [exact Hlt |].
  apply Z.ge_le, (val_le _ _ e) in Hge. lra.
Qed.

Lemma val_nonneg (m e : Z) : 0 <= m -> (0 <= val m e)%Q.
Proof.
  intros H. unfold val. apply Qmult_le_0_compat.
  - change 0%Q with (inject_Z 0). now rewrite <- Zle_Qle.
  - apply Qlt_le_weak, pow2_pos.
Qed.

Lemma val_one (e : Z) : (val 1 e == pow2 e)%Q.
Proof. unfold val. change (inject_Z 1) with 1%Q. ring. Qed.

(** *** Digits *)

Lemma digits2_pos_bounds (p : positive) :
  2 ^ (Z.pos (digits2_pos p) - 1) <= Z.pos p < 2 ^ Z.pos (digits2_pos p).
Proof.
  induction p as [p IH | p IH |]; cbn [digits2_pos].
  - rewrite Pos2Z.inj_succ.
    replace (Z.succ (Z.pos (digits2_pos p)) - 1) with (Z.pos (digits2_pos p) - 1 + 1) by lia.
    rewrite Z.pow_succ_r by lia. rewrite Z.pow_add_r by lia.
    change (2 ^ 1) with 2. lia.
  - rewrite Pos2Z.inj_succ.
    replace (Z.succ (Z.pos (digits2_pos p)) - 1) with (Z.pos (digits2_pos p) - 1 + 1) by lia.
    rewrite Z.pow_succ_r by lia. rewrite Z.pow_add_r by lia.
    change (2 ^ 1) with 2. lia.
  - cbn. lia.
Qed.

Lemma Zdigits2_bounds (m : Z) :
  0 < m -> 0 < Zdigits2 m /\ 2 ^ (Zdigits2 m - 1) <= m < 2 ^ Zdigits2 m.
Proof.
  destruct m as [| p | p]; try lia. intros _. cbn [Zdigits2].
  split; [lia | apply digits2_pos_bounds].
Qed.

Lemma Zdigits2_0 : Zdigits2 0 = 0.
Proof. reflexivity. Qed.

Lemma Zdigits2_nonneg (m : Z) : 0 <= m -> 0 <= Zdigits2 m.
Proof. destruct m; cbn; lia. Qed.

(** The binade of a positive value. *)
Lemma val_digits (m e : Z) :
  0 < m -> (pow2 (Zdigits2 m + e - 1) <= val m e < pow2 (Zdigits2 m + e))%Q.
Proof.
  intros Hm. destruct (Zdigits2_bounds m Hm) as (Hd & Hlo & Hhi).
  split.
  - replace (Zdigits2 m + e - 1) with (e + (Zdigits2 m - 1)) by lia.
    rewrite <- val_one, <- val_shift by lia. apply val_le. lia.
  - replace (Zdigits2 m + e) with (e + Zdigits2 m) by lia.
    rewrite <- val_one, <- val_shift by lia. apply val_lt. lia.
Qed.

(** A value below a power of two has its digits below the exponent. *)
Lemma digits_le_of_val_lt (m e k : Z) :
  0 < m -> (val m e < pow2 k)%Q -> Zdigits2 m + e <= k.
Proof.
  intros Hm H. destruct (val_digits m e Hm) as [Hlo _].
  assert (pow2 (Zdigits2 m + e - 1) < pow2 k)%Q as Hlt by lra.
  apply pow2_lt_inv in Hlt. lia.
Qed.

Lemma digits_gt_of_val_ge (m e j : Z) :
  0 < m -> (pow2 j <= val m e)%Q -> j < Zdigits2 m + e.
Proof.
  intros Hm H. destruct (val_digits m e Hm) as [_ Hhi].
  assert (pow2 j < pow2 (Zdigits2 m + e))%Q as Hlt by lra.
  now apply pow2_lt_inv in Hlt.
Qed.

(** *** What shifting right keeps *)

Lemma iter_pos_nat {A : Type} (f : A -> A) (p : positive) (x : A) :
  iter_pos f p x = Nat.iter (Pos.to_nat p) f x.
Proof.
  revert x. induction p as [p IH | p IH |]; intros x; cbn [iter_pos].
  - rewrite !IH, Pos2Nat.inj_xI, <- Nat.iter_add, <- Nat.iter_succ_r.
    f_equal. lia.
  - rewrite !IH, Pos2Nat.inj_xO, <- Nat.iter_add. f_equal. lia.
  - reflexivity.
Qed.

Lemma shr_1_spec (mrs : shr_record) :
  0 <= shr_m mrs ->
  0 <= shr_m (shr_1 mrs)
  /\ shr_m mrs = 2 * shr_m (shr_1 mrs) + Z.b2z (shr_r (shr_1 mrs))
  /\ shr_s (shr_1 mrs) = inexact mrs.
Proof.
  destruct mrs as [m r s]. unfold inexact. cbn [shr_m shr_r shr_s].
  destruct m as [| [p | p |] | p]; cbn; try lia; intros _; repeat split; lia.
Qed.

Lemma iter_shr_1_spec (n : nat) (mrs : shr_record) :
  0 <= shr_m mrs ->
  exists rem,
    0 <= shr_m (Nat.iter n shr_1 mrs)
    /\ shr_m mrs = shr_m (Nat.iter n shr_1 mrs) * 2 ^ Z.of_nat n + rem
    /\ 0 <= rem < 2 ^ Z.of_nat n
    /\ inexact (Nat.iter n shr_1 mrs) = inexact mrs || negb (rem =? 0).
Proof.
  intros Hm. induction n as [| n IH].
  - exists 0. cbn [Nat.iter nat_rect]. change (Z.of_nat 0) with 0.
    rewrite Z.pow_0_r, orb_false_r. repeat split; lia.
  - destruct IH as (rem & Hpos & Hsplit & Hrem & Hin).
    change (Nat.iter (S n) shr_1 mrs) with (shr_1 (Nat.iter n shr_1 mrs)).
    destruct (shr_1_spec (Nat.iter n shr_1 mrs) Hpos) as (Hpos' & Hhalf & Hs).
    set (next := shr_1 (Nat.iter n shr_1 mrs)) in *.
    exists (Z.b2z (shr_r next) * 2 ^ Z.of_nat n + rem).
    rewrite Nat2Z.inj_succ, Z.pow_succ_r by lia.
    split; [exact Hpos' |]. split; [rewrite Hsplit, Hhalf; ring |].
    split; [destruct (shr_r next); cbn [Z.b2z]; lia |].
    unfold inexact at 1. rewrite Hs, Hin.
    destruct (shr_r next), (inexact mrs); cbn [Z.b2z orb negb];
      try reflexivity.
    symmetry. apply negb_true_iff, Z.eqb_neq. lia.
Qed.

Lemma inexact_of_loc (m : Z) (l : location) :
  inexact (shr_record_of_loc m l) = true <-> l <> loc_Exact.
Proof.
  destruct l as [| []]; cbn; split; try congruence; try discriminate;
    intros _; reflexivity.
Qed.

Lemma loc_of_inexact (mrs : shr_record) :
  loc_of_shr_record mrs <> loc_Exact <-> inexact mrs = true.
Proof.
  destruct mrs as [m [] []]; cbn; split; try congruence; try discriminate;
    intros _; reflexivity.
Qed.

Lemma shr_m_of_loc (m : Z) (l : location) : shr_m (shr_record_of_loc m l) = m.
Proof. destruct l as [| []]; reflexivity. Qed.

(** [shr_fexp] divides the mantissa by a power of two, raises the exponent
    to the format's, and reports whether anything was lost. *)
Lemma shr_fexp_spec (m e : Z) (l : location) :
  0 <= m ->
  exists n rem,
    0 <= n
    /\ snd (shr_fexp prec emax m e l) = e + n
    /\ e + n = Z.max e (fexp prec emax (Zdigits2 m + e))
    /\ 0 <= shr_m (fst (shr_fexp prec emax m e l))
    /\ m = shr_m (fst (shr_fexp prec emax m e l)) * 2 ^ n + rem
    /\ 0 <= rem < 2 ^ n
    /\ (loc_of_shr_record (fst (shr_fexp prec emax m e l)) <> loc_Exact
        <-> l <> loc_Exact \/ rem <> 0).
Proof.
  intros Hm. unfold shr_fexp, shr.
  destruct (fexp prec emax (Zdigits2 m + e) - e) as [| p | p] eqn:Hn.
  - exists 0, 0. cbn [fst snd]. rewrite shr_m_of_loc, loc_of_inexact, inexact_of_loc.
    repeat split; try lia; [tauto | intros [H | H]; [exact H | lia]].
  - rewrite iter_pos_nat. cbn [fst snd].
    destruct (iter_shr_1_spec (Pos.to_nat p) (shr_record_of_loc m l))
      as (rem & Hpos & Hsplit & Hrem & Hin).
    { now rewrite shr_m_of_loc. }
    rewrite positive_nat_Z, shr_m_of_loc in *.
    exists (Z.pos p), rem. rewrite loc_of_inexact, Hin.
    repeat split; try lia.
    + intros H. apply orb_true_iff in H as [H | H].
      * left. now apply inexact_of_loc in H.
      * right. now apply negb_true_iff, Z.eqb_neq in H.
    + intros [H | H]; apply orb_true_iff.
      * left. now apply (inexact_of_loc m).
      * right. now apply negb_true_iff, Z.eqb_neq.
  - exists 0, 0. cbn [fst snd]. rewrite shr_m_of_loc, loc_of_inexact, inexact_of_loc.
    repeat split; try lia; [tauto | intros [H | H]; [exact H | lia]].
Qed.

Lemma round_nearest_even_spec (m : Z) (l : location) :
  (l = loc_Exact -> round_nearest_even m l = m)
  /\ m <= round_nearest_even m l <= m + 1.
Proof.
  destruct l as [| []]; cbn [round_nearest_even];
    try destruct (Z.even m); split; try lia; try discriminate; reflexivity.
Qed.

Lemma fexp_mono (a b : Z) : a <= b -> fexp prec emax a <= fexp prec emax b.
Proof. unfold fexp. lia. Qed.

Lemma fexp_emin (a : Z) : -1074 <= fexp prec emax a.
Proof. unfold fexp, emin, prec, emax. lia. Qed.

Lemma fexp_eq (a : Z) : fexp prec emax a = Z.max (a - 53) (-1074).
Proof. reflexivity. Qed.

(** *** Rounding against a bound that the format holds *)

Lemma val_pos_pow2_le (m e : Z) : 0 < m -> (pow2 e <= val m e)%Q.
Proof. intros H. rewrite <- val_one. apply val_le. lia. Qed.

Lemma val_rescale (b c e : Z) : e <= c -> (val b c == val (b * 2 ^ (c - e)) e)%Q.
Proof.
  intros H. rewrite val_shift by lia. replace (e + (c - e)) with c by lia.
  reflexivity.
Qed.

Lemma val_pow2 (j e : Z) : e <= j -> (val (2 ^ (j - e)) e == pow2 j)%Q.
Proof.
  intros H. rewrite <- (Z.mul_1_l (2 ^ (j - e))), <- val_rescale by exact H.
  apply val_one.
Qed.

Lemma val_below_pow2 (b c : Z) : 0 < b -> (val b c < pow2 (Zdigits2 b + c))%Q.
Proof. intros H. now apply val_digits. Qed.

Section Upper.

Variables b c : Z.
Hypothesis b_pos : 0 < b.
Hypothesis b_fits : fexp prec emax (Zdigits2 b + c) <= c.

Lemma shr_fexp_upper (m e : Z) (l : location) :
  0 <= m ->
  (val m e <= val b c)%Q ->
  (l <> loc_Exact -> (val m e < val b c)%Q /\ e <= c) ->
  let m' := shr_m (fst (shr_fexp prec emax m e l)) in
  let e' := snd (shr_fexp prec emax m e l) in
  0 <= m'
  /\ (val m' e' <= val b c)%Q
  /\ (loc_of_shr_record (fst (shr_fexp prec emax m e l)) <> loc_Exact ->
      (val m' e' < val b c)%Q /\ e' <= c).
Proof using b_pos b_fits.
  intros Hm Hle Hinexact.
  destruct (shr_fexp_spec m e l Hm)
    as (n & rem & Hn & He' & Hmax & Hm' & Hsplit & Hrem & Hloc).
  cbv zeta. rewrite He'.
  set (m' := shr_m (fst (shr_fexp prec emax m e l))) in *.
  assert (val m' (e + n) <= val m e)%Q as Hfloor.
  { rewrite <- val_shift by exact Hn. apply val_le. lia. }
  split; [exact Hm' |]. split; [lra |].
  intros Hl'. apply Hloc in Hl'. split.
  - destruct Hl' as [Hl | Hnz].
    + apply Hinexact in Hl. lra.
    + assert (val m' (e + n) < val m e)%Q.
      { rewrite <- val_shift by exact Hn. apply val_lt. lia. }
      lra.
  - assert (Zdigits2 m + e <= Zdigits2 b + c) as Hdigits.
    { destruct (Z.eq_dec m 0) as [-> | Hnz].
      - assert (rem = 0) as -> by nia.
        destruct Hl' as [Hl | Hnz]; [| lia].
        apply Hinexact in Hl as [_ He]. cbn [Zdigits2].
        pose proof (Zdigits2_bounds b b_pos). lia.
      - apply digits_le_of_val_lt; [lia |].
        pose proof (val_below_pow2 b c b_pos). lra. }
    pose proof (fexp_mono _ _ Hdigits) as Hfexp.
    destruct (Z.eq_dec n 0) as [-> | Hnz]; [| lia].
    assert (rem = 0) as -> by lia.
    destruct Hl' as [Hl | Hnz]; [| lia].
    apply Hinexact in Hl. lia.
Qed.

(** Rounding to nearest does not cross a number of the format: what is at
    most [b * 2^c] is rounded to at most [b * 2^c]. *)
Lemma binary_round_aux_upper (s : bool) (m e : Z) (l : location) :
  0 <= m ->
  (val m e <= val b c)%Q ->
  (l <> loc_Exact -> (val m e < val b c)%Q /\ e <= c) ->
  Zdigits2 b + c <= 972 ->
  match binary_round_aux prec emax s m e l with
  | S754_zero s' => s' = s
  | S754_finite s' m' e' => s' = s /\ (val (Z.pos m') e' <= val b c)%Q
  | _ => False
  end.
Proof using b_pos b_fits.
  intros Hm Hle Hinexact Hsmall. unfold binary_round_aux.
  destruct (shr_fexp_upper m e l Hm Hle Hinexact) as (Hm1 & Hle1 & Hin1).
  destruct (shr_fexp prec emax m e l) as [mrs1 e1]. cbn [fst snd] in *.
  destruct (round_nearest_even_spec (shr_m mrs1) (loc_of_shr_record mrs1))
    as (Hexact & Hrne).
  set (m2 := round_nearest_even (shr_m mrs1) (loc_of_shr_record mrs1)) in *.
  assert (val m2 e1 <= val b c)%Q as Hle2.
  { destruct (loc_of_shr_record mrs1) as [| cmp] eqn:Hl1.
    - rewrite Hexact by reflexivity. exact Hle1.
    - destruct Hin1 as [Hlt He1]; [discriminate |].
      rewrite (val_rescale b c e1 He1) in Hlt |- *.
      apply val_lt_inv in Hlt. apply val_le. lia. }
  destruct (shr_fexp_upper m2 e1 loc_Exact ltac:(lia) Hle2)
    as (Hm3 & Hle3 & _).
  { intros H. now contradiction H. }
  destruct (shr_fexp prec emax m2 e1 loc_Exact) as [mrs3 e3]. cbn [fst snd] in *.
  destruct (shr_m mrs3) as [| m3 | m3]; [reflexivity | | lia].
  assert (e3 <= 971) as He3.
  { pose proof (val_pos_pow2_le (Z.pos m3) e3 ltac:(lia)).
    pose proof (val_below_pow2 b c b_pos).
    assert (pow2 e3 < pow2 (Zdigits2 b + c))%Q as Hlt by lra.
    apply pow2_lt_inv in Hlt. lia. }
  change (emax - prec) with 971.
  destruct (Z.leb_spec e3 971); [| lia]. split; [reflexivity | exact Hle3].
Qed.

End Upper.

(** *** Rounding against a power of two from below *)

Lemma shr_fexp_lower (m e j : Z) (l : location) :
  0 <= m -> -1074 <= j ->
  (pow2 j <= val m e)%Q ->
  let m' := shr_m (fst (shr_fexp prec emax m e l)) in
  let e' := snd (shr_fexp prec emax m e l) in
  0 <= m' /\ (pow2 j <= val m' e')%Q.
Proof.
  intros Hm Hj Hle.
  destruct (shr_fexp_spec m e l Hm)
    as (n & rem & Hn & He' & Hmax & Hm' & Hsplit & Hrem & _).
  cbv zeta. rewrite He'.
  set (m' := shr_m (fst (shr_fexp prec emax m e l))) in *.
  split; [exact Hm' |].
  assert (0 < m) as Hpos.
  { destruct (Z.eq_dec m 0) as [-> | Hnz]; [| lia].
    pose proof (pow2_pos j). unfold val in Hle. 
    change (inject_Z 0) with 0%Q in Hle. lra. }
  assert (exists k, 0 < k /\ k * 2 ^ n <= m /\ (pow2 j <= val k (e + n))%Q)
    as (k & Hk & Hkm & Hkj).
  { destruct (Z_le_gt_dec (e + n) j) as [Hlow | Hhigh].
    - exists (2 ^ (j - (e + n))). split; [lia |]. split.
      + apply (val_le_inv _ _ e). rewrite val_shift by exact Hn.
        now rewrite val_pow2 by exact Hlow.
      + rewrite val_pow2 by exact Hlow. lra.
    - exists 1. split; [lia |]. split.
      + destruct (Zdigits2_bounds m Hpos) as (Hd & Hlo & _).
        rewrite fexp_eq in Hmax.
        assert (n <= Zdigits2 m - 1) as Hnd by lia.
        rewrite Z.mul_1_l.
        apply Z.le_trans with (2 ^ (Zdigits2 m - 1)); [| exact Hlo].
        apply Z.pow_le_mono_r; lia.
      + rewrite val_one. apply pow2_le. lia. }
  apply Qle_trans with (val k (e + n)); [exact Hkj |].
  apply val_le. 
  assert (0 < 2 ^ n) by lia. nia.
Qed.

Lemma binary_round_aux_lower (s : bool) (m e j : Z) (l : location) :
  0 <= m -> -1074 <= j ->
  (pow2 j <= val m e)%Q ->
  match binary_round_aux prec emax s m e l with
  | S754_infinity s' => s' = s
  | S754_finite s' m' e' => s' = s /\ (pow2 j <= val (Z.pos m') e')%Q
  | _ => False
  end.
Proof.
  intros Hm Hj Hle. unfold binary_round_aux.
  destruct (shr_fexp_lower m e j l Hm Hj Hle) as (Hm1 & Hle1).
  destruct (shr_fexp prec emax m e l) as [mrs1 e1]. cbn [fst snd] in *.
  destruct (round_nearest_even_spec (shr_m mrs1) (loc_of_shr_record mrs1))
    as (_ & Hrne).
  set (m2 := round_nearest_even (shr_m mrs1) (loc_of_shr_record mrs1)) in *.
  assert (pow2 j <= val m2 e1)%Q as Hle2.
  { apply Qle_trans with (val (shr_m mrs1) e1); [exact Hle1 |].
    apply val_le. lia. }
  destruct (shr_fexp_lower m2 e1 j loc_Exact ltac:(lia) Hj Hle2) as (Hm3 & Hle3).
  destruct (shr_fexp prec emax m2 e1 loc_Exact) as [mrs3 e3]. cbn [fst snd] in *.
  destruct (shr_m mrs3) as [| m3 | m3]; [| | lia].
  - pose proof (pow2_pos j). unfold val in Hle3.
    change (inject_Z 0) with 0%Q in Hle3. lra.
  - destruct (e3 <=? emax - prec); [split |]; auto.
Qed.

(** *** The operations *)

Lemma rounded_at_most (b c : Z) (x : spec_float) :
  match x with
  | S754_zero s' => s' = false
  | S754_finite s' m' e' => s' = false /\ (val (Z.pos m') e' <= val b c)%Q
  | _ => False
  end -> at_most b c x.
Proof.
  destruct x as [s | s | | s m e]; cbn; try tauto.
  - now intros ->.
  - now intros [-> H].
Qed.

Lemma rounded_magnitude (s : bool) (b c : Z) (x : spec_float) :
  match x with
  | S754_zero s' => s' = s
  | S754_finite s' m' e' => s' = s /\ (val (Z.pos m') e' <= val b c)%Q
  | _ => False
  end -> magnitude_at_most b c x.
Proof. destruct x as [s' | s' | | s' m e]; cbn; tauto. Qed.

Lemma rounded_at_least (j : Z) (x : spec_float) :
  match x with
  | S754_infinity s' => s' = false
  | S754_finite s' m' e' => s' = false /\ (pow2 j <= val (Z.pos m') e')%Q
  | _ => False
  end -> at_least j x.
Proof.
  destruct x as [s | s | | s m e]; cbn; try tauto.
  - now intros ->.
  - now intros [-> H].
Qed.

Lemma val_mul (m1 e1 m2 e2 : Z) :
  (val (m1 * m2) (e1 + e2) == val m1 e1 * val m2 e2)%Q.
Proof. unfold val. rewrite inject_Z_mult, pow2_add. ring. Qed.

Lemma val_add (m1 m2 e : Z) : (val (m1 + m2) e == val m1 e + val m2 e)%Q.
Proof. unfold val. rewrite inject_Z_plus. ring. Qed.

Lemma val_opp (m e : Z) : (val (- m) e == - val m e)%Q.
Proof. unfold val. rewrite inject_Z_opp. ring. Qed.

Lemma val_pos (m : positive) (e : Z) : (0 < val (Z.pos m) e)%Q.
Proof.
  pose proof (val_pos_pow2_le (Z.pos m) e ltac:(lia)). pose proof (pow2_pos e). lra.
Qed.

Lemma iter_xO (m d : positive) : Z.pos (Pos.iter xO m d) = Z.pos m * 2 ^ Z.pos d.
Proof.
  rewrite <- Z.shiftl_mul_pow2 by lia. cbn [Z.shiftl].
  apply (Pos.iter_swap_gen _ _ Z.pos xO (Z.mul 2)). reflexivity.
Qed.

(** Aligning leaves the value and lowers the exponent to the smaller one. *)
Lemma shl_align_spec (m : positive) (e e' : Z) :
  snd (shl_align m e e') = Z.min e e'
  /\ Z.pos (fst (shl_align m e e')) = Z.pos m * 2 ^ (e - Z.min e e').
Proof.
  unfold shl_align. destruct (e' - e) as [| d | d] eqn:Hd; cbn [fst snd].
  - replace (Z.min e e') with e by lia. rewrite Z.sub_diag. lia.
  - replace (Z.min e e') with e by lia. rewrite Z.sub_diag. lia.
  - replace (Z.min e e') with e' by lia. split; [reflexivity |].
    rewrite iter_xO. f_equal. f_equal. lia.
Qed.

Lemma shl_align_val (m : positive) (e e' : Z) :
  (val (Z.pos (fst (shl_align m e e'))) (snd (shl_align m e e'))
   == val (Z.pos m) e)%Q.
Proof.
  destruct (shl_align_spec m e e') as [-> ->].
  rewrite val_shift by lia. replace (Z.min e e' + (e - Z.min e e')) with e by lia.
  reflexivity.
Qed.

Lemma binary_round_upper (b c : Z) (s : bool) (m : positive) (e : Z) :
  0 < b -> fexp prec emax (Zdigits2 b + c) <= c -> Zdigits2 b + c <= 972 ->
  (val (Z.pos m) e <= val b c)%Q ->
  magnitude_at_most b c (binary_round prec emax s m e).
Proof.
  intros Hb Hfits Hsmall Hle. unfold binary_round.
  pose proof (shl_align_val m e (fexp prec emax (Z.pos (digits2_pos m) + e))) as Hval.
  destruct (shl_align m e _) as [mz ez]. cbn [fst snd] in Hval.
  apply (rounded_magnitude s).
  apply binary_round_aux_upper; try assumption; try lia.
  - rewrite Hval. exact Hle.
  - intros H. now contradiction H.
Qed.

Lemma binary_round_lower (j : Z) (m : positive) (e : Z) :
  -1074 <= j ->
  (pow2 j <= val (Z.pos m) e)%Q ->
  at_least j (binary_round prec emax false m e).
Proof.
  intros Hj Hle. unfold binary_round.
  pose proof (shl_align_val m e (fexp prec emax (Z.pos (digits2_pos m) + e))) as Hval.
  destruct (shl_align m e _) as [mz ez]. cbn [fst snd] in Hval.
  apply rounded_at_least.
  apply binary_round_aux_lower; try assumption; try lia.
  rewrite Hval. exact Hle.
Qed.

(** *** Multiplication *)

Lemma SFmul_at_most (b1 c1 b2 c2 : Z) (x y : spec_float) :
  0 < b1 -> 0 < b2 ->
  fexp prec emax (Zdigits2 (b1 * b2) + (c1 + c2)) <= c1 + c2 ->
  Zdigits2 (b1 * b2) + (c1 + c2) <= 972 ->
  at_most b1 c1 x -> at_most b2 c2 y ->
  at_most (b1 * b2) (c1 + c2) (SFmul prec emax x y).
Proof.
  intros Hb1 Hb2 Hfits Hsmall Hx Hy.
  destruct x as [[] | [] | | [] mx ex]; try (exfalso; exact Hx);
    destruct y as [[] | [] | | [] my ey]; try (exfalso; exact Hy);
    cbn [SFmul xorb at_most]; try exact I.
  cbn [at_most] in Hx, Hy. apply rounded_at_most.
  apply binary_round_aux_upper; try assumption; try lia.
  - rewrite Pos2Z.inj_mul, !val_mul.
    pose proof (val_pos mx ex). pose proof (val_pos my ey).
    apply Qle_trans with (val (Z.pos mx) ex * val b2 c2)%Q.
    + apply Qmult_le_l; [assumption | exact Hy].
    + apply Qmult_le_compat_r; [exact Hx | lra].
  - intros H. now contradiction H.
Qed.

(** *** Addition and subtraction *)

Lemma aligned_val (m : positive) (e e' : Z) :
  e' <= e -> (val (Z.pos (fst (shl_align m e e'))) e' == val (Z.pos m) e)%Q.
Proof.
  intros H. pose proof (shl_align_val m e e') as Hval.
  destruct (shl_align_spec m e e') as [Hsnd _].
  rewrite Hsnd in Hval. replace (Z.min e e') with e' in Hval by lia. exact Hval.
Qed.

Lemma SFadd_at_least (j : Z) (mx : positive) (ex : Z) (my : positive) (ey : Z) :
  -1074 <= j ->
  (pow2 j <= val (Z.pos mx) ex + val (Z.pos my) ey)%Q ->
  at_least j (SFadd prec emax (S754_finite false mx ex) (S754_finite false my ey)).
Proof.
  intros Hj Hle. cbn [SFadd cond_Zopp].
  pose proof (aligned_val mx ex (Z.min ex ey) ltac:(lia)) as Hx.
  pose proof (aligned_val my ey (Z.min ex ey) ltac:(lia)) as Hy.
  set (ax := fst (shl_align mx ex (Z.min ex ey))) in *.
  set (ay := fst (shl_align my ey (Z.min ex ey))) in *.
  change (Z.pos ax + Z.pos ay) with (Z.pos (ax + ay)). cbn [binary_normalize].
  apply binary_round_lower; [exact Hj |].
  rewrite Pos2Z.inj_add, val_add, Hx, Hy. exact Hle.
Qed.

Lemma val_of_one : (val 4503599627370496 (-52) == 1)%Q.
Proof. reflexivity. Qed.

Lemma val_1_0 : (val 1 0 == 1)%Q.
Proof. reflexivity. Qed.

Lemma val_1_1 : (val 1 1 == 2)%Q.
Proof. reflexivity. Qed.

(** What is between 0 and 2 is at a distance of at most 1 from 1. *)
Lemma SFsub_one (x : spec_float) :
  at_most 1 1 x -> magnitude_at_most 1 0 (SFsub prec emax x one).
Proof.
  destruct x as [[] | [] | | [] mx ex]; cbn [at_most]; try tauto.
  - intros _. cbn. rewrite val_of_one, val_1_0. lra.
  - intros Hle. unfold one. cbn [SFsub cond_Zopp].
    pose proof (aligned_val mx ex (Z.min ex (-52)) ltac:(lia)) as Hx.
    pose proof (aligned_val 4503599627370496 (-52) (Z.min ex (-52)) ltac:(lia)) as Hy.
    set (ax := fst (shl_align mx ex (Z.min ex (-52)))) in *.
    set (ay := fst (shl_align 4503599627370496 (-52) (Z.min ex (-52)))) in *.
    rewrite val_of_one in Hy. rewrite val_1_1 in Hle.
    pose proof (val_pos mx ex) as Hpos.
    assert (val (Z.pos ax - Z.pos ay) (Z.min ex (-52)) == val (Z.pos mx) ex - 1)%Q
      as Hdiff.
    { unfold Z.sub. rewrite val_add, val_opp, Hx, Hy. ring. }
    destruct (Z.pos ax - Z.pos ay) as [| p | p]; cbn [binary_normalize].
    + exact I.
    + apply binary_round_upper; try (vm_compute; congruence).
      rewrite Hdiff, val_1_0. lra.
    + apply binary_round_upper; try (vm_compute; congruence).
      change (Z.neg p) with (- Z.pos p) in Hdiff. rewrite val_opp in Hdiff.
      rewrite val_1_0. lra.
Qed.

(** *** Division *)

Lemma new_location_exact (n : Z) : new_location n 0 = loc_Exact.
Proof. unfold new_location. destruct (Z.even n); reflexivity. Qed.

Lemma SFdiv_at_most_two (a j : Z) (x y : spec_float) :
  at_most 1 a x -> at_least j y -> a <= j + 1 ->
  at_most 1 1 (SFdiv prec emax x y).
Proof.
  intros Hx Hy Haj.
  destruct x as [[] | [] | | [] mx ex]; try (exfalso; exact Hx);
    destruct y as [[] | [] | | [] my ey]; try (exfalso; exact Hy);
    cbn [SFdiv xorb at_most]; try exact I.
  cbn [at_most at_least] in Hx, Hy. rewrite val_one in Hx.
  unfold SFdiv_core_binary.
  set (K := Zdigits2 (Z.pos mx) + ex - (Zdigits2 (Z.pos my) + ey)).
  set (e' := Z.min (fexp prec emax K) (ex - ey)).
  assert (0 <= ex - ey - e') as Hs by lia.
  assert (match ex - ey - e' with
          | 0 => Z.pos mx
          | Z.pos _ => Z.shiftl (Z.pos mx) (ex - ey - e')
          | Z.neg _ => 0
          end = Z.pos mx * 2 ^ (ex - ey - e')) as ->.
  { rewrite <- Z.shiftl_mul_pow2 by exact Hs.
    destruct (ex - ey - e') as [| p | p] eqn:E; [reflexivity | reflexivity | lia]. }
  pose proof (Z_div_mod (Z.pos mx * 2 ^ (ex - ey - e')) (Z.pos my) ltac:(lia)) as Hdiv.
  destruct (Z.div_eucl (Z.pos mx * 2 ^ (ex - ey - e')) (Z.pos my)) as [q r].
  destruct Hdiv as [Hsplit Hr].
  assert (0 < 2 ^ (ex - ey - e')) as Hpow by lia.
  assert (0 <= q) as Hq by nia.
  pose proof (val_pos my ey) as Hypos.
  assert (val (q * Z.pos my + r) (e' + ey) == val (Z.pos mx) ex)%Q as Hnum.
  { replace (q * Z.pos my + r) with (Z.pos mx * 2 ^ (ex - ey - e')) by lia.
    rewrite val_shift by exact Hs. replace (e' + ey + (ex - ey - e')) with ex by lia.
    reflexivity. }
  rewrite val_add, val_mul in Hnum.
  assert (0 <= val r (e' + ey))%Q as Hrem by (apply val_nonneg; lia).
  assert (pow2 a <= 2 * pow2 j)%Q as Hpows.
  { rewrite <- pow2_succ. apply pow2_le. lia. }
  apply rounded_at_most.
  apply binary_round_aux_upper; try (vm_compute; congruence); try exact Hq.
  - rewrite val_1_1. apply (Qmult_lt_0_le_reg_r _ _ (val (Z.pos my) ey) Hypos).
    apply Qle_trans with (2 * pow2 j)%Q; [lra |].
    apply Qmult_le_l; [reflexivity | exact Hy].
  - intros Hl. split.
    + assert (r <> 0) as Hnz.
      { intros ->. apply Hl, new_location_exact. }
      assert (0 < val r (e' + ey))%Q as Hrem'.
      { pose proof (val_pos_pow2_le r (e' + ey) ltac:(lia)).
        pose proof (pow2_pos (e' + ey)). lra. }
      rewrite val_1_1.
      apply (Qmult_lt_r _ _ (val (Z.pos my) ey) Hypos).
      apply Qlt_le_trans with (2 * pow2 j)%Q; [lra |].
      apply Qmult_le_l; [reflexivity | exact Hy].
    + assert (K <= 1) as HK.
      { destruct (val_digits (Z.pos mx) ex ltac:(lia)) as [Hlo _].
        assert (pow2 (Zdigits2 (Z.pos mx) + ex - 1) <= pow2 a)%Q as H by lra.
        apply pow2_le_inv in H.
        pose proof (digits_gt_of_val_ge (Z.pos my) ey j ltac:(lia) Hy).
        unfold K. lia. }
      subst e'. rewrite fexp_eq. lia.
Qed.

(** *** Square root *)

Lemma SFsqrt_at_most (m : positive) (e : Z) :
  -1074 <= Z.div2 (Zdigits2 (Z.pos m) + e + 1) <= 970 ->
  at_most 1 (Z.div2 (Zdigits2 (Z.pos m) + e + 1))
    (SFsqrt prec emax (S754_finite false m e)).
Proof.
  intros Hc. cbn [SFsqrt]. unfold SFsqrt_core_binary.
  set (c := Z.div2 (Zdigits2 (Z.pos m) + e + 1)) in *.
  set (e' := Z.min (fexp prec emax c) (Z.div2 e)).
  assert (Zdigits2 (Z.pos m) + e <= 2 * c) as Hk.
  { pose proof (Z.div2_odd (Zdigits2 (Z.pos m) + e + 1)) as Hhalf. fold c in Hhalf.
    destruct (Z.odd _); cbn [Z.b2z] in Hhalf; lia. }
  assert (0 <= e - 2 * e') as Hs.
  { pose proof (Z.div2_odd e) as Hhalf.
    destruct (Z.odd e); cbn [Z.b2z] in Hhalf; lia. }
  assert (e' <= c) as He'.
  { unfold e'. rewrite fexp_eq. lia. }
  assert (match e - 2 * e' with
          | 0 => Z.pos m
          | Z.pos _ => Z.shiftl (Z.pos m) (e - 2 * e')
          | Z.neg _ => 0
          end = Z.pos m * 2 ^ (e - 2 * e')) as ->.
  { rewrite <- Z.shiftl_mul_pow2 by exact Hs.
    destruct (e - 2 * e') as [| p | p] eqn:E; [reflexivity | reflexivity | lia]. }
  assert (0 < 2 ^ (e - 2 * e')) as Hpow by lia.
  pose proof (Z.sqrtrem_spec (Z.pos m * 2 ^ (e - 2 * e')) ltac:(lia)) as Hsqrt.
  destruct (Z.sqrtrem (Z.pos m * 2 ^ (e - 2 * e'))) as [q r].
  destruct Hsqrt as [Hsplit Hr].
  assert (0 <= q) as Hq by lia.
  assert (q < 2 ^ (c - e')) as Hlt.
  { destruct (Zdigits2_bounds (Z.pos m) ltac:(lia)) as (_ & _ & Hhi).
    assert (Z.pos m * 2 ^ (e - 2 * e') < 2 ^ (c - e') * 2 ^ (c - e')) as Hsq.
    { rewrite <- Z.pow_add_r by lia.
      apply Z.lt_le_trans with (2 ^ Zdigits2 (Z.pos m) * 2 ^ (e - 2 * e')); [nia |].
      rewrite <- Z.pow_add_r by (pose proof (Zdigits2_nonneg (Z.pos m)); lia).
      apply Z.pow_le_mono_r; lia. }
    assert (0 < 2 ^ (c - e')) by lia. nia. }
  assert (val q e' < val 1 c)%Q as Hval.
  { rewrite val_one, <- (val_pow2 c e') by exact He'. now apply val_lt. }
  apply rounded_at_most. apply binary_round_aux_upper; try exact Hq;
    try (cbn [Zdigits2 digits2_pos]; rewrite ?fexp_eq; lia).
  - lra.
  - intros _. split; [exact Hval | exact He'].
Qed.

(** *** The price-ratio formula *)

Lemma calculateImpermanentLoss_spec (priceRatio initialRatio : float) :
  Prim2SF (Binary64.calculateImpermanentLoss priceRatio initialRatio)
  = lossOfRatio (Prim2SF (priceRatio / initialRatio)%float).
Proof.
  unfold Binary64.calculateImpermanentLoss. cbv zeta.
  rewrite mul_spec, abs_spec, sub_spec, div_spec, mul_spec, sqrt_spec, add_spec.
  reflexivity.
Qed.

Lemma magnitude_abs (b c : Z) (x : spec_float) :
  magnitude_at_most b c x -> at_most b c (SFabs x).
Proof. destruct x as [s | s | | s m e]; cbn; tauto. Qed.

Lemma canonical_digits (m : positive) (e : Z) :
  bounded prec emax m e = true ->
  e = fexp prec emax (Zdigits2 (Z.pos m) + e) /\ e <= 971.
Proof.
  unfold bounded, canonical_mantissa. intros H.
  apply andb_true_iff in H as [Hc He].
  apply Z.eqb_eq in Hc. apply Z.leb_le in He. cbn [Zdigits2].
  change (emax - prec) with 971 in He. lia.
Qed.

(** For a positive finite ratio the result is a number from 0 to 100. *)
Lemma lossOfRatio_positive (m : positive) (e : Z) :
  bounded prec emax m e = true ->
  at_most 25 2 (lossOfRatio (S754_finite false m e)).
Proof.
  intros Hvalid. destruct (canonical_digits m e Hvalid) as [Hcanon He].
  rewrite fexp_eq in Hcanon.
  destruct (Zdigits2_bounds (Z.pos m) ltac:(lia)) as (Hd & _).
  destruct (val_digits (Z.pos m) e ltac:(lia)) as [Hlo Hhi].
  set (k := Zdigits2 (Z.pos m) + e) in *.
  set (c := Z.div2 (k + 1)).
  assert (k = 2 * c \/ k = 2 * c - 1) as Hkc.
  { pose proof (Z.div2_odd (k + 1)) as Hhalf. fold c in Hhalf.
    destruct (Z.odd (k + 1)); cbn [Z.b2z] in Hhalf; lia. }
  set (j := if k <=? 0 then 0 else Z.max 1 (k - 1)).
  assert (c <= j /\ 0 <= j) as [Hcj Hj].
  { unfold j. destruct (Z.leb_spec k 0); lia. }
  unfold lossOfRatio.
  assert (at_most 1 c (SFsqrt prec emax (S754_finite false m e))) as Hsqrt.
  { apply SFsqrt_at_most. fold k c. lia. }
  assert (at_most 1 (1 + c)
            (SFmul prec emax two (SFsqrt prec emax (S754_finite false m e))))
    as Hnum.
  { apply (SFmul_at_most 1 1 1 c); try lia; try exact Hsqrt.
    - change (Zdigits2 (1 * 1)) with 1. rewrite fexp_eq. lia.
    - change (Zdigits2 (1 * 1)) with 1. lia.
    - vm_compute. congruence. }
  assert (at_least j (SFadd prec emax one (S754_finite false m e))) as Hden.
  { apply SFadd_at_least; [lia |]. rewrite val_of_one.
    unfold j. destruct (Z.leb_spec k 0) as [Hk | Hk].
    - rewrite pow2_0. pose proof (val_pos m e). lra.
    - destruct (Z.eq_dec k 1) as [Hk1 | Hk1].
      + replace (Z.max 1 (k - 1)) with 1 by lia.
        replace (k - 1) with 0 in Hlo by lia. rewrite pow2_0 in Hlo.
        change (pow2 1) with 2%Q. lra.
      + replace (Z.max 1 (k - 1)) with (k - 1) by lia. lra. }
  pose proof (SFdiv_at_most_two (1 + c) j _ _ Hnum Hden ltac:(lia)) as Hquot.
  pose proof (SFsub_one _ Hquot) as Hil.
  apply magnitude_abs in Hil.
  apply (SFmul_at_most 1 0 25 2); try lia; try exact Hil;
    vm_compute; congruence.
Qed.

(** A canonical number that is at most 100 compares so. *)
Lemma at_most_hundred_leb (x : spec_float) :
  SpecFloat.valid_binary prec emax x = true ->
  at_most 25 2 x ->
  SFleb (S754_zero false) x = true /\ SFleb x hundred = true.
Proof.
  destruct x as [[] | [] | | [] m e]; cbn [at_most SpecFloat.valid_binary]; try tauto.
  intros Hvalid Hle. split; [reflexivity |].
  destruct (canonical_digits m e Hvalid) as [Hcanon _].
  rewrite fexp_eq in Hcanon.
  unfold SFleb, hundred. cbn [SFcompare].
  destruct (Z.compare_spec e (-46)) as [-> | Hlt | Hgt].
  - assert (val 25 2 == val 7036874417766400 (-46))%Q as Heq by reflexivity.
    rewrite Heq in Hle. apply val_le_inv in Hle.
    rewrite Pos.compare_cont_spec. cbn [Pos.switch_Eq].
    destruct (Pos.compare_spec m 7036874417766400); try reflexivity. lia.
  - reflexivity.
  - exfalso.
    destruct (Zdigits2_bounds (Z.pos m) ltac:(lia)) as (_ & Hlo & _).
    assert (Zdigits2 (Z.pos m) = 53) as Hd by lia. rewrite Hd in Hlo.
    assert (val (2 ^ 52) (-45) <= val (Z.pos m) e)%Q as Hbig.
    { apply Qle_trans with (val (Z.pos m) (-45)); [apply val_le; lia |].
      unfold val. apply Qmult_le_l.
      - change 0%Q with (inject_Z 0). rewrite <- Zlt_Qlt. lia.
      - apply pow2_le. lia. }
    assert (val 25 2 < val (2 ^ 52) (-45))%Q as Hsmall by reflexivity.
    lra.
Qed.

Lemma binary_round_aux_nonneg (s : bool) (m e : Z) (l : location) :
  0 <= m ->
  match binary_round_aux prec emax s m e l with
  | S754_zero s' | S754_infinity s' | S754_finite s' _ _ => s' = s
  | S754_nan => False
  end.
Proof.
  intros Hm. unfold binary_round_aux.
  destruct (shr_fexp_spec m e l Hm) as (_ & _ & _ & _ & _ & Hm1 & _).
  destruct (shr_fexp prec emax m e l) as [mrs1 e1]. cbn [fst snd] in Hm1.
  destruct (round_nearest_even_spec (shr_m mrs1) (loc_of_shr_record mrs1))
    as (_ & Hrne).
  set (m2 := round_nearest_even (shr_m mrs1) (loc_of_shr_record mrs1)) in *.
  destruct (shr_fexp_spec m2 e1 loc_Exact ltac:(lia)) as (_ & _ & _ & _ & _ & Hm3 & _).
  destruct (shr_fexp prec emax m2 e1 loc_Exact) as [mrs3 e3]. cbn [fst snd] in Hm3.
  destruct (shr_m mrs3) as [| m3 | m3]; [reflexivity | | lia].
  destruct (e3 <=? emax - prec); reflexivity.
Qed.

(** The quotient of two positive finite numbers is [+0], positive and
    finite, or [+Infinity]. *)
Lemma SFdiv_positive (mx : positive) (ex : Z) (my : positive) (ey : Z) :
  match SFdiv prec emax (S754_finite false mx ex) (S754_finite false my ey) with
  | S754_zero s | S754_infinity s | S754_finite s _ _ => s = false
  | S754_nan => False
  end.
Proof.
  cbn [SFdiv xorb]. unfold SFdiv_core_binary.
  set (s := ex - ey - _).
  set (m' := match s with 0 => Z.pos mx | Z.pos _ => Z.shiftl (Z.pos mx) s | Z.neg _ => 0 end).
  assert (0 <= m') as Hm'.
  { unfold m'. destruct s as [| p | p] eqn:E; try lia.
    rewrite Z.shiftl_mul_pow2 by lia. lia. }
  pose proof (Z_div_mod m' (Z.pos my) ltac:(lia)) as Hdiv.
  destruct (Z.div_eucl m' (Z.pos my)) as [q r]. destruct Hdiv as [Hsplit Hr].
  apply binary_round_aux_nonneg. nia.
Qed.

Lemma SFeqb_refl_at_most (b c : Z) (x : spec_float) :
  at_most b c x -> SFeqb x x = true.
Proof.
  destruct x as [[] | [] | | [] m e]; cbn [at_most]; try tauto.
  intros _. unfold SFeqb. cbn [SFcompare].
  now rewrite Z.compare_refl, Pos.compare_cont_refl.
Qed.

(** What the formula returns, by the ratio. *)
Lemma lossOfRatio_cases (ratio : spec_float) :
  SpecFloat.valid_binary prec emax ratio = true ->
  match ratio with
  | S754_zero _ => lossOfRatio ratio = hundred
  | S754_finite false _ _ => at_most 25 2 (lossOfRatio ratio)
  | _ => lossOfRatio ratio = S754_nan
  end.
Proof.
  destruct ratio as [[] | [] | | [] m e]; try reflexivity.
  apply lossOfRatio_positive.
Qed.

Local Open Scope float_scope.

Lemma is_nan_spec (x : float) : is_nan x = negb (SFeqb (Prim2SF x) (Prim2SF x)).
Proof. unfold is_nan. now rewrite eqb_spec. Qed.

(** The result is [NaN] exactly when the quotient of the two arguments is
    [NaN], negative or infinite. *)
Theorem calculateImpermanentLoss_nan (priceRatio initialRatio : float) :
  is_nan (Binary64.calculateImpermanentLoss priceRatio initialRatio)
  = negb ((0 <=? priceRatio / initialRatio)
          && (priceRatio / initialRatio <? infinity)).
Proof.
  rewrite is_nan_spec, calculateImpermanentLoss_spec, leb_spec, ltb_spec.
  pose proof (lossOfRatio_cases _ (Prim2SF_valid (priceRatio / initialRatio))) as H.
  change (Prim2SF 0) with (S754_zero false).
  change (Prim2SF infinity) with (S754_infinity false).
  destruct (Prim2SF (priceRatio / initialRatio)) as [[] | [] | | [] m e];
    try (rewrite H; reflexivity).
  now rewrite (SFeqb_refl_at_most _ _ _ H).
Qed.

(** Every result that is not [NaN] is between 0 and 100. *)
Theorem calculateImpermanentLoss_range (priceRatio initialRatio : float) :
  is_nan (Binary64.calculateImpermanentLoss priceRatio initialRatio) = true
  \/ (0 <=? Binary64.calculateImpermanentLoss priceRatio initialRatio) = true
     /\ (Binary64.calculateImpermanentLoss priceRatio initialRatio <=? 100) = true.
Proof.
  rewrite is_nan_spec, !leb_spec.
  pose proof (Prim2SF_valid (Binary64.calculateImpermanentLoss priceRatio initialRatio))
    as Hvalid.
  rewrite calculateImpermanentLoss_spec in *.
  pose proof (lossOfRatio_cases _ (Prim2SF_valid (priceRatio / initialRatio))) as H.
  change (Prim2SF 0) with (S754_zero false).
  change (Prim2SF 100) with hundred.
  destruct (Prim2SF (priceRatio / initialRatio)) as [[] | [] | | [] m e];
    try (rewrite H; left; reflexivity);
    try (rewrite H; right; split; reflexivity).
  right. now apply at_most_hundred_leb.
Qed.




(** C7 (what fails).  In the time-decay model a deposit time later than
    the clock reading gives a negative number of days and a negative
    estimate: one day ahead, -0.1.  In the price-ratio model the quotient
    of the ratios 2^600 and 2^-600 overflows, [Infinity / Infinity] follows
    and the result is [NaN], which is neither at least 0 nor at most 100. *)
Lemma impermanentLoss_estimates_counterexample :
  (RebalancingEngine.estimateImpermanentLoss 0%Z depositedTomorrow < 0)%Q
  /\ is_nan (Binary64.calculateImpermanentLoss 0x1p+600 0x1p-600) = true
  /\ (0 <=? Binary64.calculateImpermanentLoss 0x1p+600 0x1p-600) = false
  /\ (Binary64.calculateImpermanentLoss 0x1p+600 0x1p-600 <=? 100) = false.
Proof. repeat split; reflexivity. Qed.

(** C7 (amended).  The time-decay estimate of the rebalancing engine is at
    most 15 for every position, and at least 0 for a position whose
    deposit time is not later than the clock reading.  The price-ratio
    model returns [NaN] exactly when the quotient of its two arguments is
    [NaN], negative or infinite; every other result is at least 0 and at
    most 100. *)
Theorem impermanentLoss_estimates_bounded
    (now : Date) (position : LPPosition.t) (priceRatio initialRatio : float) :
  (RebalancingEngine.estimateImpermanentLoss now position <= 15)%Q
  /\ ((LPPosition.depositTimestamp position <= now)%Z ->
      (0 <= RebalancingEngine.estimateImpermanentLoss now position)%Q)
  /\ is_nan (Binary64.calculateImpermanentLoss priceRatio initialRatio)
     = negb ((0 <=? priceRatio / initialRatio)
             && (priceRatio / initialRatio <? infinity))
  /\ (is_nan (Binary64.calculateImpermanentLoss priceRatio initialRatio) = true
      \/ (0 <=? Binary64.calculateImpermanentLoss priceRatio initialRatio) = true
         /\ (Binary64.calculateImpermanentLoss priceRatio initialRatio <=? 100)
            = true).
Proof.
  split; [apply estimateImpermanentLoss_cap |]. split; [| split].
  - intros Hpast. now apply estimateImpermanentLoss_bounds.
  - apply calculateImpermanentLoss_nan.
  - apply calculateImpermanentLoss_range.
Qed.




End Binary64Loss.

(** ** Two ratios in binary64: [spread] and [calculateConcentrationRisk] *)

Module Binary64Ratios.

Import Floats.
Import Binary64Spec.
Import Binary64Loss.
Local Open Scope Z_scope.

(** The order of two canonical positive numbers is the order of their
    values. *)
Lemma SFleb_val (mx : positive) (ex : Z) (my : positive) (ey : Z) :
  bounded prec emax mx ex = true -> bounded prec emax my ey = true ->
  SFleb (S754_finite false mx ex) (S754_finite false my ey) = true ->
  (val (Z.pos mx) ex <= val (Z.pos my) ey)%Q.
Proof.
  intros Hx Hy. destruct (canonical_digits mx ex Hx) as [Hcx _].
  destruct (canonical_digits my ey Hy) as [Hcy _].
  rewrite fexp_eq in Hcx, Hcy.
  unfold SFleb. cbn [SFcompare].
  destruct (Z.compare_spec ex ey) as [-> | Hlt | Hgt]; [| | discriminate].
  - rewrite Pos.compare_cont_spec. cbn [Pos.switch_Eq].
    destruct (Pos.compare_spec mx my) as [-> | H | H]; try discriminate;
      intros _; apply val_le; lia.
  - intros _.
    destruct (Zdigits2_bounds (Z.pos my) ltac:(lia)) as (_ & Hlo & _).
    destruct (val_digits (Z.pos mx) ex ltac:(lia)) as [_ Hhi].
    destruct (val_digits (Z.pos my) ey ltac:(lia)) as [Hlow _].
    assert (pow2 (Zdigits2 (Z.pos mx) + ex) <= pow2 (Zdigits2 (Z.pos my) + ey - 1))%Q
      by (apply pow2_le; lia).
    lra.
Qed.

(** The quotient of a positive number by one that is not smaller is at
    most 1. *)
Lemma SFdiv_at_most_one (mx : positive) (ex : Z) (my : positive) (ey : Z) :
  (val (Z.pos mx) ex <= val (Z.pos my) ey)%Q ->
  at_most 1 0 (SFdiv prec emax (S754_finite false mx ex) (S754_finite false my ey)).
Proof.
  intros Hle. cbn [SFdiv xorb]. unfold SFdiv_core_binary.
  set (K := Zdigits2 (Z.pos mx) + ex - (Zdigits2 (Z.pos my) + ey)).
  set (e' := Z.min (fexp prec emax K) (ex - ey)).
  assert (0 <= ex - ey - e') as Hs by lia.
  assert (match ex - ey - e' with
          | 0 => Z.pos mx
          | Z.pos _ => Z.shiftl (Z.pos mx) (ex - ey - e')
          | Z.neg _ => 0
          end = Z.pos mx * 2 ^ (ex - ey - e')) as ->.
  { rewrite <- Z.shiftl_mul_pow2 by exact Hs.
    destruct (ex - ey - e') as [| p | p] eqn:E; [reflexivity | reflexivity | lia]. }
  pose proof (Z_div_mod (Z.pos mx * 2 ^ (ex - ey - e')) (Z.pos my) ltac:(lia)) as Hdiv.
  destruct (Z.div_eucl (Z.pos mx * 2 ^ (ex - ey - e')) (Z.pos my)) as [q r].
  destruct Hdiv as [Hsplit Hr].
  assert (0 < 2 ^ (ex - ey - e')) as Hpow by lia.
  assert (0 <= q) as Hq by nia.
  pose proof (val_pos my ey) as Hypos.
  assert (val (q * Z.pos my + r) (e' + ey) == val (Z.pos mx) ex)%Q as Hnum.
  { replace (q * Z.pos my + r) with (Z.pos mx * 2 ^ (ex - ey - e')) by lia.
    rewrite val_shift by exact Hs. replace (e' + ey + (ex - ey - e')) with ex by lia.
    reflexivity. }
  rewrite val_add, val_mul in Hnum.
  assert (0 <= val r (e' + ey))%Q as Hrem by (apply val_nonneg; lia).
  apply rounded_at_most.
  apply binary_round_aux_upper; try (vm_compute; congruence); try exact Hq.
  - rewrite val_1_0. apply (Qmult_lt_0_le_reg_r _ _ (val (Z.pos my) ey) Hypos). lra.
  - intros Hl. split.
    + assert (r <> 0) as Hnz.
      { intros ->. apply Hl, new_location_exact. }
      assert (0 < val r (e' + ey))%Q as Hrem'.
      { pose proof (val_pos_pow2_le r (e' + ey) ltac:(lia)).
        pose proof (pow2_pos (e' + ey)). lra. }
      rewrite val_1_0.
      apply (Qmult_lt_r _ _ (val (Z.pos my) ey) Hypos). lra.
    + assert (K <= 0) as HK.
      { destruct (val_digits (Z.pos mx) ex ltac:(lia)) as [Hlo _].
        destruct (val_digits (Z.pos my) ey ltac:(lia)) as [_ Hhi].
        assert (pow2 (Zdigits2 (Z.pos mx) + ex - 1)
                < pow2 (Zdigits2 (Z.pos my) + ey))%Q as H by lra.
        apply pow2_lt_inv in H. unfold K. lia. }
      subst e'. rewrite fexp_eq. lia.
Qed.

(** The difference of a positive number and one that is not larger. *)
Lemma SFsub_not_negative (mx : positive) (ex : Z) (my : positive) (ey : Z) :
  (val (Z.pos my) ey <= val (Z.pos mx) ex)%Q ->
  not_negative
    (SFsub prec emax (S754_finite false mx ex) (S754_finite false my ey)).
Proof.
  intros Hle. cbn [SFsub cond_Zopp].
  pose proof (aligned_val mx ex (Z.min ex ey) ltac:(lia)) as Hx.
  pose proof (aligned_val my ey (Z.min ex ey) ltac:(lia)) as Hy.
  set (ax := fst (shl_align mx ex (Z.min ex ey))) in *.
  set (ay := fst (shl_align my ey (Z.min ex ey))) in *.
  assert (Z.pos ay <= Z.pos ax) as Horder.
  { apply (val_le_inv _ _ (Z.min ex ey)). rewrite Hx, Hy. exact Hle. }
  destruct (Z.pos ax - Z.pos ay) as [| p | p] eqn:E; [reflexivity | | lia].
  cbn [binary_normalize]. unfold binary_round.
  destruct (shl_align p _ _) as [mz ez].
  pose proof (binary_round_aux_nonneg false (Z.pos mz) ez loc_Exact ltac:(lia)) as H.
  unfold not_negative.
  destruct (binary_round_aux prec emax false (Z.pos mz) ez loc_Exact); tauto.
Qed.

Lemma SFdiv_not_negative (x : spec_float) (my : positive) (ey : Z) :
  not_negative x ->
  not_negative (SFdiv prec emax x (S754_finite false my ey)).
Proof.
  destruct x as [s | s | | s mx ex]; cbn [not_negative]; try tauto;
    intros ->; try reflexivity.
  pose proof (SFdiv_positive mx ex my ey) as H.
  destruct (SFdiv prec emax _ _); tauto.
Qed.

Lemma SFmul_not_negative (x : spec_float) (my : positive) (ey : Z) :
  not_negative x ->
  not_negative (SFmul prec emax x (S754_finite false my ey)).
Proof.
  destruct x as [s | s | | s mx ex]; cbn [not_negative]; try tauto;
    intros ->; try reflexivity.
  cbn [SFmul xorb].
  pose proof (binary_round_aux_nonneg false (Z.pos (mx * my)) (ex + ey) loc_Exact
                ltac:(lia)) as H.
  destruct (binary_round_aux prec emax false _ _ _); tauto.
Qed.

Lemma not_negative_leb (x : spec_float) :
  not_negative x -> SFleb (S754_zero false) x = true.
Proof. destruct x as [s | s | | s m e]; cbn; try tauto; intros ->; reflexivity. Qed.

Local Open Scope float_scope.

(** What the order of two positive finite doubles says of their
    specifications. *)
Lemma ordered_positive (x y : float) :
  (0 <? x) = true -> (x <=? y) = true -> (y <? infinity) = true ->
  exists mx ex my ey,
    Prim2SF x = S754_finite false mx ex
    /\ Prim2SF y = S754_finite false my ey
    /\ (val (Z.pos mx) ex <= val (Z.pos my) ey)%Q.
Proof.
  rewrite !ltb_spec, leb_spec.
  pose proof (Prim2SF_valid x) as Hvx. pose proof (Prim2SF_valid y) as Hvy.
  change (Prim2SF 0) with (S754_zero false).
  change (Prim2SF infinity) with (S754_infinity false).
  destruct (Prim2SF x) as [[] | [] | | [] mx ex]; try discriminate;
    destruct (Prim2SF y) as [[] | [] | | [] my ey]; try discriminate.
  intros _ Hle _. exists mx, ex, my, ey.
  split; [reflexivity |]. split; [reflexivity |].
  now apply SFleb_val.
Qed.

(** In binary64 the spread of two positive finite rates in order is a
    number that is not negative, or [Infinity]. *)
Lemma spread_binary64 (bestRate worstRate : float) :
  Binary64.positive worstRate -> (worstRate <=? bestRate) = true ->
  Binary64.positive bestRate ->
  Binary64.nonnegative (Binary64.spread bestRate worstRate).
Proof.
  intros [H0 _] Hle [_ Hfin].
  destruct (ordered_positive _ _ H0 Hle Hfin)
    as (mw & ew & mb & eb & Hw & Hb & Hval).
  assert (not_negative (Prim2SF (Binary64.spread bestRate worstRate))) as Hsign.
  { unfold Binary64.spread. rewrite mul_spec, div_spec, sub_spec, Hw, Hb.
    change (Prim2SF 100) with hundred. unfold hundred.
    apply SFmul_not_negative, SFdiv_not_negative, SFsub_not_negative, Hval. }
  unfold Binary64.nonnegative.
  rewrite is_nan_spec, leb_spec. change (Prim2SF 0) with (S754_zero false).
  split; [| now apply not_negative_leb].
  destruct (Prim2SF (Binary64.spread bestRate worstRate)) as [s | s | | s m e];
    cbn [not_negative] in Hsign; try tauto; subst s; unfold SFeqb; cbn [SFcompare];
    try reflexivity.
  now rewrite Z.compare_refl, Pos.compare_cont_refl.
Qed.

(** In binary64 a positive finite value, divided by a total that is not
    smaller and multiplied by 100, is between 0 and 100. *)
Lemma calculateConcentrationRisk_binary64 (maxPosition totalValue : float) :
  Binary64.positive maxPosition -> (maxPosition <=? totalValue) = true ->
  Binary64.percentage (Binary64.calculateConcentrationRisk maxPosition totalValue).
Proof.
  intros [H0 Hfin] Hle.
  pose proof (Prim2SF_valid
                (Binary64.calculateConcentrationRisk maxPosition totalValue))
    as Hvalid.
  unfold Binary64.percentage.
  rewrite !leb_spec. change (Prim2SF 0) with (S754_zero false).
  change (Prim2SF 100) with hundred.
  apply at_most_hundred_leb; [exact Hvalid |].
  unfold Binary64.calculateConcentrationRisk. rewrite mul_spec, div_spec.
  change (Prim2SF 100) with hundred.
  apply (SFmul_at_most 1 0 25 2); try lia; try (vm_compute; congruence).
  revert H0 Hle Hfin. rewrite !ltb_spec, leb_spec.
  pose proof (Prim2SF_valid maxPosition) as Hvx.
  pose proof (Prim2SF_valid totalValue) as Hvy.
  change (Prim2SF 0) with (S754_zero false).
  change (Prim2SF infinity) with (S754_infinity false).
  destruct (Prim2SF maxPosition) as [[] | [] | | [] mx ex]; try discriminate;
    destruct (Prim2SF totalValue) as [[] | [] | | [] my ey]; try discriminate;
    intros _ Hle _.
  - exact I.
  - apply SFdiv_at_most_one. now apply SFleb_val.
Qed.

End Binary64Ratios.

(* ------------------------------------------------------------------ *)
(** * Further properties of the engines, the adapters and the helpers *)

(** ** The rebalancing policy *)

Open Scope string_scope.
Open Scope Q_scope.

(** ** More on the rebalancing policy *)

Section PolicyCases.

Import RebalancingEngine.
Import RebalancingRecommendation.

Variable self : RebalancingEngine.t.
Variable position : LPPosition.t.

(** A pool returned by the reduction is one of the candidates and no
    candidate scores higher. *)
Lemma pickBest_from_max (score : PoolData.t -> Q) (l : list PoolData.t)
    (start b : PoolData.t) :
  fold_left
    (fun best current =>
       match best with
       | None => Some current
       | Some b0 =>
           if JS.gtb (score current) (score b0) then Some current else Some b0
       end) l (Some start) = Some b ->
  (b = start \/ In b l)
  /\ score start <= score b
  /\ forall c, In c l -> score c <= score b.
Proof using Type.
  revert start. induction l as [| c l IH]; intros start; simpl.
  - intros [= ->]. split; [now left |]. split; [lra | intros c []].
  - destruct (JS.gtb (score c) (score start)) eqn:E; intros H;
      apply IH in H as (Hin & Hstart & Hall).
    + apply gtb_true in E. split; [destruct Hin; auto |].
      split; [lra |]. intros c' [<- | Hc']; [exact Hstart | now apply Hall].
    + apply gtb_false in E. split; [destruct Hin; auto |].
      split; [exact Hstart |]. intros c' [<- | Hc']; [lra | now apply Hall].
Qed.

Lemma pickBest_max (score : PoolData.t -> Q) (l : list PoolData.t)
    (b : PoolData.t) :
  pickBest score l = Some b ->
  In b l /\ forall c, In c l -> score c <= score b.
Proof using Type.
  destruct l as [| c l]; [discriminate |]. unfold pickBest. simpl.
  intros H. apply pickBest_from_max in H as (Hin & Hstart & Hall).
  split; [destruct Hin as [-> | Hin]; [now left | now right] |].
  intros c' [<- | Hc']; [exact Hstart | now apply Hall].
Qed.

Lemma findBetterPool_inv (currentPool best : PoolData.t) :
  findBetterPool self position currentPool = Some best ->
  In best (availablePools self)
  /\ betterCandidate self position currentPool best = true
  /\ forall c, In c (availablePools self) ->
               betterCandidate self position currentPool c = true ->
               PoolData.apy c - PoolData.riskScore c * 0.1
               <= PoolData.apy best - PoolData.riskScore best * 0.1.
Proof using Type.
  unfold findBetterPool. intros H. apply pickBest_max in H as (Hin & Hmax).
  apply filter_In in Hin as (Hin & Hc). split; [exact Hin |]. split; [exact Hc |].
  intros c Hcin Hcc. apply Hmax. apply filter_In. auto.
Qed.

Lemma findSaferPool_inv (currentPool best : PoolData.t) :
  findSaferPool self position currentPool = Some best ->
  In best (availablePools self)
  /\ saferCandidate position currentPool best = true
  /\ forall c, In c (availablePools self) ->
               saferCandidate position currentPool c = true ->
               PoolData.apy c - PoolData.riskScore c
               <= PoolData.apy best - PoolData.riskScore best.
Proof using Type.
  unfold findSaferPool. intros H. apply pickBest_max in H as (Hin & Hmax).
  apply filter_In in Hin as (Hin & Hc). split; [exact Hin |]. split; [exact Hc |].
  intros c Hcin Hcc. apply Hmax. apply filter_In. auto.
Qed.

End PolicyCases.

(** Case analysis on the guards of [evaluatePosition], in program order. *)
Ltac evaluate_cases :=
  unfold RebalancingEngine.evaluatePosition, RebalancingEngine.checkHighRisk,
    RebalancingEngine.checkUnderperformance, RebalancingEngine.checkRiskTolerance,
    RebalancingEngine.checkModerateLoss, RebalancingEngine.holdRecommendation;
  match goal with
  | |- context [JS.gtb ?il (RebalancingStrategy.maxImpermanentLoss ?s * 2)] =>
      let Hexit := fresh "Hexit" in
      destruct (JS.gtb il (RebalancingStrategy.maxImpermanentLoss s * 2)) eqn:Hexit
  end;
  [ | match goal with
      | |- context [JS.ltb ?apy (RebalancingStrategy.targetAPY ?s * 0.7)] =>
          let Hunder := fresh "Hunder" in
          destruct (JS.ltb apy (RebalancingStrategy.targetAPY s * 0.7)) eqn:Hunder
      end;
      [ match goal with
        | |- context [RebalancingEngine.findBetterPool ?a ?b ?c] =>
            let Hbetter := fresh "Hbetter" in
            destruct (RebalancingEngine.findBetterPool a b c) eqn:Hbetter
        end | ];
      [ | match goal with
          | |- context [RebalancingEngine.isRiskTooHigh ?r ?t] =>
              let Hrisk := fresh "Hrisk" in
              destruct (RebalancingEngine.isRiskTooHigh r t) eqn:Hrisk
          end;
          [ match goal with
            | |- context [RebalancingEngine.findSaferPool ?a ?b ?c] =>
                let Hsafer := fresh "Hsafer" in
                destruct (RebalancingEngine.findSaferPool a b c) eqn:Hsafer
            end | ];
          [ | match goal with
              | |- context [JS.gtb ?il (RebalancingStrategy.maxImpermanentLoss ?s)] =>
                  let Hloss := fresh "Hloss" in
                  destruct (JS.gtb il (RebalancingStrategy.maxImpermanentLoss s)) eqn:Hloss
              end .. ] .. ] ];
  cbn [RebalancingEngine.firstReturn RebalancingRecommendation.action
       RebalancingRecommendation.urgency RebalancingRecommendation.newPool
       RebalancingRecommendation.expectedGain RebalancingRecommendation.riskReduction
       RebalancingRecommendation.positionId RebalancingRecommendation.estimatedCost].


(** X1.  [evaluatePosition] answers [exit] exactly when the impermanent
    loss exceeds twice the strategy's maximum: no other rule produces an
    exit. *)
Theorem evaluatePosition_exit_iff
    (self : RebalancingEngine.t) (position : LPPosition.t)
    (currentPool : PoolData.t) (currentAPY impermanentLoss riskScore : Q) :
  RebalancingRecommendation.action
    (RebalancingEngine.evaluatePosition self position currentPool
       currentAPY impermanentLoss riskScore) = exit
  <-> RebalancingStrategy.maxImpermanentLoss (RebalancingEngine.strategy self) * 2
      < impermanentLoss.
Proof.
  evaluate_cases;
    try (apply gtb_true in Hexit; split; [intros _; exact Hexit | reflexivity]);
    apply gtb_false in Hexit; (split; [discriminate | intros H; lra]).
Qed.

(** X2.  When the yield reaches 0.7 times the target and the risk score is
    within the tolerance ceiling, the impermanent loss alone decides: hold
    (urgency low) up to the maximum, adjust without a new pool (urgency
    medium, risk reduction = the excess) up to twice the maximum, exit above
    that. *)
Theorem evaluatePosition_by_loss
    (self : RebalancingEngine.t) (position : LPPosition.t)
    (currentPool : PoolData.t) (currentAPY impermanentLoss riskScore : Q) :
  let strategy := RebalancingEngine.strategy self in
  let maxLoss := RebalancingStrategy.maxImpermanentLoss strategy in
  let r := RebalancingEngine.evaluatePosition self position currentPool
             currentAPY impermanentLoss riskScore in
  0 <= maxLoss ->
  RebalancingStrategy.targetAPY strategy * 0.7 <= currentAPY ->
  RebalancingEngine.isRiskTooHigh riskScore
    (RebalancingStrategy.riskTolerance strategy) = false ->
  (impermanentLoss <= maxLoss ->
   r = RebalancingEngine.holdRecommendation position currentAPY
   /\ RebalancingRecommendation.action r = hold
   /\ RebalancingRecommendation.urgency r = low)
  /\ (maxLoss < impermanentLoss <= maxLoss * 2 ->
      RebalancingRecommendation.action r = adjust
      /\ RebalancingRecommendation.urgency r = medium
      /\ RebalancingRecommendation.newPool r = None
      /\ RebalancingRecommendation.riskReduction r
         = Some (impermanentLoss - maxLoss))
  /\ (maxLoss * 2 < impermanentLoss ->
      RebalancingRecommendation.action r = exit
      /\ RebalancingRecommendation.urgency r = high).
Proof.
  cbv zeta. intros Hmax Hyield Hrisk.
  apply ltb_false in Hyield.
  repeat split; revert H; evaluate_cases; intros H;
    try reflexivity; try congruence;
    try (apply gtb_true in Hexit); try (apply gtb_false in Hexit);
    try (apply gtb_true in Hloss); try (apply gtb_false in Hloss);
    try lra.
Qed.

(** The specification's hold example: yield 9 against target 8, loss 1
    against maximum 5, risk 25 against ceiling 60. *)
Lemma evaluatePosition_by_loss_witness :
  RebalancingRecommendation.action
    (RebalancingEngine.evaluatePosition (balancedEngine mockPools) wethUsdc
       uniswapPool 9 1 25) = hold.
Proof.
  pose proof (evaluatePosition_by_loss (balancedEngine mockPools) wethUsdc
                uniswapPool 9 1 25) as H.
  cbv zeta in H.
  destruct H as (Hhold & _); [discriminate | discriminate | reflexivity |].
  apply Hhold. discriminate.
Defined.



(** X4.  Among the pools that pass its filter, [findBetterPool] returns one
    with the highest [apy - 0.1 * riskScore] and [findSaferPool] one with the
    highest [apy - riskScore]; each returns [null] only when no pool passes
    its filter. *)
Theorem pool_search_optimal
    (self : RebalancingEngine.t) (position : LPPosition.t)
    (currentPool : PoolData.t) :
  (match RebalancingEngine.findBetterPool self position currentPool with
   | Some best =>
       In best (RebalancingEngine.availablePools self)
       /\ RebalancingEngine.betterCandidate self position currentPool best = true
       /\ forall c,
            In c (RebalancingEngine.availablePools self) ->
            RebalancingEngine.betterCandidate self position currentPool c = true ->
            PoolData.apy c - PoolData.riskScore c * 0.1
            <= PoolData.apy best - PoolData.riskScore best * 0.1
   | None =>
       forall c,
         In c (RebalancingEngine.availablePools self) ->
         RebalancingEngine.betterCandidate self position currentPool c = false
   end)
  /\ (match RebalancingEngine.findSaferPool self position currentPool with
      | Some best =>
          In best (RebalancingEngine.availablePools self)
          /\ RebalancingEngine.saferCandidate position currentPool best = true
          /\ forall c,
               In c (RebalancingEngine.availablePools self) ->
               RebalancingEngine.saferCandidate position currentPool c = true ->
               PoolData.apy c - PoolData.riskScore c
               <= PoolData.apy best - PoolData.riskScore best
      | None =>
          forall c,
            In c (RebalancingEngine.availablePools self) ->
            RebalancingEngine.saferCandidate position currentPool c = false
      end).
Proof.
  split.
  - destruct (RebalancingEngine.findBetterPool self position currentPool)
      as [best |] eqn:E.
    + now apply findBetterPool_inv.
    + intros c Hin.
      destruct (RebalancingEngine.betterCandidate self position currentPool c)
        eqn:Hc; [| reflexivity].
      destruct (findBetterPool_Some self position currentPool c Hin Hc)
        as (b & Hb & _). congruence.
  - destruct (RebalancingEngine.findSaferPool self position currentPool)
      as [best |] eqn:E.
    + now apply findSaferPool_inv.
    + intros c Hin.
      destruct (RebalancingEngine.saferCandidate position currentPool c)
        eqn:Hc; [| reflexivity].
      unfold RebalancingEngine.findSaferPool in E.
      destruct (pickBest_Some
                  (fun p => PoolData.apy p - PoolData.riskScore p)
                  (List.filter (RebalancingEngine.saferCandidate position currentPool)
                     (RebalancingEngine.availablePools self))) as (b & Hb & _);
        [| congruence].
      intros Hnil.
      assert (In c (List.filter
                      (RebalancingEngine.saferCandidate position currentPool)
                      (RebalancingEngine.availablePools self))) as Hf
        by (apply filter_In; auto).
      rewrite Hnil in Hf. destruct Hf.
Qed.

(** X5.  [executeRebalancing] applied to a recommendation of
    [evaluatePosition] returns [false] exactly when the recommendation is an
    [adjust] without new pool, that is when it was issued for moderate
    impermanent loss: [adjustPosition] then reads [newPool.protocol] of
    [undefined] and the [catch] answers [false].  Exit, rebalance, hold and
    adjust-to-a-safer-pool recommendations execute. *)
Theorem executeRebalancing_of_evaluatePosition
    (self : RebalancingEngine.t) (position : LPPosition.t)
    (currentPool : PoolData.t) (currentAPY impermanentLoss riskScore : Q) :
  let r := RebalancingEngine.evaluatePosition self position currentPool
             currentAPY impermanentLoss riskScore in
  (Execution.executeRebalancing r = false
   <-> RebalancingRecommendation.action r = adjust
       /\ RebalancingRecommendation.newPool r = None)
  /\ (RebalancingRecommendation.action r = adjust ->
      RebalancingRecommendation.newPool r = None ->
      RebalancingStrategy.maxImpermanentLoss (RebalancingEngine.strategy self)
        < impermanentLoss
      /\ RebalancingRecommendation.riskReduction r
         = Some (impermanentLoss
                 - RebalancingStrategy.maxImpermanentLoss
                     (RebalancingEngine.strategy self))).
Proof.
  cbv zeta. unfold Execution.executeRebalancing.
  evaluate_cases; cbn [Execution.exitPosition Execution.rebalancePosition
                       Execution.adjustPosition].
  all: split.
  all: try (split; [discriminate | intros [H1 H2]; discriminate]).
  all: try (intros H1 H2; discriminate).
  all: try (split; [intros _; split; reflexivity | reflexivity]).
  all: intros _ _; apply gtb_true in Hloss; split; [exact Hloss | reflexivity].
Qed.

(** X6.  Urgency [high] is only given with [exit] or [rebalance], so in
    every analysis [positionsAtRisk <= underperformingPositions <=
    recommendations.length <= totalPositions]. *)
Theorem analyzePositions_counters_ordered
    (self : RebalancingEngine.t) (now : Date)
    (positions : list LPPosition.t) (pools : list PoolData.t) :
  let analysis := snd (RebalancingEngine.analyzePositions self now positions pools) in
  (forall position currentPool currentAPY impermanentLoss riskScore,
      RebalancingRecommendation.urgency
        (RebalancingEngine.evaluatePosition self position currentPool
           currentAPY impermanentLoss riskScore) = high ->
      RebalancingRecommendation.action
        (RebalancingEngine.evaluatePosition self position currentPool
           currentAPY impermanentLoss riskScore) = exit
      \/ RebalancingRecommendation.action
           (RebalancingEngine.evaluatePosition self position currentPool
              currentAPY impermanentLoss riskScore) = rebalance)
  /\ (RebalancingAnalysis.positionsAtRisk analysis
      <= RebalancingAnalysis.underperformingPositions analysis)%nat
  /\ (RebalancingAnalysis.underperformingPositions analysis
      <= length (RebalancingAnalysis.recommendations analysis))%nat
  /\ (length (RebalancingAnalysis.recommendations analysis)
      <= RebalancingAnalysis.totalPositions analysis)%nat.
Proof.
  cbv zeta.
  assert (forall s position currentPool currentAPY impermanentLoss riskScore,
             RebalancingRecommendation.urgency
               (RebalancingEngine.evaluatePosition s position currentPool
                  currentAPY impermanentLoss riskScore) = high ->
             RebalancingRecommendation.action
               (RebalancingEngine.evaluatePosition s position currentPool
                  currentAPY impermanentLoss riskScore) = exit
             \/ RebalancingRecommendation.action
                  (RebalancingEngine.evaluatePosition s position currentPool
                     currentAPY impermanentLoss riskScore) = rebalance) as Hhigh.
  { intros s position currentPool currentAPY impermanentLoss riskScore.
    evaluate_cases; intros H; try discriminate H; auto. }
  split; [apply Hhigh |].
  unfold RebalancingEngine.analyzePositions. simpl.
  rewrite loop_records.
  set (self' := RebalancingEngine.mk (RebalancingEngine.strategy self) positions pools).
  destruct (records_totals
              (omap (RebalancingEngine.analyzePosition self' now) positions)
              RebalancingEngine.noTotals) as (H1 & H2 & H3 & _).
  rewrite H1, H2, H3. simpl.
  assert (Forall (fun r => isAtRisk r = true -> isUnderperforming r = true)
            (omap (RebalancingEngine.analyzePosition self' now) positions)) as Hall.
  { apply Forall_forall. intros r Hr.
    apply list_elem_of_omap in Hr as (p & _ & Hp).
    unfold RebalancingEngine.analyzePosition in Hp.
    destruct (find _ _) as [cp |]; [| discriminate]. injection Hp as <-.
    unfold isAtRisk, isUnderperforming. intros Hu.
    destruct (Hhigh self' p cp (PoolData.apy cp)
                (RebalancingEngine.estimateImpermanentLoss now p)
                (PoolData.riskScore cp)) as [-> | ->]; try reflexivity.
    destruct (RebalancingRecommendation.urgency _); try discriminate Hu; reflexivity. }
  clear H1 H2 H3. split; [| split].
  - induction Hall as [| r rs Hr Hrs IH]; [simpl; lia |].
    cbn [List.filter]. destruct (isAtRisk r) eqn:Ea.
    + rewrite (Hr eq_refl). cbn [length]. lia.
    + destruct (isUnderperforming r); cbn [length]; lia.
  - apply filter_length_le.
  - generalize (RebalancingEngine.analyzePosition self' now). clear.
    intros f. induction positions as [| p ps IH]; [simpl; lia |].
    cbn [omap list_omap] in *. destruct (f p); cbn [length]; lia.
Qed.

(** ** The estimate over time, and freshly fetched positions *)

Lemma days_floor_monotone (a b : Z) :
  (a <= b)%Z ->
  (Qfloor (inject_Z a / (1000 * 60 * 60 * 24))
   <= Qfloor (inject_Z b / (1000 * 60 * 60 * 24)))%Z.
Proof.
  intros Hab. apply Qfloor_resp_le.
  unfold Qdiv. apply Qmult_le_compat_r; [now rewrite <- Zle_Qle | discriminate].
Qed.

Lemma days_floor_value (k a : Z) :
  (k * oneDay <= a < (k + 1) * oneDay)%Z ->
  Qfloor (inject_Z a / (1000 * 60 * 60 * 24)) = k.
Proof.
  intros [Hlo Hhi].
  assert (inject_Z k <= inject_Z a / (1000 * 60 * 60 * 24)) as H1.
  { apply Qle_shift_div_l; [reflexivity |].
    change (1000 * 60 * 60 * 24) with (inject_Z oneDay).
    rewrite <- inject_Z_mult, <- Zle_Qle. exact Hlo. }
  assert (inject_Z a / (1000 * 60 * 60 * 24) < inject_Z (k + 1)) as H2.
  { apply Qlt_shift_div_r; [reflexivity |].
    change (1000 * 60 * 60 * 24) with (inject_Z oneDay).
    rewrite <- inject_Z_mult, <- Zlt_Qlt. exact Hhi. }
  pose proof (Qfloor_le (inject_Z a / (1000 * 60 * 60 * 24))) as H3.
  pose proof (Qlt_floor (inject_Z a / (1000 * 60 * 60 * 24))) as H4.
  set (x := inject_Z a / (1000 * 60 * 60 * 24)) in *.
  assert (inject_Z k < inject_Z (Qfloor x + 1)) as H5 by lra.
  assert (inject_Z (Qfloor x) < inject_Z (k + 1)) as H6 by lra.
  rewrite <- Zlt_Qlt in H5, H6. lia.
Qed.

Lemma estimateImpermanentLoss_first_day (position : LPPosition.t) (now : Date) :
  (LPPosition.depositTimestamp position <= now
   < LPPosition.depositTimestamp position + oneDay)%Z ->
  RebalancingEngine.estimateImpermanentLoss now position == 0.
Proof.
  intros Hfresh. unfold RebalancingEngine.estimateImpermanentLoss, JS.Math_floor.
  rewrite (days_floor_value 0 (now - LPPosition.depositTimestamp position))
    by (unfold oneDay in *; lia).
  reflexivity.
Qed.

(** X7.  The estimate never decreases as the clock advances; it is 0
    during the first day after the deposit and 15 from the 150th day on. *)
Theorem estimateImpermanentLoss_over_time
    (position : LPPosition.t) (now later : Date) :
  (now <= later)%Z ->
  RebalancingEngine.estimateImpermanentLoss now position
    <= RebalancingEngine.estimateImpermanentLoss later position
  /\ ((LPPosition.depositTimestamp position <= now
       < LPPosition.depositTimestamp position + oneDay)%Z ->
      RebalancingEngine.estimateImpermanentLoss now position == 0)
  /\ ((LPPosition.depositTimestamp position + 150 * oneDay <= now)%Z ->
      RebalancingEngine.estimateImpermanentLoss now position == 15).
Proof.
  intros Hlater. unfold RebalancingEngine.estimateImpermanentLoss, JS.Math_floor.
  split; [| split].
  - pose proof (days_floor_monotone
                  (now - LPPosition.depositTimestamp position)
                  (later - LPPosition.depositTimestamp position) ltac:(lia)) as Hd.
    rewrite Zle_Qle in Hd.
    match goal with
    | |- JS.Math_min ?a 15 <= JS.Math_min ?b 15 =>
        destruct (Math_min_spec a 15) as [[? ->] | [? ->]];
        destruct (Math_min_spec b 15) as [[? ->] | [? ->]]; lra
    end.
  - apply estimateImpermanentLoss_first_day.
  - intros Hold.
    pose proof (days_floor_monotone (150 * oneDay)
                  (now - LPPosition.depositTimestamp position) ltac:(lia)) as Hd.
    rewrite (days_floor_value 150 (150 * oneDay)) in Hd by (unfold oneDay; lia).
    rewrite Zle_Qle in Hd. change (inject_Z 150) with 150 in Hd.
    match goal with
    | |- JS.Math_min ?a 15 == 15 =>
        destruct (Math_min_spec a 15) as [[? ->] | [? ->]]; lra
    end.
Qed.

(** The position deposited at time 0, looked at after 20 and after 200
    days: 2 and 15. *)
Lemma estimateImpermanentLoss_over_time_witness :
  RebalancingEngine.estimateImpermanentLoss (20 * oneDay)%Z wethUsdc
    <= RebalancingEngine.estimateImpermanentLoss (200 * oneDay)%Z wethUsdc.
Proof.
  apply (estimateImpermanentLoss_over_time wethUsdc (20 * oneDay)%Z (200 * oneDay)%Z).
  discriminate.
Defined.

Lemma fold_addGain_nonnegative (rs : list RebalancingRecommendation.t) (a : Q) :
  Forall (fun r => forall g,
              RebalancingRecommendation.expectedGain r = Some g -> 0 <= g) rs ->
  a <= fold_left addGain rs a.
Proof.
  intros Hall. revert a. induction Hall as [| r rs Hr Hrs IH]; intros a; simpl.
  - lra.
  - assert (a <= addGain a r) as Hstep.
    { unfold addGain. destruct (RebalancingRecommendation.expectedGain r) as [g |];
        [| lra].
      destruct (JS.truthy g); [| lra]. specialize (Hr g eq_refl). lra. }
    specialize (IH (addGain a r)). lra.
Qed.

(** X8.  When no position value and no pool yield is negative, every
    expected gain is non-negative and so is [totalPotentialGain]. *)
Theorem totalPotentialGain_nonnegative
    (self : RebalancingEngine.t) (now : Date)
    (positions : list LPPosition.t) (pools : list PoolData.t) :
  Forall (fun p => 0 <= LPPosition.currentValue p) positions ->
  Forall (fun pool => 0 <= PoolData.apy pool) pools ->
  let analysis := snd (RebalancingEngine.analyzePositions self now positions pools) in
  Forall (fun r => forall g,
              RebalancingRecommendation.expectedGain r = Some g -> 0 <= g)
    (RebalancingAnalysis.recommendations analysis)
  /\ 0 <= RebalancingAnalysis.totalPotentialGain analysis.
Proof.
  intros Hvalues Hyields. cbv zeta.
  unfold RebalancingEngine.analyzePositions. simpl.
  rewrite loop_records.
  set (self' := RebalancingEngine.mk (RebalancingEngine.strategy self) positions pools).
  destruct (records_totals
              (omap (RebalancingEngine.analyzePosition self' now) positions)
              RebalancingEngine.noTotals) as (H1 & _ & _ & H4).
  rewrite H1, H4. simpl.
  assert (Forall (fun r => forall g,
                      RebalancingRecommendation.expectedGain r = Some g -> 0 <= g)
            (omap (RebalancingEngine.analyzePosition self' now) positions)) as Hall.
  { apply Forall_forall. intros r Hr.
    apply list_elem_of_omap in Hr as (p & Hp & Hr).
    unfold RebalancingEngine.analyzePosition in Hr.
    destruct (find _ _) as [cp |] eqn:Hfind; [| discriminate]. injection Hr as <-.
    apply find_some in Hfind as [Hcp _]. simpl in Hcp.
    rewrite Forall_forall in Hvalues. rewrite Forall_forall in Hyields.
    rewrite <- list_elem_of_In in Hcp.
    specialize (Hvalues p Hp). specialize (Hyields cp Hcp). cbv beta in *.
    evaluate_cases; intros g [= <-].
    apply findBetterPool_inv in Hbetter as (_ & Hc & _).
    unfold RebalancingEngine.betterCandidate in Hc.
    apply andb_true_iff in Hc as [Hc _]. apply andb_true_iff in Hc as [_ Hapy].
    apply gtb_true in Hapy.
    unfold RebalancingEngine.calculatePotentialGain.
    assert (0 <= LPPosition.currentValue p * (PoolData.apy t - PoolData.apy cp))
      by (apply Qmult_le_0_compat; lra).
    apply Qle_shift_div_l; [reflexivity | lra]. }
  split; [exact Hall |]. now apply fold_addGain_nonnegative.
Qed.

Lemma totalPotentialGain_nonnegative_witness :
  0 <= RebalancingAnalysis.totalPotentialGain
         (snd (RebalancingEngine.analyzePositions
                 (RebalancingEngine.constructor aggressive) (20 * oneDay)%Z
                 [wethUsdc; daiWbtc] mockPools)).
Proof.
  apply (totalPotentialGain_nonnegative
           (RebalancingEngine.constructor aggressive) (20 * oneDay)%Z
           [wethUsdc; daiWbtc] mockPools).
  - repeat constructor; discriminate.
  - repeat constructor; discriminate.
Defined.

(** ** The analysis over what the adapters return *)

Lemma analyze_no_pools (self : RebalancingEngine.t) (now : Date)
    (positions : list LPPosition.t) :
  RebalancingEngine.availablePools self = [] ->
  omap (RebalancingEngine.analyzePosition self now) positions = [].
Proof.
  intros Hpools. induction positions as [| p ps IH]; [reflexivity |].
  cbn [omap list_omap] in *. unfold RebalancingEngine.analyzePosition at 1.
  rewrite Hpools. simpl. exact IH.
Qed.

(** X9.  A failed subgraph query does not make the analysis fail.  When
    the positions query fails, the analysis counts no position; when the
    pools query fails, it counts the fetched positions and, since no
    position finds its pool, recommends nothing.  In both cases every
    counter and the total gain are 0. *)
Theorem analyzePositions_after_failed_fetch
    (self : RebalancingEngine.t) (walletAddress : string) (fetched now : Date)
    (positionsResponse : Response RawPosition.t)
    (poolsResponse : Response RawPool.t) :
  let positions := Api.fetchUserPositions walletAddress fetched positionsResponse in
  let pools := Api.fetchUniswapPools poolsResponse in
  let analysis := snd (RebalancingEngine.analyzePositions self now positions pools) in
  ((positionsResponse = Thrown \/ positionsResponse = WithErrors) ->
   RebalancingAnalysis.totalPositions analysis = 0%nat)
  /\ ((poolsResponse = Thrown \/ poolsResponse = WithErrors) ->
      forall raw, positionsResponse = WithData raw ->
      RebalancingAnalysis.totalPositions analysis = length raw)
  /\ ((positionsResponse = Thrown \/ positionsResponse = WithErrors
       \/ poolsResponse = Thrown \/ poolsResponse = WithErrors) ->
      RebalancingAnalysis.recommendations analysis = []
      /\ RebalancingAnalysis.positionsAtRisk analysis = 0%nat
      /\ RebalancingAnalysis.underperformingPositions analysis = 0%nat
      /\ RebalancingAnalysis.totalPotentialGain analysis = 0).
Proof.
  cbv zeta. split; [| split].
  - intros [-> | ->]; reflexivity.
  - intros _ raw ->. unfold RebalancingEngine.analyzePositions. simpl.
    apply length_map.
  - intros H.
    unfold RebalancingEngine.analyzePositions.
    cbn [snd RebalancingAnalysis.recommendations RebalancingAnalysis.positionsAtRisk
         RebalancingAnalysis.underperformingPositions
         RebalancingAnalysis.totalPotentialGain RebalancingEngine.positions].
    rewrite loop_records.
    match goal with
    | |- context [omap ?f ?l] => assert (omap f l = []) as ->
    end; [| repeat split; reflexivity].
    destruct H as [-> | [-> | [-> | ->]]]; try reflexivity;
      now apply analyze_no_pools.
Qed.

(** X10.  Positions come from [fetchUserPositions] stamped with the fetch
    time.  Analysed less than a day later under a strategy whose maximum
    loss is not negative, their estimated loss is 0: no recommendation is
    an exit, none is an adjust without new pool, and every recommendation
    executes. *)
Theorem analyzePositions_of_fetched_positions
    (self : RebalancingEngine.t) (walletAddress : string) (fetched now : Date)
    (positionsResponse : Response RawPosition.t) (pools : list PoolData.t) :
  0 <= RebalancingStrategy.maxImpermanentLoss (RebalancingEngine.strategy self) ->
  (fetched <= now < fetched + oneDay)%Z ->
  let positions := Api.fetchUserPositions walletAddress fetched positionsResponse in
  let analysis := snd (RebalancingEngine.analyzePositions self now positions pools) in
  Forall (fun r =>
            RebalancingRecommendation.action r <> exit
            /\ (RebalancingRecommendation.action r = adjust ->
                RebalancingRecommendation.newPool r <> None)
            /\ Execution.executeRebalancing r = true)
    (RebalancingAnalysis.recommendations analysis).
Proof.
  intros Hmax Hfresh. cbv zeta.
  unfold RebalancingEngine.analyzePositions.
  cbn [snd RebalancingAnalysis.recommendations RebalancingEngine.positions].
  rewrite loop_records.
  match goal with
  | |- context [fold_left RebalancingEngine.record ?rs RebalancingEngine.noTotals] =>
      destruct (records_totals rs RebalancingEngine.noTotals) as (-> & _)
  end.
  cbn [RebalancingEngine.recommendations RebalancingEngine.noTotals app].
  apply Forall_forall. intros r Hr.
  apply list_elem_of_omap in Hr as (p & Hp & Hr).
  assert (LPPosition.depositTimestamp p = fetched) as Hstamp.
  { destruct positionsResponse as [| | raw]; simpl in Hp;
      try (apply elem_of_nil in Hp; contradiction).
    apply list_elem_of_fmap in Hp as (q & -> & _). reflexivity. }
  unfold RebalancingEngine.analyzePosition in Hr.
  destruct (find _ _) as [cp |]; [| discriminate]. injection Hr as <-.
  pose proof (estimateImpermanentLoss_first_day p now) as Hzero.
  rewrite Hstamp in Hzero. specialize (Hzero Hfresh).
  set (il := RebalancingEngine.estimateImpermanentLoss now p) in *.
  unfold Execution.executeRebalancing.
  evaluate_cases;
    cbn [Execution.exitPosition Execution.rebalancePosition Execution.adjustPosition];
    try (apply gtb_true in Hexit; cbn [RebalancingEngine.strategy] in Hexit; lra);
    try (apply gtb_true in Hloss; cbn [RebalancingEngine.strategy] in Hloss; lra);
    repeat split; try discriminate; try reflexivity.
Qed.

(** One fetched WETH/USDC position, analysed a second after the fetch. *)
Lemma analyzePositions_of_fetched_positions_witness :
  Forall (fun r =>
            RebalancingRecommendation.action r <> exit
            /\ (RebalancingRecommendation.action r = adjust ->
                RebalancingRecommendation.newPool r <> None)
            /\ Execution.executeRebalancing r = true)
    (RebalancingAnalysis.recommendations
       (snd (RebalancingEngine.analyzePositions
               (RebalancingEngine.constructor balanced) 1000%Z
               (Api.fetchUserPositions "0xabc" 0%Z
                  (WithData [RawPosition.mk "1" "0xpool" "WETH" "USDC"
                               (-600) 600 1 1000]))
               mockPools))).
Proof.
  apply (analyzePositions_of_fetched_positions
           (RebalancingEngine.constructor balanced) "0xabc" 0%Z 1000%Z
           (WithData [RawPosition.mk "1" "0xpool" "WETH" "USDC" (-600) 600 1 1000])
           mockPools).
  - discriminate.
  - split; [discriminate | reflexivity].
Defined.

(** ** Creating, validating and managing strategies *)

Lemma createCustomStrategy_valid_iff
    (numberToString : JS.number -> string) (now : Date) (name : string)
    (targetAPY maxImpermanentLoss : JS.number) (riskTolerance : Level) :
  validateStrategy
    (createCustomStrategy numberToString now name targetAPY
       maxImpermanentLoss riskTolerance) = []
  <-> accepted 0 100 targetAPY /\ accepted 0 50 maxImpermanentLoss.
Proof.
  destruct (validateStrategy_messages
              (createCustomStrategy numberToString now name targetAPY
                 maxImpermanentLoss riskTolerance)) as (Hempty & _).
  rewrite Hempty. unfold createCustomStrategy.
  cbn [RebalancingStrategy.targetAPY RebalancingStrategy.maxImpermanentLoss
       RebalancingStrategy.rebalanceThreshold].
  assert (accepted 5 50
            (JS.Num (match riskTolerance with low => 10 | medium => 15 | high => 20 end)))
    as Hthreshold.
  { right. destruct riskTolerance; cbn [within]; lra. }
  tauto.
Qed.

(** X11.  A strategy made by [createCustomStrategy] never fails the
    rebalance-threshold rule (its threshold is 10, 15 or 20).
    [validateStrategy] reports nothing for it exactly when each of the two
    numbers it was made from is either within its range (0..100 for the
    target APY, 0..50 for the maximum impermanent loss) or [NaN]. *)
Theorem validateStrategy_of_createCustomStrategy
    (numberToString : JS.number -> string) (now : Date) (name : string)
    (targetAPY maxImpermanentLoss : JS.number) (riskTolerance : Level) :
  let s := createCustomStrategy numberToString now name targetAPY
             maxImpermanentLoss riskTolerance in
  ~ In rebalanceThreshold_message (validateStrategy s)
  /\ (validateStrategy s = []
      <-> (isNaN targetAPY \/ within 0 100 targetAPY)
          /\ (isNaN maxImpermanentLoss \/ within 0 50 maxImpermanentLoss)).
Proof.
  cbv zeta. split.
  - destruct (validateStrategy_messages
                (createCustomStrategy numberToString now name targetAPY
                   maxImpermanentLoss riskTolerance)) as (_ & _ & _ & Hthreshold & _).
    rewrite Hthreshold. intros H. apply H. right.
    unfold createCustomStrategy. cbn [RebalancingStrategy.rebalanceThreshold].
    destruct riskTolerance; cbn [within]; lra.
  - apply createCustomStrategy_valid_iff.
Qed.

Section Settings.

Import SettingsPage.

Lemma validateStrategy_ignores_enabled (s : RebalancingStrategy.record JS.number) (b : bool) :
  validateStrategy (withEnabled s b) = validateStrategy s.
Proof using Type. reflexivity. Qed.

Lemma at_most_one_enabled (k : string) (l : list (RebalancingStrategy.record JS.number)) :
  NoDup (map RebalancingStrategy.id l) ->
  (forall s, In s l -> RebalancingStrategy.enabled s = true ->
             RebalancingStrategy.id s = k) ->
  (length (List.filter RebalancingStrategy.enabled l) <= 1)%nat.
Proof using Type.
  induction l as [| s l IH]; intros Hnodup Hk; [simpl; lia |].
  simpl in Hnodup. apply NoDup_cons in Hnodup as [Hnotin Hnodup].
  cbn [List.filter]. destruct (RebalancingStrategy.enabled s) eqn:Es.
  - assert (List.filter RebalancingStrategy.enabled l = []) as ->; [| simpl; lia].
    destruct (List.filter RebalancingStrategy.enabled l) as [| s' rest] eqn:Ef;
      [reflexivity |].
    assert (In s' (List.filter RebalancingStrategy.enabled l)) as Hin
      by (rewrite Ef; now left).
    apply filter_In in Hin as [Hin Hs'].
    exfalso. apply Hnotin.
    rewrite list_elem_of_In, (Hk s (or_introl eq_refl) Es),
      <- (Hk s' (or_intror Hin) Hs').
    now apply in_map.
  - apply IH; [exact Hnodup |]. intros s' Hin. apply Hk. now right.
Qed.

(** X12.  After [toggleStrategy(id)] the list has the same ids in the same
    order, every enabled strategy carries the toggled id and was disabled
    before; so when the ids are pairwise distinct at most one strategy is
    enabled, and toggling the id of an enabled strategy leaves none
    enabled. *)
Theorem toggleStrategy_enables_only_the_toggled
    (strategyId : string) (state : State) :
  let before := strategies state in
  let after := strategies (toggleStrategy strategyId state) in
  map RebalancingStrategy.id after = map RebalancingStrategy.id before
  /\ Forall2 (fun s s' =>
                RebalancingStrategy.enabled s' = true ->
                RebalancingStrategy.id s = strategyId
                /\ RebalancingStrategy.enabled s = false) before after
  /\ (NoDup (map RebalancingStrategy.id before) ->
      (length (List.filter RebalancingStrategy.enabled after) <= 1)%nat)
  /\ ((forall s, In s before -> RebalancingStrategy.id s = strategyId ->
                 RebalancingStrategy.enabled s = true) ->
      List.filter RebalancingStrategy.enabled after = []).
Proof using Type.
  cbv zeta. unfold toggleStrategy. cbn [strategies].
  set (toggle := fun s => if String.eqb (RebalancingStrategy.id s) strategyId
                          then withEnabled s (negb (RebalancingStrategy.enabled s))
                          else withEnabled s false).
  assert (forall s, RebalancingStrategy.id (toggle s) = RebalancingStrategy.id s)
    as Hid by (intros s; unfold toggle; destruct (String.eqb _ _); reflexivity).
  assert (forall s, RebalancingStrategy.enabled (toggle s) = true ->
                    RebalancingStrategy.id s = strategyId
                    /\ RebalancingStrategy.enabled s = false) as Hen.
  { intros s. unfold toggle.
    destruct (String.eqb (RebalancingStrategy.id s) strategyId) eqn:E; simpl.
    - apply String.eqb_eq in E. intros H. apply negb_true_iff in H. auto.
    - discriminate. }
  assert (map RebalancingStrategy.id (map toggle (strategies state))
          = map RebalancingStrategy.id (strategies state)) as Hids.
  { rewrite map_map. apply map_ext. exact Hid. }
  split; [exact Hids |]. split; [| split].
  - clear Hids. induction (strategies state) as [| s l IH]; cbn [map];
      constructor; [exact (Hen s) | exact IH].
  - intros Hnodup. apply (at_most_one_enabled strategyId).
    + now rewrite Hids.
    + intros s' Hin Hs'. apply in_map_iff in Hin as (s & <- & _).
      rewrite Hid. now apply Hen.
  - clear Hids. induction (strategies state) as [| s l IH]; intros Hall;
      [reflexivity |].
    cbn [map List.filter].
    destruct (RebalancingStrategy.enabled (toggle s)) eqn:E.
    + apply Hen in E as [E1 E2].
      rewrite (Hall s (or_introl eq_refl) E1) in E2. discriminate.
    + apply IH. intros s' Hin. apply Hall. now right.
Qed.

Lemma toggleStrategy_keeps_valid (strategyId : string) (state : State) :
  Forall (fun s => validateStrategy s = []) (strategies state) ->
  Forall (fun s => validateStrategy s = [])
    (strategies (toggleStrategy strategyId state)).
Proof using Type.
  intros Hvalid. unfold toggleStrategy. cbn [strategies].
  induction Hvalid as [| s l Hs _ IH]; cbn [map]; constructor; [| exact IH].
  destruct (String.eqb _ _); now rewrite validateStrategy_ignores_enabled.
Qed.

Lemma deleteStrategy_keeps_valid
    (confirmed : bool) (strategyId : string) (state : State) :
  Forall (fun s => validateStrategy s = []) (strategies state) ->
  Forall (fun s => validateStrategy s = [])
    (strategies (deleteStrategy confirmed strategyId state)).
Proof using Type.
  intros Hvalid. unfold deleteStrategy. destruct confirmed; [| exact Hvalid].
  cbn [strategies].
  induction Hvalid as [| s l Hs _ IH]; cbn [List.filter]; [constructor |].
  destruct (negb _); [constructor |]; assumption.
Qed.

(** X13.  [createNewStrategy] appends a strategy (and resets the form)
    exactly when each of the form's two numbers is within its range
    (0..100 for the target APY, 0..50 for the maximum impermanent loss) or
    [NaN], and otherwise leaves the state as it is; with [toggleStrategy]
    and [deleteStrategy] it keeps a list of strategies that pass
    [validateStrategy] passing. *)
Theorem strategy_list_stays_valid
    (numberToString : JS.number -> string) (now later : Date)
    (confirmed : bool) (strategyId : string) (state : State) :
  Forall (fun s => validateStrategy s = []) (strategies state) ->
  let form := newStrategy state in
  let created := createNewStrategy numberToString now later state in
  let passes :=
    (isNaN (targetAPY form) \/ within 0 100 (targetAPY form))
    /\ (isNaN (maxImpermanentLoss form)
        \/ within 0 50 (maxImpermanentLoss form)) in
  (passes ->
   created
   = mkState
       (strategies state
        ++ [createCustomStrategy numberToString later (name form) (targetAPY form)
              (maxImpermanentLoss form) (riskTolerance form)])%list
       false emptyForm)
  /\ (~ passes -> created = state)
  /\ Forall (fun s => validateStrategy s = []) (strategies created)
  /\ Forall (fun s => validateStrategy s = [])
       (strategies (toggleStrategy strategyId state))
  /\ Forall (fun s => validateStrategy s = [])
       (strategies (deleteStrategy confirmed strategyId state)).
Proof using Type.
  intros Hvalid. cbv zeta.
  pose proof (createCustomStrategy_valid_iff numberToString now
                (name (newStrategy state)) (targetAPY (newStrategy state))
                (maxImpermanentLoss (newStrategy state))
                (riskTolerance (newStrategy state))) as Hnow.
  pose proof (createCustomStrategy_valid_iff numberToString later
                (name (newStrategy state)) (targetAPY (newStrategy state))
                (maxImpermanentLoss (newStrategy state))
                (riskTolerance (newStrategy state))) as Hlater.
  unfold accepted in Hnow, Hlater.
  unfold createNewStrategy. rewrite validateStrategy_ignores_enabled.
  destruct (validateStrategy
              (createCustomStrategy numberToString now (name (newStrategy state))
                 (targetAPY (newStrategy state))
                 (maxImpermanentLoss (newStrategy state))
                 (riskTolerance (newStrategy state)))) as [| e errors] eqn:E.
  - assert ((isNaN (targetAPY (newStrategy state))
             \/ within 0 100 (targetAPY (newStrategy state)))
            /\ (isNaN (maxImpermanentLoss (newStrategy state))
                \/ within 0 50 (maxImpermanentLoss (newStrategy state))))
      as Hform by now apply Hnow.
    cbn [length Nat.ltb Nat.leb].
    split; [reflexivity |]. split; [intros H; contradiction |].
    split; [| split].
    + cbn [strategies]. apply Forall_app. split; [exact Hvalid |].
      constructor; [now apply Hlater | constructor].
    + now apply toggleStrategy_keeps_valid.
    + now apply deleteStrategy_keeps_valid.
  - cbn [length Nat.ltb Nat.leb].
    split; [intros H; apply Hnow in H; discriminate H |].
    split; [reflexivity |]. split; [exact Hvalid |]. split.
    + now apply toggleStrategy_keeps_valid.
    + now apply deleteStrategy_keeps_valid.
Qed.

(** The default strategies and a form whose target APY field was emptied:
    the strategy is appended with target APY [NaN]. *)
Lemma strategy_list_stays_valid_witness :
  strategies
    (createNewStrategy numberText 1700000000000%Z 1700000000001%Z
       (mkState (map asStored DEFAULT_STRATEGIES) true
          (mkNewStrategy "" JS.NaN (JS.Num 5) medium)))
  = (map asStored DEFAULT_STRATEGIES
     ++ [createCustomStrategy numberText 1700000000001%Z "" JS.NaN (JS.Num 5)
           medium])%list.
Proof.
  pose proof (strategy_list_stays_valid numberText 1700000000000%Z
                1700000000001%Z true "balanced"
                (mkState (map asStored DEFAULT_STRATEGIES) true
                   (mkNewStrategy "" JS.NaN (JS.Num 5) medium))) as H.
  cbv zeta in H. destruct H as (H & _).
  - repeat constructor.
  - rewrite H; [reflexivity |]. split; [now left | right].
    cbn [newStrategy maxImpermanentLoss within]. lra.
Defined.

End Settings.

(** ** Wallet addresses *)

Section Strings.

Import JSString.

Lemma substring_length (s : string) : forall n m,
  String.length (substring n m s) = Nat.min m (String.length s - n).
Proof using Type.
  induction s as [| c s IH]; intros [| n] [| m]; cbn [substring String.length];
    try reflexivity.
  - rewrite (IH 0%nat m). rewrite Nat.sub_0_r. reflexivity.
  - rewrite (IH n 0%nat). reflexivity.
  - rewrite (IH n (S m)). reflexivity.
Qed.

Lemma append_length (s t : string) :
  String.length (s +:+ t) = (String.length s + String.length t)%nat.
Proof using Type.
  induction s as [| c s IH]; cbn; [reflexivity | now rewrite <- IH].
Qed.

Lemma all_substring (p : ascii -> bool) (s : string) : forall n m,
  all p s = true -> all p (substring n m s) = true.
Proof using Type.
  induction s as [| c s IH]; intros [| n] [| m] H; cbn [substring all];
    try reflexivity; cbn [all] in H; apply andb_true_iff in H as [H1 H2].
  - rewrite H1. now apply IH.
  - now apply IH.
  - now apply IH.
Qed.

Lemma toLowerCase_length (s : string) :
  String.length (JS.toLowerCase s) = String.length s.
Proof using Type.
  induction s as [| c s IH]; cbn; [reflexivity | now rewrite IH].
Qed.

Lemma substring_whole (s : string) : substring 0 (String.length s) s = s.
Proof using Type.
  induction s as [| c s IH]; cbn [substring String.length];
    [reflexivity | now rewrite IH].
Qed.

Lemma toLowerCase_substring (s : string) : forall n m,
  JS.toLowerCase (substring n m s) = substring n m (JS.toLowerCase s).
Proof using Type.
  induction s as [| c s IH]; intros [| n] [| m];
    cbn [substring JS.toLowerCase]; try reflexivity.
  - now rewrite IH.
  - now rewrite IH.
  - now rewrite IH.
Qed.

Lemma lower_ascii_hex (c : ascii) :
  isHexDigit c = true -> isLowerHexDigit (JS.lower_ascii c) = true.
Proof using Type.
  destruct c as [[] [] [] [] [] [] [] []]; vm_compute; intros H;
    first [reflexivity | discriminate H].
Qed.

Lemma lower_ascii_idempotent (c : ascii) :
  JS.lower_ascii (JS.lower_ascii c) = JS.lower_ascii c.
Proof using Type.
  destruct c as [[] [] [] [] [] [] [] []]; vm_compute; reflexivity.
Qed.

Lemma toLowerCase_idempotent (s : string) :
  JS.toLowerCase (JS.toLowerCase s) = JS.toLowerCase s.
Proof using Type.
  induction s as [| c s IH]; cbn [JS.toLowerCase]; [reflexivity |].
  now rewrite lower_ascii_idempotent, IH.
Qed.

Lemma toLowerCase_hex (s : string) :
  all isHexDigit s = true -> all isLowerHexDigit (JS.toLowerCase s) = true.
Proof using Type.
  induction s as [| c s IH]; cbn [all JS.toLowerCase]; [reflexivity |].
  intros H. apply andb_true_iff in H as [H1 H2].
  now rewrite (lower_ascii_hex c H1), (IH H2).
Qed.

Lemma validateWalletAddress_shape (address : string) :
  Auth.validateWalletAddress address = true ->
  exists digits, address = String "0" (String "x" digits)
                 /\ String.length digits = 40%nat
                 /\ all isHexDigit digits = true.
Proof using Type.
  unfold Auth.validateWalletAddress.
  destruct address as [| c0 [| c1 digits]]; try discriminate.
  - destruct c0 as [[] [] [] [] [] [] [] []]; discriminate.
  - destruct c0 as [[] [] [] [] [] [] [] []]; try discriminate.
    destruct c1 as [[] [] [] [] [] [] [] []]; try discriminate.
    intros H. apply andb_true_iff in H as [H1 H2].
    exists digits. split; [reflexivity |]. split; [| exact H2].
    now apply Nat.eqb_eq.
Qed.

(** X14.  For an address accepted by [validateWalletAddress],
    [generateUserId] is "user_" followed by the first eight hex digits of
    the address in lower case: 13 characters, digits 0-9 and a-f only, and
    the same id for every capitalisation of the address. *)
Theorem generateUserId_of_valid_address (address : string) :
  Auth.validateWalletAddress address = true ->
  let digits := JS.toLowerCase (substring 2 8 address) in
  Auth.generateUserId address = "user_" +:+ digits
  /\ String.length digits = 8%nat
  /\ all isLowerHexDigit digits = true
  /\ String.length (Auth.generateUserId address) = 13%nat
  /\ Auth.generateUserId (JS.toLowerCase address) = Auth.generateUserId address.
Proof using Type.
  intros Hvalid. cbv zeta.
  destruct (validateWalletAddress_shape address Hvalid) as (ds & -> & Hlen & Hhex).
  assert (Auth.generateUserId (String "0" (String "x" ds))
          = "user_" +:+ JS.toLowerCase (substring 2 8 (String "0" (String "x" ds))))
    as Hid.
  { unfold Auth.generateUserId, slice, resolveIndex.
    rewrite toLowerCase_length. cbn [String.length]. rewrite Hlen.
    change (2 <? 0)%Z with false. change (10 <? 0)%Z with false. cbv iota.
    change (Nat.min (Z.to_nat 2) 42) with 2%nat.
    change (Nat.min (Z.to_nat 10) 42 - 2)%nat with 8%nat.
    now rewrite toLowerCase_substring. }
  assert (String.length (JS.toLowerCase (substring 2 8 (String "0" (String "x" ds))))
          = 8%nat) as Hlen8.
  { rewrite toLowerCase_length, substring_length. cbn [String.length].
    rewrite Hlen. reflexivity. }
  split; [exact Hid |]. split; [exact Hlen8 |]. split; [| split].
  - cbn [substring]. apply toLowerCase_hex. now apply all_substring.
  - rewrite Hid, append_length, Hlen8. reflexivity.
  - unfold Auth.generateUserId. now rewrite toLowerCase_idempotent.
Qed.

Lemma generateUserId_of_valid_address_witness :
  Auth.validateWalletAddress "0x1234ABCD90abcdef1234567890abcdef12345678" = true
  /\ Auth.generateUserId "0x1234ABCD90abcdef1234567890abcdef12345678"
     = "user_1234abcd".
Proof.
  split; [reflexivity |].
  pose proof (generateUserId_of_valid_address
                "0x1234ABCD90abcdef1234567890abcdef12345678" eq_refl) as H.
  cbv zeta in H. destruct H as (H & _). exact H.
Defined.

(** X15.  [truncateAddress(address, chars)] for [chars >= 0] has
    [min(chars + 2, len) + 3 + min(chars, len)] characters when
    [chars > 0]; for [chars = 0] the whole address follows the dots
    ([slice(-0)] is [slice(0)]), so the result is longer than the address.
    The variant of [lib/auth] differs on the empty address only, where it
    returns the empty string instead of "...". *)
Theorem truncateAddress_length (address : string) (chars : Z) :
  (0 <= chars)%Z ->
  let len := String.length address in
  let truncated := Utils.truncateAddress address chars in
  String.length truncated
  = (Nat.min (Z.to_nat chars + 2) len + 3
     + (if (chars =? 0)%Z then len else Nat.min (Z.to_nat chars) len))%nat
  /\ (chars = 0%Z -> truncated = substring 0 2 address +:+ "..." +:+ address)
  /\ ((0 < chars)%Z -> (Z.to_nat chars + 2 <= len)%nat ->
      String.length truncated = (2 * Z.to_nat chars + 5)%nat)
  /\ (Auth.truncateAddress address chars = truncated <-> address <> "").
Proof using Type.
  intros Hchars. cbv zeta.
  assert (String.length (Utils.truncateAddress address chars)
  = (Nat.min (Z.to_nat chars + 2) (String.length address) + 3
     + (if (chars =? 0)%Z then String.length address
        else Nat.min (Z.to_nat chars) (String.length address)))%nat) as Hlen.
  { unfold Utils.truncateAddress, slice, sliceFrom, resolveIndex.
    rewrite !append_length, !substring_length.
    change (String.length "...") with 3%nat. change (0 <? 0)%Z with false.
    cbv iota.
    destruct (chars + 2 <? 0)%Z eqn:E1; [apply Z.ltb_lt in E1; lia |].
    destruct (chars =? 0)%Z eqn:E0.
    - apply Z.eqb_eq in E0. subst chars. change (- 0 <? 0)%Z with false.
      cbv iota. lia.
    - apply Z.eqb_neq in E0.
      destruct (- chars <? 0)%Z eqn:E2; [| apply Z.ltb_ge in E2; lia].
      lia. }
  split; [exact Hlen |]. split; [| split].
  - intros ->. unfold Utils.truncateAddress, slice, sliceFrom, resolveIndex.
    change (- 0 <? 0)%Z with false. change (0 <? 0)%Z with false.
    change (0 + 2 <? 0)%Z with false. cbv iota.
    change (Z.to_nat (- 0)) with 0%nat. change (Z.to_nat (0 + 2)) with 2%nat.
    change (Z.to_nat 0) with 0%nat. change (Z.to_nat 2) with 2%nat.
    rewrite !Nat.min_0_l, !Nat.sub_0_r, substring_whole.
    f_equal. destruct address as [| c0 [| c1 [| c2 rest]]]; reflexivity.
  - intros Hpos Hlong. rewrite Hlen.
    destruct (chars =? 0)%Z eqn:E0; [apply Z.eqb_eq in E0; lia | lia].
  - unfold Auth.truncateAddress. destruct address as [| c rest].
    + cbn [String.length Nat.eqb]. split; [| congruence].
      intros H. apply (f_equal String.length) in H. rewrite Hlen in H.
      cbn [String.length] in H. lia.
    + cbn [String.length Nat.eqb]. split; [discriminate | reflexivity].
Qed.

Lemma truncateAddress_length_witness :
  String.length
    (Utils.truncateAddress "0x1234ABCD90abcdef1234567890abcdef12345678" 4)
  = 13%nat.
Proof.
  pose proof (truncateAddress_length
                "0x1234ABCD90abcdef1234567890abcdef12345678" 4 ltac:(lia)) as H.
  cbv zeta in H. destruct H as (_ & _ & H & _).
  exact (H ltac:(lia) ltac:(cbn; lia)).
Defined.

End Strings.

(** ** Display helpers, the cache and the subgraph adapters *)

Section UtilsAndApi.

Lemma geb_true (a b : Q) : JSString.geb a b = true <-> b <= a.
Proof using Type. unfold JSString.geb. apply Qle_bool_iff. Qed.

Lemma geb_false (a b : Q) : JSString.geb a b = false <-> a < b.
Proof using Type.
  unfold JSString.geb. rewrite <- not_true_iff_false, Qle_bool_iff.
  split; [apply Qnot_le_lt | apply Qlt_not_le].
Qed.

Ltac geb_cases a b :=
  let H := fresh "Hge" in
  destruct (JSString.geb a b) eqn:H;
  [ apply geb_true in H | apply geb_false in H ].

(** X16.  The colour and label bands of [getRiskColor] / [getRiskLabel]
    follow the severity of [determineSeverity]: one colour per severity,
    "High Risk" exactly for critical, and the two lowest labels both for
    severity low, split at 20. *)
Theorem risk_bands_agree (score : Q) :
  Utils.getRiskColor score
  = match determineSeverity score with
    | severity_critical => "text-error"
    | severity_high => "text-warning"
    | severity_medium => "text-yellow-400"
    | severity_low => "text-success"
    end
  /\ Utils.getRiskLabel score
     = match determineSeverity score with
       | severity_critical => "High Risk"
       | severity_high => "Medium-High Risk"
       | severity_medium => "Medium Risk"
       | severity_low => if JSString.geb score 20 then "Low-Medium Risk"
                         else "Low Risk"
       end
  /\ (Utils.getRiskLabel score = "Low Risk" <-> score < 20)
  /\ (Utils.getRiskColor score = "text-error" <-> 80 <= score).
Proof using Type.
  unfold Utils.getRiskColor, Utils.getRiskLabel, determineSeverity.
  geb_cases score 80; geb_cases score 60; geb_cases score 40;
    geb_cases score 20.
  all: split; [reflexivity |]; split; [reflexivity |]; split; split.
  all: first [discriminate | intros _; reflexivity | intros; lra | idtac].
Qed.

Lemma getCachedData_after_set {A : Type}
    (cache : gmap string (Api.CacheEntry A))
    (stored now : Date) (key : string) (value : A) :
  Api.getCachedData (Api.setCachedData cache stored key value) now key
  = if (now - stored <? 30000)%Z then Some value else None.
Proof using Type.
  unfold Api.getCachedData, Api.setCachedData, Api.CACHE_DURATION.
  now rewrite lookup_insert_eq.
Qed.

(** X18.  The cache round trip: a value stored under a key is returned for
    that key as long as fewer than 30000 ms have passed since it was
    stored, and no longer from then on; storing does not change what other
    keys return, and a second store replaces the first. *)
Theorem cache_round_trip {A : Type}
    (cache : gmap string (Api.CacheEntry A))
    (stored now : Date) (key other : string) (value value' : A) :
  let cache' := Api.setCachedData cache stored key value in
  ((now < stored + 30000)%Z -> Api.getCachedData cache' now key = Some value)
  /\ ((stored + 30000 <= now)%Z -> Api.getCachedData cache' now key = None)
  /\ (other <> key ->
      Api.getCachedData cache' now other = Api.getCachedData cache now other)
  /\ Api.setCachedData cache' now key value'
     = Api.setCachedData cache now key value'.
Proof using Type.
  cbv zeta. rewrite getCachedData_after_set.
  split; [| split; [| split]].
  - intros H. destruct (now - stored <? 30000)%Z eqn:E; [reflexivity |].
    apply Z.ltb_ge in E. lia.
  - intros H. destruct (now - stored <? 30000)%Z eqn:E; [| reflexivity].
    apply Z.ltb_lt in E. lia.
  - intros H. unfold Api.getCachedData, Api.setCachedData.
    rewrite lookup_insert_ne by congruence. reflexivity.
  - apply insert_insert_eq.
Qed.

(** X19.  After a load that fetched (a forced one, say), a load that is
    not forced and reads the cache less than 30000 ms after the rates were
    stored hands out the same rates and leaves the cache as it is; from
    30000 ms on it fetches again and stores what it fetched.  A forced load
    always fetches, and every fetch yields the three rates of Uniswap V3,
    Aerodrome and BaseSwap for the pair. *)
Theorem loadRates_uses_fresh_cache
    (cache : gmap string (Api.CacheEntry (list ExchangeRate.t)))
    (now t1 t2 t3 later : Date) (now' t1' t2' t3' later' : Date)
    (tokenPair : string) :
  let first := FarcasterFrame.loadRates cache now t1 t2 t3 later tokenPair true in
  let second :=
    FarcasterFrame.loadRates (fst first) now' t1' t2' t3' later' tokenPair false in
  snd first = Api.fetchExchangeRates tokenPair t1 t2 t3
  /\ map ExchangeRate.exchange (snd first) = ["Uniswap V3"; "Aerodrome"; "BaseSwap"]
  /\ Forall (fun r => ExchangeRate.pair r = tokenPair) (snd first)
  /\ ((now' < later + 30000)%Z -> second = first)
  /\ ((later + 30000 <= now')%Z ->
      snd second = Api.fetchExchangeRates tokenPair t1' t2' t3'
      /\ Api.getCachedData (fst second) later' ("rates-" +:+ tokenPair)
         = Some (snd second)).
Proof using Type.
  cbv zeta.
  change (FarcasterFrame.loadRates cache now t1 t2 t3 later tokenPair true)
    with (Api.setCachedData cache later ("rates-" +:+ tokenPair)
            (Api.fetchExchangeRates tokenPair t1 t2 t3),
          Api.fetchExchangeRates tokenPair t1 t2 t3).
  cbn [fst snd].
  split; [reflexivity |]. split; [reflexivity |]. split; [repeat constructor |].
  unfold FarcasterFrame.loadRates. cbv iota beta zeta.
  rewrite getCachedData_after_set.
  split; intros H.
  - destruct (now' - later <? 30000)%Z eqn:E; [reflexivity |].
    apply Z.ltb_ge in E. lia.
  - destruct (now' - later <? 30000)%Z eqn:E; [apply Z.ltb_lt in E; lia |].
    cbn [fst snd]. split; [reflexivity |].
    rewrite getCachedData_after_set, Z.sub_diag. reflexivity.
Qed.

Lemma fold_best (rest : list ExchangeRate.t) : forall first,
  let pick := fun best current : ExchangeRate.t =>
                if JS.gtb (ExchangeRate.rate current) (ExchangeRate.rate best)
                then current else best in
  In (fold_left pick rest first) (first :: rest)
  /\ ExchangeRate.rate first <= ExchangeRate.rate (fold_left pick rest first)
  /\ Forall (fun r => ExchangeRate.rate r
                      <= ExchangeRate.rate (fold_left pick rest first)) rest.
Proof using Type.
  cbv zeta. induction rest as [| r rest IH]; intros first; cbn [fold_left].
  - split; [now left |]. split; [lra | constructor].
  - destruct (JS.gtb (ExchangeRate.rate r) (ExchangeRate.rate first)) eqn:E.
    + apply gtb_true in E. destruct (IH r) as (Hin & Hle & Hall).
      split; [now right |]. split; [lra |]. constructor; assumption.
    + apply gtb_false in E. destruct (IH first) as (Hin & Hle & Hall).
      split; [destruct Hin as [Hin | Hin]; [now left | now right; right] |].
      split; [exact Hle |]. constructor; [lra | exact Hall].
Qed.

Lemma fold_worst (rest : list ExchangeRate.t) : forall first,
  let pick := fun worst current : ExchangeRate.t =>
                if JS.ltb (ExchangeRate.rate current) (ExchangeRate.rate worst)
                then current else worst in
  In (fold_left pick rest first) (first :: rest)
  /\ ExchangeRate.rate (fold_left pick rest first) <= ExchangeRate.rate first
  /\ Forall (fun r => ExchangeRate.rate (fold_left pick rest first)
                      <= ExchangeRate.rate r) rest.
Proof using Type.
  cbv zeta. induction rest as [| r rest IH]; intros first; cbn [fold_left].
  - split; [now left |]. split; [lra | constructor].
  - destruct (JS.ltb (ExchangeRate.rate r) (ExchangeRate.rate first)) eqn:E.
    + apply ltb_true in E. destruct (IH r) as (Hin & Hle & Hall).
      split; [now right |]. split; [lra |]. constructor; assumption.
    + apply ltb_false in E. destruct (IH first) as (Hin & Hle & Hall).
      split; [destruct Hin as [Hin | Hin]; [now left | now right; right] |].
      split; [exact Hle |]. constructor; [lra | exact Hall].
Qed.

(** X20.  For a non-empty list of positive rates, [bestRate] and
    [worstRate] are rates of the list, no rate of the list is above the
    best or below the worst, and [spread] is neither negative nor [NaN];
    for no rates there is no best or worst rate and the spread is 0.  The
    rounded arithmetic agrees: in binary64, for positive finite rates with
    the worst not above the best, [(best - worst) / worst * 100] is a
    number that is not negative, or [Infinity], and never [NaN]. *)
Theorem spread_of_positive_rates (rates : list ExchangeRate.t) :
  Forall (fun r => 0 < ExchangeRate.rate r) rates ->
  match rates with
  | [] => FarcasterFrame.bestRate rates = None
          /\ FarcasterFrame.worstRate rates = None
          /\ FarcasterFrame.spread rates = JS.Num 0
  | _ :: _ =>
      exists best worst,
        FarcasterFrame.bestRate rates = Some best
        /\ FarcasterFrame.worstRate rates = Some worst
        /\ In best rates /\ In worst rates
        /\ Forall (fun r => ExchangeRate.rate worst <= ExchangeRate.rate r
                            /\ ExchangeRate.rate r <= ExchangeRate.rate best)
             rates
        /\ nonnegative (FarcasterFrame.spread rates)
  end
  /\ forall bestRate worstRate : PrimFloat.float,
       Binary64.positive worstRate ->
       PrimFloat.leb worstRate bestRate = true ->
       Binary64.positive bestRate ->
       Binary64.nonnegative (Binary64.spread bestRate worstRate).
Proof using Type.
  intros Hpositive. split; [| apply Binary64Ratios.spread_binary64].
  destruct rates as [| first rest]; [repeat split |].
  unfold FarcasterFrame.spread, FarcasterFrame.bestRate,
    FarcasterFrame.worstRate, FarcasterFrame.reduceRates.
  destruct (fold_best rest first) as (Hbin & Hbfirst & Hball).
  destruct (fold_worst rest first) as (Hwin & Hwfirst & Hwall).
  cbv zeta in Hbin, Hbfirst, Hball, Hwin, Hwfirst, Hwall.
  set (best := fold_left _ rest first) in *.
  set (worst := fold_left _ rest first) in Hwin, Hwfirst, Hwall |- *.
  assert (0 < ExchangeRate.rate worst) as Hworst.
  { rewrite Forall_forall in Hpositive. apply Hpositive.
    now rewrite list_elem_of_In. }
  assert (Qeq_bool (ExchangeRate.rate worst) 0 = false) as Hnonzero.
  { apply not_true_iff_false. intros H. apply Qeq_bool_iff in H. lra. }
  exists best, worst.
  split; [reflexivity |]. split; [reflexivity |].
  split; [exact Hbin |]. split; [exact Hwin |]. split.
  - constructor; [split; assumption |].
    apply Forall_and. split; assumption.
  - unfold JS.div, JS.mul. rewrite Hnonzero. cbn [nonnegative].
    apply Qmult_le_0_compat; [| lra].
    apply Qle_shift_div_l; [exact Hworst | lra].
Qed.

Lemma spread_of_positive_rates_witness :
  nonnegative
    (FarcasterFrame.spread (Api.fetchExchangeRates "ETH/USDC" 0%Z 0%Z 0%Z))
  /\ Binary64.nonnegative (Binary64.spread PrimFloat.two PrimFloat.one).
Proof.
  pose proof (spread_of_positive_rates
                (Api.fetchExchangeRates "ETH/USDC" 0%Z 0%Z 0%Z)) as H.
  destruct H as [(best & worst & _ & _ & _ & _ & _ & Hspread) Hbinary64].
  - repeat constructor.
  - split; [exact Hspread |]. apply Hbinary64; repeat split; reflexivity.
Defined.

Ltac gtb_cases a b :=
  let H := fresh "Hcmp" in
  destruct (JS.gtb a b) eqn:H;
  [ apply gtb_true in H | apply gtb_false in H ].

(** X21.  [calculateRiskScore] stays between 20 and 85 (the clamp to
    0..100 never acts), it does not rise when TVL and volume rise, and a
    pool with TVL above 10M and volume above 1M gets the minimum 20. *)
Theorem calculateRiskScore_range_and_order (pool pool' : RawPool.t) :
  (20 <= Api.calculateRiskScore pool /\ Api.calculateRiskScore pool <= 85)
  /\ (RawPool.totalValueLockedUSD pool <= RawPool.totalValueLockedUSD pool' ->
      RawPool.volumeUSD pool <= RawPool.volumeUSD pool' ->
      Api.calculateRiskScore pool' <= Api.calculateRiskScore pool)
  /\ (10000000 < RawPool.totalValueLockedUSD pool ->
      1000000 < RawPool.volumeUSD pool ->
      Api.calculateRiskScore pool == 20).
Proof using Type.
  unfold Api.calculateRiskScore. cbv zeta.
  set (tvl := RawPool.totalValueLockedUSD pool).
  set (volume := RawPool.volumeUSD pool).
  set (tvl' := RawPool.totalValueLockedUSD pool').
  set (volume' := RawPool.volumeUSD pool').
  split; [| split].
  - gtb_cases tvl 10000000; [| gtb_cases tvl 1000000; [| compare_cases tvl 100000]];
      (gtb_cases volume 1000000; [| compare_cases volume 10000]);
      split; vm_compute; discriminate.
  - intros Htvl Hvolume.
    gtb_cases tvl 10000000; [| gtb_cases tvl 1000000; [| compare_cases tvl 100000]];
      (gtb_cases volume 1000000; [| compare_cases volume 10000]);
      (gtb_cases tvl' 10000000;
       [| gtb_cases tvl' 1000000; [| compare_cases tvl' 100000]]);
      (gtb_cases volume' 1000000; [| compare_cases volume' 10000]);
      first [exfalso; lra | vm_compute; discriminate].
  - intros Htvl Hvolume.
    gtb_cases tvl 10000000; [| exfalso; lra].
    gtb_cases volume 1000000; [| exfalso; lra].
    reflexivity.
Qed.

(** X22.  [calculatePositionRisk] depends on the width of the tick range
    only: 60 below 1000 ticks, 45 below 5000, 30 from there on; a wider
    range never scores higher, and swapping the two ticks changes
    nothing. *)
Theorem calculatePositionRisk_by_tick_width (position position' : RawPosition.t) :
  let width p :=
    Z.abs (RawPosition.tickUpper_tickIdx p - RawPosition.tickLower_tickIdx p) in
  (30 <= Api.calculatePositionRisk position
   /\ Api.calculatePositionRisk position <= 60)
  /\ ((width position <= width position')%Z ->
      Api.calculatePositionRisk position' <= Api.calculatePositionRisk position)
  /\ (RawPosition.tickUpper_tickIdx position'
      = RawPosition.tickLower_tickIdx position ->
      RawPosition.tickLower_tickIdx position'
      = RawPosition.tickUpper_tickIdx position ->
      Api.calculatePositionRisk position' = Api.calculatePositionRisk position)
  /\ ((width position < 1000)%Z <-> Api.calculatePositionRisk position == 60)
  /\ ((5000 <= width position)%Z <-> Api.calculatePositionRisk position == 30).
Proof using Type.
  cbv zeta. unfold Api.calculatePositionRisk. cbv zeta.
  set (w := Z.abs (RawPosition.tickUpper_tickIdx position
                   - RawPosition.tickLower_tickIdx position)).
  set (w' := Z.abs (RawPosition.tickUpper_tickIdx position'
                    - RawPosition.tickLower_tickIdx position')).
  split; [| split; [| split; [| split]]].
  - destruct (w <? 1000)%Z; [| destruct (w <? 5000)%Z];
      split; vm_compute; discriminate.
  - intros Hw.
    destruct (w <? 1000)%Z eqn:E1; [| destruct (w <? 5000)%Z eqn:E2];
      (destruct (w' <? 1000)%Z eqn:E1'; [| destruct (w' <? 5000)%Z eqn:E2']);
      first [vm_compute; discriminate | exfalso; lia].
  - intros Hupper Hlower.
    assert (w' = w) as ->; [| reflexivity].
    unfold w, w'. rewrite Hupper, Hlower. lia.
  - destruct (w <? 1000)%Z eqn:E1; [| destruct (w <? 5000)%Z eqn:E2];
      split; first [intros _; reflexivity | intros _; lia
                   | intros H; lia | intros H; vm_compute in H; discriminate H].
  - destruct (w <? 1000)%Z eqn:E1; [| destruct (w <? 5000)%Z eqn:E2];
      split; first [intros _; reflexivity | intros _; lia
                   | intros H; lia | intros H; vm_compute in H; discriminate H].
Qed.

End UtilsAndApi.

(** ** The pool-level portfolio assessment *)

Section PoolPortfolio.

Import JS PoolRiskEngine.

Lemma totalTvl_from (pools : list PoolData.t) (a : Q) :
  exists T, fold_left (fun sum pool => add sum (Num (PoolData.tvl pool))) pools (Num a)
            = Num T
            /\ T == a + sumOfValues (map PoolData.tvl pools).
Proof using Type.
  revert a. induction pools as [| p pools IH]; intros a; cbn [fold_left map].
  - exists a. split; [reflexivity | simpl; lra].
  - cbn [add]. destruct (IH (a + PoolData.tvl p)) as (T & HT & Hsum).
    exists T. split; [exact HT |]. rewrite Hsum. simpl. lra.
Qed.

Lemma round_between (x : number) :
  finite_between 0 100 x -> finite_between 0 100 (round x).
Proof using Type.
  intros (q & -> & Hq). exists (inject_Z (Math_round q)). split; [reflexivity |].
  pose proof (Math_round_between q Hq) as [H0 H100].
  split.
  - change 0 with (inject_Z 0). now rewrite <- Zle_Qle.
  - change 100 with (inject_Z 100). now rewrite <- Zle_Qle.
Qed.

(** The four scores of a pool's assessment, for a protocol that does not
    make [assessPool] throw. *)
Lemma assessPool_scores (pool : PoolData.t) :
  ~ inheritedKey (PoolData.protocol pool) ->
  exists assessment,
    assessPool pool = Some assessment
    /\ finite_between 0 100 (RiskAssessment.overall assessment)
    /\ finite_between 0 100 (RiskAssessment.smartContract assessment)
    /\ finite_between 0 100 (RiskAssessment.liquidity assessment)
    /\ finite_between 0 100 (RiskAssessment.impermanentLoss assessment)
    /\ finite_between 0 100 (RiskAssessment.protocol assessment).
Proof using Type.
  intros Hown.
  pose proof (calculateSmartContractRisk_bounds (PoolData.protocol pool) Hown)
    as Hsc.
  pose proof (calculateLiquidityRisk_bounds pool) as Hli.
  pose proof (calculateImpermanentLossRisk_bounds pool) as Hil.
  destruct (calculateProtocolRisk_bounds (PoolData.protocol pool) Hown)
    as (risk & Hrisk & Hpr).
  unfold assessPool, poolFactors. rewrite Hrisk.
  eexists. split; [reflexivity |].
  unfold assessFactors.
  cbn [RiskAssessment.overall RiskAssessment.smartContract
       RiskAssessment.liquidity RiskAssessment.impermanentLoss
       RiskAssessment.protocol RiskFactors.smartContract RiskFactors.liquidity
       RiskFactors.impermanentLoss RiskFactors.protocol].
  split; [| repeat split; now apply round_between].
  destruct Hsc as (sc & -> & Hsc). destruct Hli as (li & -> & Hli).
  destruct Hil as (il & -> & Hil). destruct Hpr as (pr & -> & Hpr).
  rewrite weightedOverall_finite. apply round_between.
  eexists. split; [reflexivity |].
  unfold weights.smartContract, weights.liquidity, weights.impermanentLoss,
    weights.protocol, config.protocolRiskWeights.smartContract,
    config.protocolRiskWeights.liquidity,
    config.protocolRiskWeights.impermanentLoss,
    config.protocolRiskWeights.protocol.
  lra.
Qed.

(** One term [score * (tvl / T)] added to a partial weighted sum. *)
Lemma add_weighted_score (T B x tvl : Q) (score : number) :
  0 < T -> 0 <= tvl -> 0 <= x -> x * T <= B ->
  finite_between 0 100 score ->
  exists y,
    add (Num x) (mul score (Num (tvl / T))) = Num y
    /\ 0 <= y /\ y * T <= B + 100 * tvl.
Proof using Type.
  intros HT Htvl Hx HB (s & -> & Hs0 & Hs100).
  exists (x + s * (tvl / T)). split; [reflexivity |].
  assert (0 <= tvl / T) as Hw by (apply Qle_shift_div_l; [exact HT | lra]).
  assert (0 <= s * (tvl / T)) as Hterm by (apply Qmult_le_0_compat; assumption).
  split; [lra |].
  assert (s * (tvl / T) * T == s * tvl) as Hcancel by (field; lra).
  assert (s * tvl <= 100 * tvl) as Hle by (apply Qmult_le_compat_r; assumption).
  assert ((x + s * (tvl / T)) * T == x * T + s * (tvl / T) * T) as -> by ring.
  rewrite Hcancel. lra.
Qed.

Lemma weighted_factors_from (T : Q) (pools : list PoolData.t) :
  0 < T ->
  Forall (fun p => 0 <= PoolData.tvl p) pools ->
  Forall (fun p => ~ inheritedKey (PoolData.protocol p)) pools ->
  forall B acc, partialSums T B acc ->
  exists weightedFactors,
    reduceThrowing (accumulate (Num T)) pools acc = Some weightedFactors
    /\ partialSums T (B + 100 * sumOfValues (map PoolData.tvl pools))
         weightedFactors.
Proof using Type.
  intros HT Htvl. induction Htvl as [| p pools Hp _ IH]; intros Hown B acc Hacc.
  - exists acc. split; [reflexivity |].
    destruct Hacc as (a & b & c & d & -> & Ha & Hb & Hc & Hd).
    exists a, b, c, d. cbn [map sumOfValues fold_right].
    repeat split; first [reflexivity | tauto | lra].
  - apply Forall_cons in Hown as [Hown0 Hown].
    destruct (assessPool_scores p Hown0)
      as (assessment & Hassess & _ & Hsc & Hli & Hil & Hpr).
    destruct Hacc as (a & b & c & d & -> & Ha & Hb & Hc & Hd).
    assert (Qeq_bool T 0 = false) as HT0.
    { apply not_true_iff_false. intros H. apply Qeq_bool_iff in H. lra. }
    cbn [reduceThrowing]. unfold accumulate at 1. rewrite Hassess.
    rewrite (div_finite _ _ HT0). unfold addWeighted.
    cbn [RiskFactors.smartContract RiskFactors.liquidity
         RiskFactors.impermanentLoss RiskFactors.protocol].
    destruct (add_weighted_score T B a (PoolData.tvl p) _ HT Hp
                (proj1 Ha) (proj2 Ha) Hsc) as (a' & -> & Ha').
    destruct (add_weighted_score T B b (PoolData.tvl p) _ HT Hp
                (proj1 Hb) (proj2 Hb) Hli) as (b' & -> & Hb').
    destruct (add_weighted_score T B c (PoolData.tvl p) _ HT Hp
                (proj1 Hc) (proj2 Hc) Hil) as (c' & -> & Hc').
    destruct (add_weighted_score T B d (PoolData.tvl p) _ HT Hp
                (proj1 Hd) (proj2 Hd) Hpr) as (d' & -> & Hd').
    destruct (IH Hown (B + 100 * PoolData.tvl p)
                (RiskFactors.mk (Num a') (Num b') (Num c') (Num d')))
      as (wf & Hwf & Hsums).
    { exists a', b', c', d'. repeat split; first [reflexivity | tauto]. }
    exists wf. split; [exact Hwf |].
    destruct Hsums as (x & y & z & w & -> & Hx & Hy & Hz & Hw).
    exists x, y, z, w. cbn [map sumOfValues fold_right].
    fold (sumOfValues (map PoolData.tvl pools)).
    repeat split; first [reflexivity | tauto | lra].
Qed.

Lemma filterThrowing_returns (pools : list PoolData.t) :
  Forall (fun p => ~ inheritedKey (PoolData.protocol p)) pools ->
  exists highRiskPools, filterThrowing isHighRisk pools = Some highRiskPools.
Proof using Type.
  induction 1 as [| p pools Hp _ (kept & IH)]; [now exists [] |].
  destruct (assessPool_scores p Hp) as (assessment & Hassess & _).
  cbn [filterThrowing]. unfold isHighRisk at 1. rewrite Hassess, IH.
  eexists. reflexivity.
Qed.

Lemma reduceThrowing_throws (T : number) (pools : list PoolData.t) :
  Exists (fun p => inheritedKey (PoolData.protocol p)) pools ->
  forall acc, reduceThrowing (accumulate T) pools acc = None.
Proof using Type.
  induction pools as [| p pools IH]; intros Hex acc.
  - apply Exists_nil in Hex. contradiction.
  - cbn [reduceThrowing]. unfold accumulate at 1.
    destruct (assessPool p) as [assessment |] eqn:E; [| reflexivity].
    apply Exists_cons in Hex as [Hp | Hrest].
    + apply assessPool_throws in Hp. congruence.
    + now apply IH.
Qed.

(** X23.  The pool-level [assessPortfolio] throws when the protocol of one
    of the pools is named like a property of [Object.prototype].  For
    other pools, with non-negative TVL and a positive total TVL, it returns
    an assessment whose five scores (overall and the four TVL-weighted
    factor scores, each rounded) are finite numbers between 0 and 100. *)
Theorem assessPortfolio_scores_bounded (pools : list PoolData.t) :
  Forall (fun p => 0 <= PoolData.tvl p) pools ->
  0 < sumOfValues (map PoolData.tvl pools) ->
  (Exists (fun p => inheritedKey (PoolData.protocol p)) pools ->
   assessPortfolio pools = None)
  /\ (Forall (fun p => ~ inheritedKey (PoolData.protocol p)) pools ->
      exists assessment,
        assessPortfolio pools = Some assessment
        /\ finite_between 0 100 (RiskAssessment.overall assessment)
        /\ finite_between 0 100 (RiskAssessment.smartContract assessment)
        /\ finite_between 0 100 (RiskAssessment.liquidity assessment)
        /\ finite_between 0 100 (RiskAssessment.impermanentLoss assessment)
        /\ finite_between 0 100 (RiskAssessment.protocol assessment)).
Proof using Type.
  intros Htvl Htotal. unfold assessPortfolio.
  destruct pools as [| p0 rest]; [simpl in Htotal; lra |].
  cbn [length Nat.eqb]. cbv zeta.
  set (pools := p0 :: rest) in *.
  split.
  - intros Hex. now rewrite reduceThrowing_throws.
  - intros Hown.
    destruct (totalTvl_from pools 0) as (T & -> & HT).
    assert (T == sumOfValues (map PoolData.tvl pools)) as Hsum by lra.
    assert (0 < T) as HTpos by lra.
    destruct (weighted_factors_from T pools HTpos Htvl Hown 0
                (RiskFactors.mk (Num 0) (Num 0) (Num 0) (Num 0)))
      as (wf & -> & Hsums).
    { exists 0, 0, 0, 0. repeat split; first [reflexivity | lra]. }
    destruct (filterThrowing_returns pools Hown) as (highRiskPools & ->).
    eexists. split; [reflexivity |].
    destruct Hsums as (a & b & c & d & -> & Ha & Hb & Hc & Hd).
    rewrite <- Hsum in Ha, Hb, Hc, Hd.
    assert (forall x, 0 <= x /\ x * T <= 0 + 100 * T -> 0 <= x <= 100) as Hbound.
    { intros x [H0 H1]. split; [exact H0 |].
      apply Qmult_le_r with (z := T); [exact HTpos | lra]. }
    apply Hbound in Ha, Hb, Hc, Hd.
    cbn [RiskAssessment.overall RiskAssessment.smartContract
         RiskAssessment.liquidity RiskAssessment.impermanentLoss
         RiskAssessment.protocol RiskFactors.smartContract RiskFactors.liquidity
         RiskFactors.impermanentLoss RiskFactors.protocol].
    rewrite weightedOverall_finite.
    split; [| repeat split; apply round_between; eexists;
              (split; [reflexivity | assumption])].
    apply round_between. eexists. split; [reflexivity |].
    unfold weights.smartContract, weights.liquidity, weights.impermanentLoss,
      weights.protocol, config.protocolRiskWeights.smartContract,
      config.protocolRiskWeights.liquidity,
      config.protocolRiskWeights.impermanentLoss,
      config.protocolRiskWeights.protocol.
    lra.
Qed.

Lemma assessPortfolio_scores_bounded_witness :
  exists assessment,
    assessPortfolio mockPools = Some assessment
    /\ finite_between 0 100 (RiskAssessment.overall assessment).
Proof.
  pose proof (assessPortfolio_scores_bounded mockPools) as H.
  destruct H as (_ & H).
  - repeat constructor; vm_compute; discriminate.
  - vm_compute. reflexivity.
  - destruct H as (assessment & H & Hoverall & _).
    + repeat constructor; discriminate.
    + exists assessment. split; assumption.
Defined.

Lemma add_weighted_NaN (x score : number) : add x (mul score NaN) = NaN.
Proof using Type. destruct x, score; reflexivity. Qed.

Lemma weighted_factors_NaN (T : Q) (pools : list PoolData.t) :
  T == 0 ->
  Forall (fun p => PoolData.tvl p == 0) pools ->
  forall acc weightedFactors,
  reduceThrowing (accumulate (Num T)) pools acc = Some weightedFactors ->
  weightedFactors = match pools with
                    | [] => acc
                    | _ :: _ => RiskFactors.mk NaN NaN NaN NaN
                    end.
Proof using Type.
  intros HT Htvl.
  assert (Qeq_bool T 0 = true) as HT0 by now apply Qeq_bool_iff.
  induction Htvl as [| p pools Hp _ IH]; intros acc wf Hwf.
  - cbn [reduceThrowing] in Hwf. now injection Hwf as <-.
  - cbn [reduceThrowing] in Hwf. unfold accumulate at 1 in Hwf.
    destruct (assessPool p) as [assessment |]; [| discriminate Hwf].
    assert (div (Num (PoolData.tvl p)) (Num T) = NaN) as Hweight.
    { cbn [div]. rewrite HT0.
      assert ((PoolData.tvl p ?= 0) = Eq) as -> by now apply Qeq_alt.
      reflexivity. }
    rewrite Hweight in Hwf. unfold addWeighted in Hwf.
    rewrite !add_weighted_NaN in Hwf.
    apply IH in Hwf. destruct pools; exact Hwf.
Qed.

(** X24.  The guard of the pool-level [assessPortfolio] covers the empty
    list only: for one or more pools whose TVL is 0 throughout, every
    weight is [0 / 0] and all five scores of the assessment it returns are
    [NaN]; it returns one unless a protocol is named like a property of
    [Object.prototype]. *)
Theorem assessPortfolio_zero_tvl (pools : list PoolData.t) :
  pools <> [] ->
  Forall (fun p => PoolData.tvl p == 0) pools ->
  (Forall (fun p => ~ inheritedKey (PoolData.protocol p)) pools ->
   exists assessment, assessPortfolio pools = Some assessment)
  /\ forall assessment,
       assessPortfolio pools = Some assessment ->
       RiskAssessment.overall assessment = NaN
       /\ RiskAssessment.smartContract assessment = NaN
       /\ RiskAssessment.liquidity assessment = NaN
       /\ RiskAssessment.impermanentLoss assessment = NaN
       /\ RiskAssessment.protocol assessment = NaN.
Proof using Type.
  intros Hne Htvl. unfold assessPortfolio.
  destruct pools as [| p0 rest]; [congruence |].
  cbn [length Nat.eqb]. cbv zeta.
  set (pools := p0 :: rest) in *.
  destruct (totalTvl_from pools 0) as (T & -> & HT).
  assert (T == 0) as HT0.
  { rewrite HT. clear - Htvl. induction Htvl as [| p ps Hp _ IH]; simpl; [lra |].
    simpl in IH. lra. }
  destruct (reduceThrowing (accumulate (Num T)) pools
              (RiskFactors.mk (Num 0) (Num 0) (Num 0) (Num 0)))
    as [wf |] eqn:Hwf.
  - apply (weighted_factors_NaN T pools HT0 Htvl) in Hwf. unfold pools in Hwf.
    subst wf. split.
    + intros Hown. destruct (filterThrowing_returns pools Hown) as (l & ->).
      eexists. reflexivity.
    + intros assessment Hassessment.
      destruct (filterThrowing isHighRisk pools); [| discriminate Hassessment].
      injection Hassessment as <-. repeat split.
  - split; [| discriminate].
    intros Hown. exfalso.
    assert (forall ps acc,
              Forall (fun p => ~ inheritedKey (PoolData.protocol p)) ps ->
              reduceThrowing (accumulate (Num T)) ps acc <> None) as Hreturns.
    { induction ps as [| p ps IH]; intros acc Hps; [discriminate |].
      apply Forall_cons in Hps as [Hp Hps].
      destruct (assessPool_scores p Hp) as (assessment & Hassess & _).
      cbn [reduceThrowing]. unfold accumulate at 1. rewrite Hassess.
      now apply IH. }
    exact (Hreturns pools _ Hown Hwf).
Qed.

Lemma assessPortfolio_zero_tvl_witness :
  exists assessment,
    assessPortfolio [PoolData.mk "Uniswap V3" "WETH/USDC" 0 0 0 0 50]
    = Some assessment
    /\ RiskAssessment.overall assessment = NaN.
Proof.
  pose proof (assessPortfolio_zero_tvl
                [PoolData.mk "Uniswap V3" "WETH/USDC" 0 0 0 0 50]) as H.
  destruct H as (Hreturns & Hscores).
  - discriminate.
  - repeat constructor.
  - destruct Hreturns as (assessment & Hassessment).
    + repeat constructor; discriminate.
    + exists assessment. split; [exact Hassessment |].
      now apply Hscores.
Defined.

Lemma pushIf_chain (b1 b2 b3 b4 b5 b6 : bool) (m1 m2 m3 m4 m5 m6 c : string) :
  m1 <> c -> m2 <> c -> m3 <> c -> m4 <> c -> m5 <> c -> m6 <> c ->
  let warnings :=
    pushIf b6 m6 (pushIf b5 m5 (pushIf b4 m4 (pushIf b3 m3
      (pushIf b2 m2 (pushIf b1 m1 []))))) in
  let recommendations := pushIf (Nat.eqb (length warnings) 0) c warnings in
  recommendations <> []
  /\ (length recommendations <= 6)%nat
  /\ (In c recommendations <-> recommendations = [c])
  /\ (In c recommendations <->
      b1 = false /\ b2 = false /\ b3 = false /\ b4 = false /\ b5 = false
      /\ b6 = false).
Proof using Type.
  intros H1 H2 H3 H4 H5 H6. cbv zeta. unfold pushIf.
  destruct b1, b2, b3, b4, b5, b6; cbn [app length Nat.eqb].
  all: split; [discriminate |]; split; [lia |]; split; split.
  all: try (intros _; now left).
  all: try (intros _; repeat split; reflexivity).
  all: try (intros H; discriminate H).
  all: try (intros (E1 & E2 & E3 & E4 & E5 & E6); congruence).
  all: intros H; cbn [In] in H; exfalso; intuition congruence.
Qed.

(** X25.  [generateRecommendations] never returns an empty list and at
    most six messages; the all-clear message is there exactly when none of
    the six warnings is, and then it is the only one.  So every
    assessment that [assessPool] returns carries a recommendation. *)
Theorem generateRecommendations_never_empty
    (assessment : RiskAssessment.t) (pool : PoolData.t) :
  let recommendations := generateRecommendations assessment pool in
  let allClear := "✅ Risk levels appear manageable for this position" in
  recommendations <> []
  /\ (length recommendations <= 6)%nat
  /\ (In allClear recommendations <-> recommendations = [allClear])
  /\ (In allClear recommendations <->
      ngtb (RiskAssessment.overall assessment) (Num 70) = false
      /\ ngtb (RiskAssessment.liquidity assessment) (Num 60) = false
      /\ ngtb (RiskAssessment.impermanentLoss assessment) (Num 50) = false
      /\ ngtb (RiskAssessment.smartContract assessment) (Num 60) = false
      /\ ngtb (RiskAssessment.protocol assessment) (Num 50) = false
      /\ gtb (PoolData.apy pool) 15 = false)
  /\ (forall poolAssessment,
        assessPool pool = Some poolAssessment ->
        RiskAssessment.recommendations poolAssessment <> []).
Proof using Type.
  cbv zeta.
  assert (forall a p,
            generateRecommendations a p <> []
            /\ (length (generateRecommendations a p) <= 6)%nat
            /\ (In "✅ Risk levels appear manageable for this position"
                  (generateRecommendations a p)
                <-> generateRecommendations a p
                    = ["✅ Risk levels appear manageable for this position"])
            /\ (In "✅ Risk levels appear manageable for this position"
                  (generateRecommendations a p)
                <-> ngtb (RiskAssessment.overall a) (Num 70) = false
                    /\ ngtb (RiskAssessment.liquidity a) (Num 60) = false
                    /\ ngtb (RiskAssessment.impermanentLoss a) (Num 50) = false
                    /\ ngtb (RiskAssessment.smartContract a) (Num 60) = false
                    /\ ngtb (RiskAssessment.protocol a) (Num 50) = false
                    /\ gtb (PoolData.apy p) 15 = false)) as Hall.
  { intros a p. unfold generateRecommendations. cbv zeta.
    apply pushIf_chain; discriminate. }
  destruct (Hall assessment pool) as (Hne & Hlen & Halone & Hflags).
  split; [exact Hne |]. split; [exact Hlen |]. split; [exact Halone |].
  split; [exact Hflags |].
  intros poolAssessment Hassess. unfold assessPool in Hassess.
  destruct (poolFactors pool) as [factors |]; [| discriminate Hassess].
  injection Hassess as <-. unfold assessFactors.
  cbn [RiskAssessment.recommendations]. apply Hall.
Qed.

End PoolPortfolio.

(** ** The position-level portfolio metrics *)

Section PositionPortfolio.

Import JS PositionRiskEngine.

Lemma max_from (ps : list LPPosition.t) : forall m,
  exists m',
    fold_left max2 (map (fun p => Num (LPPosition.currentValue p)) ps) (Num m)
    = Num m'
    /\ m <= m'
    /\ Forall (fun p => LPPosition.currentValue p <= m') ps
    /\ (m' = m \/ exists p, In p ps /\ m' = LPPosition.currentValue p).
Proof using Type.
  induction ps as [| p ps IH]; intros m; cbn [map fold_left].
  - exists m. split; [reflexivity |]. split; [lra |]. split; [constructor |].
    now left.
  - cbn [max2 ngtb].
    destruct (gtb (LPPosition.currentValue p) m) eqn:E.
    + apply gtb_true in E.
      destruct (IH (LPPosition.currentValue p)) as (m' & Hm' & Hle & Hall & Hin).
      exists m'. split; [exact Hm' |]. split; [lra |].
      split; [constructor; assumption |]. right.
      destruct Hin as [-> | (q & Hq & ->)].
      * exists p. split; [now left | reflexivity].
      * exists q. split; [now right | reflexivity].
    + apply gtb_false in E.
      destruct (IH m) as (m' & Hm' & Hle & Hall & Hin).
      exists m'. split; [exact Hm' |]. split; [exact Hle |].
      split; [constructor; [lra | exact Hall] |].
      destruct Hin as [-> | (q & Hq & ->)]; [now left |].
      right. exists q. split; [now right | reflexivity].
Qed.

Lemma member_at_most_sum (v : Q) (vs : list Q) :
  Forall (fun x => 0 < x) vs -> In v vs -> v <= sumOfValues vs.
Proof using Type.
  induction 1 as [| x vs Hx Hvs IH]; intros Hin; [destruct Hin |].
  cbn [sumOfValues fold_right]. fold (sumOfValues vs).
  assert (0 <= sumOfValues vs) as Hsum.
  { clear - Hvs. induction Hvs as [| y ys Hy _ IH]; simpl; [lra |].
    simpl in IH. lra. }
  destruct Hin as [-> | Hin]; [lra |]. specialize (IH Hin). lra.
Qed.

(** X26.  For a non-empty portfolio of positions with positive values,
    [calculateConcentrationRisk] is a finite number between 0 and 100 (on
    no position it is [-Infinity]); for a single position it is 100.  The
    bounds hold of the rounded arithmetic too: in binary64, a positive
    finite largest value divided by a total that is not smaller (a rounded
    sum of non-negative values is not below any of them) and multiplied by
    100 is between 0 and 100. *)
Theorem calculateConcentrationRisk_range (positions : list LPPosition.t) :
  positions <> [] ->
  Forall (fun p => 0 < LPPosition.currentValue p) positions ->
  (exists risk : Q,
     calculateConcentrationRisk positions = Num risk
     /\ 0 <= risk <= 100
     /\ (length positions = 1%nat -> risk == 100))
  /\ forall maxPosition totalValue : PrimFloat.float,
       Binary64.positive maxPosition ->
       PrimFloat.leb maxPosition totalValue = true ->
       Binary64.percentage
         (Binary64.calculateConcentrationRisk maxPosition totalValue).
Proof using Type.
  intros Hne Hpos.
  split; [| apply Binary64Ratios.calculateConcentrationRisk_binary64].
  pose proof (totalValue_positive positions Hpos Hne) as HT.
  assert (Qeq_bool (totalValue positions) 0 = false) as HT0.
  { apply not_true_iff_false. intros H. apply Qeq_bool_iff in H. lra. }
  destruct positions as [| p0 rest]; [congruence |].
  destruct (max_from rest (LPPosition.currentValue p0))
    as (m & Hm & Hle & Hall & Hin).
  assert (exists largest, In largest (p0 :: rest)
                          /\ m = LPPosition.currentValue largest)
    as (largest & Hlargest & Hvalue).
  { destruct Hin as [-> | (q & Hq & ->)].
    - exists p0. split; [now left | reflexivity].
    - exists q. split; [now right | reflexivity]. }
  exists (m / totalValue (p0 :: rest) * 100).
  assert (m <= totalValue (p0 :: rest)) as Hmax.
  { rewrite totalValue_sumOfValues. apply member_at_most_sum.
    - unfold values. apply Forall_map. exact Hpos.
    - rewrite Hvalue. unfold values. now apply in_map. }
  set (T := totalValue (p0 :: rest)) in *.
  assert (0 < m) as Hmpos.
  { rewrite Forall_forall in Hpos. rewrite Hvalue. apply Hpos.
    now rewrite list_elem_of_In. }
  assert (0 < m / T) as Hshare by (apply Qlt_shift_div_l; lra).
  split; [| split].
  - unfold calculateConcentrationRisk, Math_max_list. fold T.
    cbn [map fold_left]. cbn [max2 ngtb negb]. rewrite Hm.
    cbn [div mul]. now rewrite HT0.
  - assert (m / T <= 1) as H1 by (apply Qle_shift_div_r; lra). lra.
  - intros Hone. destruct rest as [| p1 rest]; [| discriminate Hone].
    cbn [map fold_left] in Hm. injection Hm as <-.
    unfold T, totalValue. cbn [fold_left]. field.
    rewrite Forall_forall in Hpos.
    assert (0 < LPPosition.currentValue p0) as H0
      by (apply Hpos; rewrite list_elem_of_In; now left).
    lra.
Qed.

Lemma calculateConcentrationRisk_range_witness :
  (exists risk, calculateConcentrationRisk [wethUsdc; daiWbtc] = Num risk
                /\ 0 <= risk <= 100)
  /\ Binary64.percentage
       (Binary64.calculateConcentrationRisk PrimFloat.one PrimFloat.two).
Proof.
  destruct (calculateConcentrationRisk_range [wethUsdc; daiWbtc])
    as [(risk & Hrisk & Hrange & _) Hbinary64].
  - discriminate.
  - repeat constructor.
  - split; [exists risk; split; assumption |].
    apply Hbinary64; repeat split; reflexivity.
Defined.

Lemma weighted_risk_from (T : Q) (assessments : list DetailedRiskAssessment.t) :
  0 < T ->
  Forall (fun a => finite_between 0 100 (DetailedRiskAssessment.overall a))
    assessments ->
  forall (positions : list LPPosition.t) (x : Q),
  Forall (fun p => 0 < LPPosition.currentValue p) positions ->
  0 <= x ->
  exists y,
    fold_left
      (fun sum '(assessment, position) =>
         add sum (mul (DetailedRiskAssessment.overall assessment)
                      (div (Num (LPPosition.currentValue position)) (Num T))))
      (combine assessments positions) (Num x) = Num y
    /\ 0 <= y
    /\ y * T <= x * T + 100 * sumOfValues (values positions).
Proof using Type.
  intros HT Hscores.
  assert (Qeq_bool T 0 = false) as HT0.
  { apply not_true_iff_false. intros H. apply Qeq_bool_iff in H. lra. }
  assert (forall ps, Forall (fun p => 0 < LPPosition.currentValue p) ps ->
                     0 <= sumOfValues (values ps)) as Hsum.
  { induction 1 as [| q qs Hq _ IH]; simpl; [lra |]. simpl in IH. lra. }
  induction Hscores as [| a assessments Ha _ IH]; intros positions x Hpos Hx.
  - exists x. split; [reflexivity |]. split; [exact Hx |].
    specialize (Hsum positions Hpos). lra.
  - destruct positions as [| p positions].
    + exists x. split; [reflexivity |]. split; [exact Hx | simpl; lra].
    + apply Forall_cons in Hpos as [Hp Hpos].
      cbn [combine fold_left]. cbv zeta.
      destruct Ha as (s & -> & Hs0 & Hs100).
      rewrite (div_finite _ _ HT0). cbn [mul add].
      assert (0 <= LPPosition.currentValue p / T) as Hw
        by (apply Qle_shift_div_l; [exact HT | lra]).
      assert (0 <= s * (LPPosition.currentValue p / T)) as Hterm
        by (apply Qmult_le_0_compat; assumption).
      destruct (IH positions (x + s * (LPPosition.currentValue p / T)) Hpos)
        as (y & Hy & Hy0 & Hbound); [lra |].
      exists y. split; [exact Hy |]. split; [exact Hy0 |].
      assert (s * (LPPosition.currentValue p / T) * T
              == s * LPPosition.currentValue p) as Hcancel by (field; lra).
      assert (s * LPPosition.currentValue p <= 100 * LPPosition.currentValue p)
        as Hle by (apply Qmult_le_compat_r; lra).
      cbn [values map sumOfValues fold_right].
      fold (values positions). fold (sumOfValues (values positions)).
      assert ((x + s * (LPPosition.currentValue p / T)) * T
              == x * T + s * (LPPosition.currentValue p / T) * T) as Hdistr
        by ring.
      rewrite Hdistr, Hcancel in Hbound. lra.
Qed.

Lemma calculateDiversificationBenefit_range (positions : list LPPosition.t) :
  0 <= calculateDiversificationBenefit positions <= 3 # 10.
Proof using Type.
  unfold calculateDiversificationBenefit.
  destruct (length positions <=? 1)%nat; [lra |].
  assert (0 <= inject_Z (Z.of_nat (length positions))) as Hn.
  { change 0 with (inject_Z 0). rewrite <- Zle_Qle. lia. }
  destruct (Math_min_spec 0.3 (inject_Z (Z.of_nat (length positions)) * 0.05))
    as [[H ->] | [H ->]]; lra.
Qed.

(** X27.  When the per-position assessment gives overall scores between 0
    and 100 and all position values are positive, the [totalRisk] of the
    position-level [assessPortfolio] is a finite number between 0 and 100,
    whichever positions have a pool. *)
Theorem assessPortfolio_totalRisk_bounded
    (assessPosition : LPPosition.t -> PoolData.t -> DetailedRiskAssessment.t)
    (positions : list LPPosition.t) (poolsData : list PoolData.t) :
  (forall position poolData,
     finite_between 0 100
       (DetailedRiskAssessment.overall (assessPosition position poolData))) ->
  Forall (fun p => 0 < LPPosition.currentValue p) positions ->
  finite_between 0 100
    (PortfolioRiskMetrics.totalRisk
       (assessPortfolio assessPosition positions poolsData)).
Proof using Type.
  intros Hscore Hpos. unfold assessPortfolio.
  cbn [PortfolioRiskMetrics.totalRisk].
  assert (Forall (fun a => finite_between 0 100 (DetailedRiskAssessment.overall a))
            (validAssessments assessPosition positions poolsData)) as Hvalid.
  { unfold validAssessments. apply Forall_forall. intros a Ha.
    apply list_elem_of_omap in Ha as (p & _ & Hp).
    unfold positionAssessment in Hp.
    destruct (find (matchesPool p) poolsData); [| discriminate Hp].
    injection Hp as <-. apply Hscore. }
  unfold calculatePortfolioRisk.
  destruct (Nat.eqb (length (validAssessments assessPosition positions poolsData)) 0)
    eqn:Hlen; [exists 0; split; [reflexivity | lra] |].
  assert (positions <> []) as Hne.
  { intros ->. discriminate Hlen. }
  pose proof (totalValue_positive positions Hpos Hne) as HT.
  cbv zeta.
  destruct (weighted_risk_from (totalValue positions) _ HT Hvalid positions 0 Hpos)
    as (y & -> & Hy0 & Hbound); [lra |].
  rewrite <- totalValue_sumOfValues in Hbound.
  assert (y <= 100) as Hy100
    by (apply Qmult_le_r with (z := totalValue positions); [exact HT | lra]).
  pose proof (calculateDiversificationBenefit_range positions) as [Hb0 Hb1].
  set (b := calculateDiversificationBenefit positions) in *.
  cbn [mul max2 ngtb].
  assert (0 <= y * (1 - b)) as Hz0 by (apply Qmult_le_0_compat; lra).
  assert (y * (1 - b) <= 100 * (1 - b)) as Hz1
    by (apply Qmult_le_compat_r; lra).
  destruct (gtb (y * (1 - b)) 0); eexists; (split; [reflexivity | lra]).
Qed.

Lemma assessPortfolio_totalRisk_bounded_witness :
  finite_between 0 100
    (PortfolioRiskMetrics.totalRisk
       (assessPortfolio noAssessment [wethUsdc; daiWbtc] mockPools)).
Proof.
  apply (assessPortfolio_totalRisk_bounded noAssessment).
  - intros position poolData. exists 0. split; [reflexivity | lra].
  - repeat constructor.
Defined.

End PositionPortfolio.
